(** * Custom operator registration and CUDA stream notifications

    A shallow embedding of [onnxruntime/core/session/custom_ops.cc]
    (attribute-array and string accessors, [CustomOpKernel],
    [CreateCustomRegistry] in the full and in the minimal build, and the
    type-inference function it synthesizes), of the CUDA stream handle code
    ([CudaNotification], [CreateCudaStream]) and of the string helpers of
    the managed binding ([NativeOnnxValueHelper]), followed by the
    properties established about them.

    Conventions.
    - [size_t] values are [nat]; [uint32_t version] is [N]; C [int] values
      returned by the plugin are [Z]; [ONNXTensorElementDataType] is the
      underlying integer of the C enum (the inference function casts a
      protobuf [int32] to it).
    - The plugin ([OrtCustomOp]) is a table of function pointers.  Its
      accessors are modelled as the fields of a record, and every invocation
      made by the host is logged as a [PluginCall].
    - [ORT_ENFORCE] / [ORT_THROW] raise an exception ([Throw]);
      [ORT_RETURN_IF_NOT] / [ORT_RETURN_IF_ERROR] leave the function with a
      non-OK [Status] ([Return]).  The macros are defined elsewhere; a status
      made by [ORT_RETURN_IF_NOT] carries the code FAIL and, as its message,
      the text the call site supplies.
    - The counter [int undefined] is a [nat]; it counts the inputs of one
      descriptor and stays far below the range of [int].
    - Native buffers are lists of [byte]; a zero-terminated string is read up
      to its first zero byte.
    - A [std::unordered_map] is a finite map; the order in which it is
      traversed is a parameter ([UnorderedMapOrder]). *)

From stdpp Require Import base list strings gmap pretty.
From Stdlib Require Import ZArith Lia.
From Stdlib.Strings Require Import Byte.

Local Open Scope string_scope.
Local Open Scope list_scope.

(** ** Status values *)

Inductive StatusCode := FAIL | INVALID_ARGUMENT.

Inductive Status :=
| Status_OK
| MakeStatus (code : StatusCode) (msg : string).

Definition IsOK (s : Status) : bool :=
  match s with Status_OK => true | MakeStatus _ _ => false end.

(** ** Attribute arrays (custom_ops.cc, lines 113-151) *)

(** [std::memcpy(out, src.data(), count * sizeof(T))] on a buffer seen as the
    list of its elements: the first [count] elements are overwritten. *)
Definition memcpy {T : Type} (out src : list T) (count : nat) : list T :=
  take count src ++ drop count out.

(** [out = None] is the null pointer; [Some buf] is the caller's buffer.
    The result is the status, the buffer afterwards and [*size] afterwards. *)
Definition CopyDataFromVectorToMemory {T : Type}
    (values : list T) (out : option (list T)) (size : nat)
  : Status * option (list T) * nat :=
  match out with
  | None => (Status_OK, None, length values)
  | Some buf =>
      if decide (length values <= size)
      then (Status_OK, Some (memcpy buf values (length values)), length values)
      else (MakeStatus INVALID_ARGUMENT "Result buffer is not large enough",
            Some buf, length values)
  end.

Section KernelInfoAttributeArrays.
(** [OpKernelInfo::GetAttrs<T>] and [ToOrtStatus] are declared outside this
    file; they are parameters here.  [float] values are only copied. *)
Variables (OpKernelInfo OrtStatusPtr float : Type).
Variable ToOrtStatus : Status -> OrtStatusPtr.
Variable GetAttrs_float : OpKernelInfo -> string -> Status * list float.
Variable GetAttrs_int64 : OpKernelInfo -> string -> Status * list Z.

Definition KernelInfoGetAttributeArray_float
    (info : OpKernelInfo) (name : string) (out : option (list float)) (size : nat)
  : OrtStatusPtr * option (list float) * nat :=
  let '(status, values) := GetAttrs_float info name in
  if IsOK status then
    let '(status, out, size) := CopyDataFromVectorToMemory values out size in
    (ToOrtStatus status, out, size)
  else (ToOrtStatus status, out, size).

Definition KernelInfoGetAttributeArray_int64
    (info : OpKernelInfo) (name : string) (out : option (list Z)) (size : nat)
  : OrtStatusPtr * option (list Z) * nat :=
  let '(status, values) := GetAttrs_int64 info name in
  if IsOK status then
    let '(status, out, size) := CopyDataFromVectorToMemory values out size in
    (ToOrtStatus status, out, size)
  else (ToOrtStatus status, out, size).
End KernelInfoAttributeArrays.

(** ** The plugin ABI *)

Definition ONNXTensorElementDataType := Z.
Definition ONNX_TENSOR_ELEMENT_DATA_TYPE_UNDEFINED : ONNXTensorElementDataType := 0%Z.
Definition ONNX_TENSOR_ELEMENT_DATA_TYPE_FLOAT : ONNXTensorElementDataType := 1%Z.
Definition ONNX_TENSOR_ELEMENT_DATA_TYPE_INT64 : ONNXTensorElementDataType := 7%Z.
Definition ONNX_TENSOR_ELEMENT_DATA_TYPE_DOUBLE : ONNXTensorElementDataType := 11%Z.

Inductive OrtCustomOpInputOutputCharacteristic :=
| INPUT_OUTPUT_REQUIRED
| INPUT_OUTPUT_OPTIONAL
| INPUT_OUTPUT_VARIADIC.

Inductive OrtMemType :=
| OrtMemTypeCPUInput
| OrtMemTypeCPUOutput
| OrtMemTypeDefault.

Record OrtCustomOp := {
  version : N;
  GetName : string;
  GetExecutionProviderType : option string;
  GetInputTypeCount : nat;
  GetInputType : nat -> ONNXTensorElementDataType;
  GetOutputTypeCount : nat;
  GetOutputType : nat -> ONNXTensorElementDataType;
  GetInputCharacteristic : nat -> OrtCustomOpInputOutputCharacteristic;
  GetOutputCharacteristic : nat -> OrtCustomOpInputOutputCharacteristic;
  GetInputMemoryType : nat -> OrtMemType;
  GetVariadicInputMinArity : Z;
  GetVariadicInputHomogeneity : Z;
  GetVariadicOutputMinArity : Z;
  GetVariadicOutputHomogeneity : Z;
  (** [CreateKernel(op, api, info)] returns the plugin's kernel object *)
  CreateKernel : N -> nat;
}.

(** One entry per invocation of a function pointer of the table. *)
Inductive PluginCall :=
| Call_GetName
| Call_GetExecutionProviderType
| Call_GetInputTypeCount
| Call_GetInputType (i : nat)
| Call_GetOutputTypeCount
| Call_GetOutputType (i : nat)
| Call_GetInputCharacteristic (i : nat)
| Call_GetOutputCharacteristic (i : nat)
| Call_GetInputMemoryType (i : nat)
| Call_GetVariadicInputMinArity
| Call_GetVariadicInputHomogeneity
| Call_GetVariadicOutputMinArity
| Call_GetVariadicOutputHomogeneity
| Call_CreateKernel (api_version : N)
| Call_KernelCompute (op_kernel : nat)
| Call_KernelDestroy (op_kernel : nat).

Global Instance PluginCall_eq_dec : EqDecision PluginCall.
Proof. solve_decision. Defined.

Global Instance Characteristic_eq_dec : EqDecision OrtCustomOpInputOutputCharacteristic.
Proof. solve_decision. Defined.

(** ** Host computations that call into the plugin *)

Inductive Outcome (A : Type) :=
| Ok (a : A)
| Return (status : Status)
| Throw (msg : string).
Arguments Ok {A} a.
Arguments Return {A} status.
Arguments Throw {A} msg.

(** A computation yields its outcome and the plugin calls it made, in order. *)
Definition W (A : Type) : Type := Outcome A * list PluginCall.

Global Instance W_ret : MRet W := λ A a, (Ok a, []).

Global Instance W_bind : MBind W := λ A B f m,
  match m.1 with
  | Ok a => let r := f a in (r.1, m.2 ++ r.2)
  | Return s => (Return s, m.2)
  | Throw e => (Throw e, m.2)
  end.

(** [op->F(op, ...)]: log the call and produce its value. *)
Definition call {A : Type} (c : PluginCall) (a : A) : W A := (Ok a, [c]).

(** [ORT_ENFORCE(cond, msg)] and [ORT_RETURN_IF_NOT(cond, msg...)] *)
Definition ORT_ENFORCE (cond : bool) (msg : string) : W unit :=
  if cond then (Ok (), []) else (Throw msg, []).

Definition ORT_RETURN_IF_NOT (cond : bool) (msg : string) : W unit :=
  if cond then (Ok (), []) else (Return (MakeStatus FAIL msg), []).

(** [for (size_t i = start; i < start + n; i++) st = body i st] *)
Fixpoint for_range {St : Type} (start n : nat) (body : nat -> St -> W St) (st : St)
  : W St :=
  match n with
  | O => mret st
  | S n' => st' ← body start st; for_range (S start) n' body st'
  end.

Definition to_string (n : nat) : string := pretty n.

(** ** ONNX operator schemas, as far as this file builds them *)

Inductive FormalParameterOption := Single | Optional | Variadic.

Global Instance FormalParameterOption_eq_dec : EqDecision FormalParameterOption.
Proof. solve_decision. Defined.

Record FormalParameter := {
  GetName_fp : string;
  GetDescription : string;
  GetTypeStr : string;
  GetOption : FormalParameterOption;
  GetIsHomogeneous : bool;
  GetMinArity : Z;
}.

(** The set of types a constraint allows: [DataTypeImpl::AllTensorTypes()] or
    the single tensor type [DataTypeImpl::TensorTypeFromONNXEnum(type)]. *)
Inductive TypeSet :=
| AllTensorTypes
| TensorTypeFromONNXEnum (type : ONNXTensorElementDataType).

Definition OnnxTypeVec := list ONNXTensorElementDataType.

Record OpSchema := {
  Name : string;
  file : string;
  line : Z;
  inputs : list FormalParameter;
  outputs : list FormalParameter;
  type_constraints : list (string * TypeSet * string);
  domain : string;
  since_version : Z;
  allow_unchecked_attributes : bool;
  (** the [type_vecs] captured by the inference function, once it is set *)
  inference_type_vecs : option (list OnnxTypeVec);
}.

Definition OpSchema_new (name file : string) (line : Z) : OpSchema :=
  {| Name := name; file := file; line := line; inputs := []; outputs := [];
     type_constraints := []; domain := ""; since_version := 1;
     allow_unchecked_attributes := false; inference_type_vecs := None |}.

Definition default_FormalParameter : FormalParameter :=
  {| GetName_fp := ""; GetDescription := ""; GetTypeStr := "";
     GetOption := Single; GetIsHomogeneous := true; GetMinArity := 1 |}.

(** [if (v.size() <= n) v.resize(n + 1); v[n] = x;] *)
Definition assign_at (n : nat) (x : FormalParameter) (v : list FormalParameter)
  : list FormalParameter :=
  <[n := x]> (v ++ replicate (S n - length v) default_FormalParameter).

Definition Input (n : nat) (name description type_str : string)
    (option : FormalParameterOption) (is_homogeneous : bool) (min_arity : Z)
    (schema : OpSchema) : OpSchema :=
  let fp := {| GetName_fp := name; GetDescription := description;
               GetTypeStr := type_str; GetOption := option;
               GetIsHomogeneous := is_homogeneous; GetMinArity := min_arity |} in
  {| Name := Name schema; file := file schema; line := line schema;
     inputs := assign_at n fp (inputs schema); outputs := outputs schema;
     type_constraints := type_constraints schema; domain := domain schema;
     since_version := since_version schema;
     allow_unchecked_attributes := allow_unchecked_attributes schema;
     inference_type_vecs := inference_type_vecs schema |}.

Definition Output (n : nat) (name description type_str : string)
    (option : FormalParameterOption) (is_homogeneous : bool) (min_arity : Z)
    (schema : OpSchema) : OpSchema :=
  let fp := {| GetName_fp := name; GetDescription := description;
               GetTypeStr := type_str; GetOption := option;
               GetIsHomogeneous := is_homogeneous; GetMinArity := min_arity |} in
  {| Name := Name schema; file := file schema; line := line schema;
     inputs := inputs schema; outputs := assign_at n fp (outputs schema);
     type_constraints := type_constraints schema; domain := domain schema;
     since_version := since_version schema;
     allow_unchecked_attributes := allow_unchecked_attributes schema;
     inference_type_vecs := inference_type_vecs schema |}.

Definition TypeConstraint (type_str : string) (constraints : TypeSet)
    (description : string) (schema : OpSchema) : OpSchema :=
  {| Name := Name schema; file := file schema; line := line schema;
     inputs := inputs schema; outputs := outputs schema;
     type_constraints := type_constraints schema ++ [(type_str, constraints, description)];
     domain := domain schema; since_version := since_version schema;
     allow_unchecked_attributes := allow_unchecked_attributes schema;
     inference_type_vecs := inference_type_vecs schema |}.

Definition SetDomain (d : string) (schema : OpSchema) : OpSchema :=
  {| Name := Name schema; file := file schema; line := line schema;
     inputs := inputs schema; outputs := outputs schema;
     type_constraints := type_constraints schema; domain := d;
     since_version := since_version schema;
     allow_unchecked_attributes := allow_unchecked_attributes schema;
     inference_type_vecs := inference_type_vecs schema |}.

Definition SinceVersion (v : Z) (schema : OpSchema) : OpSchema :=
  {| Name := Name schema; file := file schema; line := line schema;
     inputs := inputs schema; outputs := outputs schema;
     type_constraints := type_constraints schema; domain := domain schema;
     since_version := v;
     allow_unchecked_attributes := allow_unchecked_attributes schema;
     inference_type_vecs := inference_type_vecs schema |}.

Definition AllowUncheckedAttributes (schema : OpSchema) : OpSchema :=
  {| Name := Name schema; file := file schema; line := line schema;
     inputs := inputs schema; outputs := outputs schema;
     type_constraints := type_constraints schema; domain := domain schema;
     since_version := since_version schema;
     allow_unchecked_attributes := true;
     inference_type_vecs := inference_type_vecs schema |}.

Definition TypeAndShapeInferenceFunction (type_vecs : list OnnxTypeVec)
    (schema : OpSchema) : OpSchema :=
  {| Name := Name schema; file := file schema; line := line schema;
     inputs := inputs schema; outputs := outputs schema;
     type_constraints := type_constraints schema; domain := domain schema;
     since_version := since_version schema;
     allow_unchecked_attributes := allow_unchecked_attributes schema;
     inference_type_vecs := Some type_vecs |}.

(** ** Schema creation (custom_ops.cc, lines 424-507) *)

Definition min_ort_version_with_optional_io_support : N := 8.
Definition min_ort_version_with_variadic_io_support : N := 14.

(** Lines 437-456: option, homogeneity and minimum arity of input [i]. *)
Definition input_characteristics (op : OrtCustomOp) (input_count i : nat)
  : W (FormalParameterOption * bool * Z) :=
  if decide (min_ort_version_with_optional_io_support <= version op)%N then
    characteristic ← call (Call_GetInputCharacteristic i) (GetInputCharacteristic op i);
    if decide (characteristic = INPUT_OUTPUT_OPTIONAL) then
      mret (Optional, true, 1%Z)
    else if decide ((min_ort_version_with_variadic_io_support <= version op)%N
                    ∧ characteristic = INPUT_OUTPUT_VARIADIC) then
      _ ← ORT_ENFORCE (bool_decide (i = input_count - 1))
            "Only the last input to a custom op may be marked variadic.";
      min_arity ← call Call_GetVariadicInputMinArity (GetVariadicInputMinArity op);
      homogeneity ← call Call_GetVariadicInputHomogeneity (GetVariadicInputHomogeneity op);
      mret (Variadic, bool_decide (homogeneity ≠ 0%Z), min_arity)
    else mret (Single, true, 1%Z)
  else mret (Single, true, 1%Z).

(** Lines 436-469: one iteration of the input loop; the state is the schema
    under construction and the counter [undefined]. *)
Definition create_schema_input (op : OrtCustomOp) (input_count i : nat)
    (st : OpSchema * nat) : W (OpSchema * nat) :=
  let '(schema, undefined) := st in
  '(option, is_homogeneous, min_arity) ← input_characteristics op input_count i;
  type ← call (Call_GetInputType i) (GetInputType op i);
  if decide (ONNX_TENSOR_ELEMENT_DATA_TYPE_UNDEFINED = type) then
    let type_str := "T" +:+ to_string undefined in
    mret (TypeConstraint type_str AllTensorTypes "all types"
            (Input i ("Input" +:+ to_string i) "" type_str
                   option is_homogeneous min_arity schema),
          S undefined)
  else
    let input_name := "Input" +:+ to_string i in
    mret (TypeConstraint input_name AllTensorTypes "all types"
            (Input i input_name "" input_name option is_homogeneous min_arity schema),
          undefined).

(** Lines 472-491: option, homogeneity and minimum arity of output [i]. *)
Definition output_characteristics (op : OrtCustomOp) (output_count i : nat)
  : W (FormalParameterOption * bool * Z) :=
  if decide (min_ort_version_with_optional_io_support <= version op)%N then
    characteristic ← call (Call_GetOutputCharacteristic i) (GetOutputCharacteristic op i);
    if decide (characteristic = INPUT_OUTPUT_OPTIONAL) then
      mret (Optional, true, 1%Z)
    else if decide ((min_ort_version_with_variadic_io_support <= version op)%N
                    ∧ characteristic = INPUT_OUTPUT_VARIADIC) then
      _ ← ORT_ENFORCE (bool_decide (i = output_count - 1))
            "Only the last output to a custom op may be marked variadic.";
      min_arity ← call Call_GetVariadicOutputMinArity (GetVariadicOutputMinArity op);
      homogeneity ← call Call_GetVariadicOutputHomogeneity (GetVariadicOutputHomogeneity op);
      mret (Variadic, bool_decide (homogeneity ≠ 0%Z), min_arity)
    else mret (Single, true, 1%Z)
  else mret (Single, true, 1%Z).

(** Lines 471-503: one iteration of the output loop; [undefined] is the
    number of undefined input types counted by the input loop. *)
Definition create_schema_output (op : OrtCustomOp) (output_count undefined i : nat)
    (schema : OpSchema) : W OpSchema :=
  '(option, is_homogeneous, min_arity) ← output_characteristics op output_count i;
  type ← call (Call_GetOutputType i) (GetOutputType op i);
  if decide (ONNX_TENSOR_ELEMENT_DATA_TYPE_UNDEFINED = type) then
    characteristic ← call (Call_GetOutputCharacteristic i) (GetOutputCharacteristic op i);
    _ ← (if decide (characteristic = INPUT_OUTPUT_REQUIRED)
         then ORT_ENFORCE (bool_decide (1 = undefined)) "todo..."
         else mret ());
    mret (Output i ("Output" +:+ to_string i) "" "T0"
                 option is_homogeneous min_arity schema)
  else
    let output_name := "Output" +:+ to_string i in
    mret (TypeConstraint output_name AllTensorTypes "all types"
            (Output i output_name "" output_name option is_homogeneous min_arity schema)).

(** Lines 433-507, the branch taken when the name has no schema yet.  The
    result is the finished schema and the final value of [undefined]. *)
Definition create_schema (domain_ : string) (op : OrtCustomOp)
    (input_count output_count : nat) : W (OpSchema * nat) :=
  name ← call Call_GetName (GetName op);
  let schema := OpSchema_new name "custom op registered at runtime" 0 in
  '(schema, undefined) ←
    for_range 0 input_count (create_schema_input op input_count) (schema, 0);
  schema ← for_range 0 output_count (create_schema_output op output_count undefined) schema;
  mret (AllowUncheckedAttributes (SinceVersion 1 (SetDomain domain_ schema)), undefined).

(** ** Consistency check against an existing schema (lines 508-571) *)

Global Instance FormalParameter_inhabited : Inhabited FormalParameter :=
  populate default_FormalParameter.

(** [i == 0 ? "st" : (i == 1 ? "nd" : "th")] *)
Definition ordinal_suffix (i : nat) : string :=
  if decide (i = 0) then "st" else if decide (i = 1) then "nd" else "th".

Definition mismatch (i : nat) (what : string) : string :=
  "custom op schemas mismatch, expecting " +:+ to_string (i + 1)
    +:+ ordinal_suffix i +:+ what.

(** Lines 513-540: one iteration of the input check. *)
Definition check_input (op : OrtCustomOp) (input_parameters : list FormalParameter)
    (i : nat) (_ : unit) : W unit :=
  characteristic ← call (Call_GetInputCharacteristic i) (GetInputCharacteristic op i);
  let formal_parameter := input_parameters !!! i in
  _ ← (if decide (characteristic = INPUT_OUTPUT_OPTIONAL) then
         ORT_RETURN_IF_NOT (bool_decide (GetOption formal_parameter = Optional))
           (mismatch i " input to be of optional type")
       else if decide (characteristic = INPUT_OUTPUT_VARIADIC) then
         ORT_RETURN_IF_NOT (bool_decide (GetOption formal_parameter = Variadic))
           (mismatch i " input to be of variadic type")
       else
         ORT_RETURN_IF_NOT (bool_decide (GetOption formal_parameter = Single))
           (mismatch i " input to be of single type"));
  homogeneity ← call Call_GetVariadicOutputHomogeneity (GetVariadicOutputHomogeneity op);
  _ ← ORT_RETURN_IF_NOT
        (bool_decide (GetIsHomogeneous formal_parameter = bool_decide (homogeneity ≠ 0%Z)))
        (mismatch i " input to keep same homogeneity");
  min_arity ← call Call_GetVariadicInputMinArity (GetVariadicInputMinArity op);
  ORT_RETURN_IF_NOT (bool_decide (GetMinArity formal_parameter = min_arity))
    (mismatch i " input to keep same arity").

(** Lines 544-571: one iteration of the output check. *)
Definition check_output (op : OrtCustomOp) (output_parameters : list FormalParameter)
    (i : nat) (_ : unit) : W unit :=
  characteristic ← call (Call_GetOutputCharacteristic i) (GetOutputCharacteristic op i);
  let formal_parameter := output_parameters !!! i in
  _ ← (if decide (characteristic = INPUT_OUTPUT_OPTIONAL) then
         ORT_RETURN_IF_NOT (bool_decide (GetOption formal_parameter = Optional))
           (mismatch i " output to be of optional type")
       else if decide (characteristic = INPUT_OUTPUT_VARIADIC) then
         ORT_RETURN_IF_NOT (bool_decide (GetOption formal_parameter = Variadic))
           (mismatch i " output to be of variadic type")
       else
         ORT_RETURN_IF_NOT (bool_decide (GetOption formal_parameter = Single))
           (mismatch i " output to be of single type"));
  homogeneity ← call Call_GetVariadicOutputHomogeneity (GetVariadicOutputHomogeneity op);
  _ ← ORT_RETURN_IF_NOT
        (bool_decide (GetIsHomogeneous formal_parameter = bool_decide (homogeneity ≠ 0%Z)))
        (mismatch i " output to keep same homogeneity");
  min_arity ← call Call_GetVariadicInputMinArity (GetVariadicInputMinArity op);
  ORT_RETURN_IF_NOT (bool_decide (GetMinArity formal_parameter = min_arity))
    (mismatch i " output to keep same arity").

Definition check_consistency (schema : OpSchema) (op : OrtCustomOp)
    (input_count output_count : nat) : W unit :=
  let input_parameters := inputs schema in
  _ ← ORT_RETURN_IF_NOT (bool_decide (length input_parameters = input_count))
        "input count does not match";
  _ ← for_range 0 (length input_parameters) (check_input op input_parameters) ();
  let output_parameters := outputs schema in
  _ ← ORT_RETURN_IF_NOT (bool_decide (length output_parameters = output_count))
        "output count does not match";
  for_range 0 (length output_parameters) (check_output op output_parameters) ().

(** ** Kernel definitions (lines 574-619) *)

Definition kCpuExecutionProvider : string := "CPUExecutionProvider".
Definition kCudaExecutionProvider : string := "CUDAExecutionProvider".

Record KernelDef := {
  kernel_name : string;
  kernel_domain : string;
  kernel_since_version : Z;
  input_memory_types : list (nat * OrtMemType);
  kernel_type_constraints : list (string * TypeSet);
  provider_type : string;
}.

Module KernelDefBuilder.
Definition new : KernelDef :=
  {| kernel_name := ""; kernel_domain := ""; kernel_since_version := 1;
     input_memory_types := []; kernel_type_constraints := []; provider_type := "" |}.

Definition SetName (name : string) (d : KernelDef) : KernelDef :=
  {| kernel_name := name; kernel_domain := kernel_domain d;
     kernel_since_version := kernel_since_version d;
     input_memory_types := input_memory_types d;
     kernel_type_constraints := kernel_type_constraints d;
     provider_type := provider_type d |}.

Definition SetDomain (dom : string) (d : KernelDef) : KernelDef :=
  {| kernel_name := kernel_name d; kernel_domain := dom;
     kernel_since_version := kernel_since_version d;
     input_memory_types := input_memory_types d;
     kernel_type_constraints := kernel_type_constraints d;
     provider_type := provider_type d |}.

Definition SinceVersion (v : Z) (d : KernelDef) : KernelDef :=
  {| kernel_name := kernel_name d; kernel_domain := kernel_domain d;
     kernel_since_version := v;
     input_memory_types := input_memory_types d;
     kernel_type_constraints := kernel_type_constraints d;
     provider_type := provider_type d |}.

Definition InputMemoryType (type : OrtMemType) (input_index : nat) (d : KernelDef)
  : KernelDef :=
  {| kernel_name := kernel_name d; kernel_domain := kernel_domain d;
     kernel_since_version := kernel_since_version d;
     input_memory_types := input_memory_types d ++ [(input_index, type)];
     kernel_type_constraints := kernel_type_constraints d;
     provider_type := provider_type d |}.

Definition TypeConstraint (arg_name : string) (types : TypeSet) (d : KernelDef)
  : KernelDef :=
  {| kernel_name := kernel_name d; kernel_domain := kernel_domain d;
     kernel_since_version := kernel_since_version d;
     input_memory_types := input_memory_types d;
     kernel_type_constraints := kernel_type_constraints d ++ [(arg_name, types)];
     provider_type := provider_type d |}.

Definition Provider (p : string) (d : KernelDef) : KernelDef :=
  {| kernel_name := kernel_name d; kernel_domain := kernel_domain d;
     kernel_since_version := kernel_since_version d;
     input_memory_types := input_memory_types d;
     kernel_type_constraints := kernel_type_constraints d;
     provider_type := p |}.
End KernelDefBuilder.

(** [KernelCreateInfo(def_builder.Build(), kernel_create_fn)]: the creation
    function is a closure over [op]; its body is [kernel_create_fn] below. *)
Record KernelCreateInfo := {
  kernel_def : KernelDef;
  kernel_create_op : OrtCustomOp;
}.

(** [type_map[name]] (a missing key reads as the empty vector) *)
Definition type_map_at (type_map : gmap string (list OnnxTypeVec)) (name : string)
  : list OnnxTypeVec :=
  default [] (type_map !! name).

(** [vecs.back().push_back(x)] *)
Definition back_push_back (vecs : list OnnxTypeVec) (x : ONNXTensorElementDataType)
  : list OnnxTypeVec :=
  match reverse vecs with
  | [] => []
  | v :: rest => reverse rest ++ [v ++ [x]]
  end.

(** Lines 583-585. *)
Definition add_input_memory_type (op : OrtCustomOp) (i : nat) (def_builder : KernelDef)
  : W KernelDef :=
  mem_type ← call (Call_GetInputMemoryType i) (GetInputMemoryType op i);
  mret (KernelDefBuilder.InputMemoryType mem_type i def_builder).

(** Lines 588-590. *)
Definition add_template_constraint (i : nat) (def_builder : KernelDef) : W KernelDef :=
  mret (KernelDefBuilder.TypeConstraint ("T" +:+ to_string i) AllTensorTypes def_builder).

(** Lines 592-598. *)
Definition add_input_type (op : OrtCustomOp) (i : nat)
    (st : KernelDef * gmap string (list OnnxTypeVec))
  : W (KernelDef * gmap string (list OnnxTypeVec)) :=
  let '(def_builder, type_map) := st in
  type ← call (Call_GetInputType i) (GetInputType op i);
  name ← call Call_GetName (GetName op);
  let type_map := <[name := back_push_back (type_map_at type_map name) type]> type_map in
  if decide (ONNX_TENSOR_ELEMENT_DATA_TYPE_UNDEFINED ≠ type) then
    mret (KernelDefBuilder.TypeConstraint ("Input" +:+ to_string i)
            (TensorTypeFromONNXEnum type) def_builder, type_map)
  else mret (def_builder, type_map).

(** Lines 600-606. *)
Definition add_output_type (op : OrtCustomOp) (i : nat)
    (st : KernelDef * gmap string (list OnnxTypeVec))
  : W (KernelDef * gmap string (list OnnxTypeVec)) :=
  let '(def_builder, type_map) := st in
  type ← call (Call_GetOutputType i) (GetOutputType op i);
  name ← call Call_GetName (GetName op);
  let type_map := <[name := back_push_back (type_map_at type_map name) type]> type_map in
  if decide (ONNX_TENSOR_ELEMENT_DATA_TYPE_UNDEFINED ≠ type) then
    mret (KernelDefBuilder.TypeConstraint ("Output" +:+ to_string i)
            (TensorTypeFromONNXEnum type) def_builder, type_map)
  else mret (def_builder, type_map).

(** Lines 574-619. *)
Definition build_kernel_create_info (domain_ : string) (op : OrtCustomOp)
    (input_count output_count undefined : nat)
    (type_map : gmap string (list OnnxTypeVec))
  : W (KernelCreateInfo * gmap string (list OnnxTypeVec)) :=
  name ← call Call_GetName (GetName op);
  let type_map := <[name := type_map_at type_map name ++ [[]]]> type_map in
  name ← call Call_GetName (GetName op);
  let def_builder :=
    KernelDefBuilder.SinceVersion 1
      (KernelDefBuilder.SetDomain domain_
         (KernelDefBuilder.SetName name KernelDefBuilder.new)) in
  def_builder ←
    (if decide (12 < version op)%N
     then for_range 0 input_count (add_input_memory_type op) def_builder
     else mret def_builder);
  def_builder ← for_range 0 undefined add_template_constraint def_builder;
  '(def_builder, type_map) ←
    for_range 0 input_count (add_input_type op) (def_builder, type_map);
  '(def_builder, type_map) ←
    for_range 0 output_count (add_output_type op) (def_builder, type_map);
  provider ← call Call_GetExecutionProviderType (GetExecutionProviderType op);
  let def_builder :=
    match provider with
    | Some provider_type => KernelDefBuilder.Provider provider_type def_builder
    | None => KernelDefBuilder.Provider kCpuExecutionProvider def_builder
    end in
  mret ({| kernel_def := def_builder; kernel_create_op := op |}, type_map).

(** [schema_map.emplace(k, v)]: no effect when the key is present. *)
Definition emplace {V : Type} (k : string) (v : V) (m : gmap string V) : gmap string V :=
  match m !! k with
  | Some _ => m
  | None => <[k := v]> m
  end.

(** Lines 428-619: everything done for one [op] of a domain before its kernel
    is handed to the registry. *)
Definition prepare_custom_op (domain_ : string) (op : OrtCustomOp)
    (schema_map : gmap string OpSchema) (type_map : gmap string (list OnnxTypeVec))
  : W (gmap string OpSchema * gmap string (list OnnxTypeVec) * KernelCreateInfo) :=
  input_count ← call Call_GetInputTypeCount (GetInputTypeCount op);
  output_count ← call Call_GetOutputTypeCount (GetOutputTypeCount op);
  name ← call Call_GetName (GetName op);
  '(schema_map, type_map, undefined) ←
    match schema_map !! name with
    | None =>
        name ← call Call_GetName (GetName op);
        let type_map := emplace name [] type_map in
        '(schema, undefined) ← create_schema domain_ op input_count output_count;
        mret (emplace (Name schema) schema schema_map, type_map, undefined)
    | Some schema =>
        _ ← check_consistency schema op input_count output_count;
        mret (schema_map, type_map, 0)
    end;
  '(create_info, type_map) ←
    build_kernel_create_info domain_ op input_count output_count undefined type_map;
  mret (schema_map, type_map, create_info).

(** ** The synthesized inference function (lines 629-670) *)

(** [getInputType(i)] is [None] for a null pointer and otherwise the element
    type of the tensor type; [getOutputType(i)] is the element type set on
    output [i], if any. *)
Record InferenceContext := {
  getInputType : list (option ONNXTensorElementDataType);
  getOutputType : list (option ONNXTensorElementDataType);
}.

Definition getNumInputs (infer_ctx : InferenceContext) : nat :=
  length (getInputType infer_ctx).
Definition getNumOutputs (infer_ctx : InferenceContext) : nat :=
  length (getOutputType infer_ctx).

(** Lines 631-639. *)
Definition collect_input_types (infer_ctx : InferenceContext) : OnnxTypeVec :=
  (λ input_type, match input_type with
                 | Some elem_type => elem_type
                 | None => ONNX_TENSOR_ELEMENT_DATA_TYPE_UNDEFINED
                 end) <$> getInputType infer_ctx.

(** Lines 645-657: the loop over input positions [i, i + n), with [break] on
    the first mismatch.  The result is [(match, undef)]. *)
Fixpoint match_inputs (type_vec input_types : OnnxTypeVec) (i n : nat)
    (undef : ONNXTensorElementDataType) : bool * ONNXTensorElementDataType :=
  match n with
  | O => (true, undef)
  | S n' =>
      if decide (ONNX_TENSOR_ELEMENT_DATA_TYPE_UNDEFINED = input_types !!! i) then
        match_inputs type_vec input_types (S i) n' undef
      else if decide (ONNX_TENSOR_ELEMENT_DATA_TYPE_UNDEFINED = type_vec !!! i) then
        match_inputs type_vec input_types (S i) n' (input_types !!! i)
      else if decide (type_vec !!! i ≠ input_types !!! i) then
        (false, undef)
      else match_inputs type_vec input_types (S i) n' undef
  end.

(** Lines 659-666. *)
Definition set_output_types (type_vec : OnnxTypeVec) (num_inputs : nat)
    (undef : ONNXTensorElementDataType) (infer_ctx : InferenceContext)
  : InferenceContext :=
  foldl (λ ctx i,
           let elem_type :=
             if decide (ONNX_TENSOR_ELEMENT_DATA_TYPE_UNDEFINED = type_vec !!! i)
             then undef else type_vec !!! i in
           {| getInputType := getInputType ctx;
              getOutputType := <[i - num_inputs := Some elem_type]> (getOutputType ctx) |})
        infer_ctx (seq num_inputs (length type_vec - num_inputs)).

(** Lines 641-669: the scan over the bindings, in order. *)
Fixpoint scan_type_vecs (type_vecs : list OnnxTypeVec) (input_types : OnnxTypeVec)
    (num_inputs num_outputs : nat) (infer_ctx : InferenceContext) : InferenceContext :=
  match type_vecs with
  | [] => infer_ctx
  | type_vec :: rest =>
      if decide (length type_vec ≠ num_inputs + num_outputs) then
        scan_type_vecs rest input_types num_inputs num_outputs infer_ctx
      else
        let '(is_match, undef) :=
          match_inputs type_vec input_types 0 num_inputs
                       ONNX_TENSOR_ELEMENT_DATA_TYPE_UNDEFINED in
        if is_match then set_output_types type_vec num_inputs undef infer_ctx
        else scan_type_vecs rest input_types num_inputs num_outputs infer_ctx
  end.

Definition infer_fn (type_vecs : list OnnxTypeVec) (infer_ctx : InferenceContext)
  : InferenceContext :=
  let num_inputs := getNumInputs infer_ctx in
  let input_types := collect_input_types infer_ctx in
  let num_outputs := getNumOutputs infer_ctx in
  scan_type_vecs type_vecs input_types num_inputs num_outputs infer_ctx.

(** ** [CustomOpKernel] (lines 377-399) *)

Record CustomOpKernel := {
  op_ : OrtCustomOp;
  op_kernel_ : nat;
}.

Section CustomOpKernel.
(** The host's API version, a macro of the C API header. *)
Variable ORT_API_VERSION : N.

Definition CustomOpKernel_new (op : OrtCustomOp) : W CustomOpKernel :=
  if decide (ORT_API_VERSION < version op)%N then
    name ← call Call_GetName (GetName op);
    (Throw ("Unsupported version '" +:+ pretty (version op)
              +:+ "' in custom op '" +:+ name), [])
  else
    op_kernel ← call (Call_CreateKernel (version op)) (CreateKernel op (version op));
    mret {| op_ := op; op_kernel_ := op_kernel |}.

(** Lines 614-617. *)
Definition kernel_create_fn (op : OrtCustomOp) : W (Status * CustomOpKernel) :=
  out ← CustomOpKernel_new op;
  mret (Status_OK, out).
End CustomOpKernel.

Definition Compute (kernel : CustomOpKernel) : W Status :=
  _ ← call (Call_KernelCompute (op_kernel_ kernel)) ();
  mret Status_OK.

Definition CustomOpKernel_delete (kernel : CustomOpKernel) : W unit :=
  call (Call_KernelDestroy (op_kernel_ kernel)) ().

(** ** [CreateCustomRegistry] (lines 401-727) *)

Record OrtCustomOpDomain := {
  domain_ : string;
  custom_ops_ : list OrtCustomOp;
}.

(** [CustomRegistry] is declared in customregistry.h; the two operations this
    file uses are an interface here. *)
Class CustomRegistryOps (R : Type) := {
  make_CustomRegistry : R;
  RegisterCustomKernel : KernelCreateInfo -> R -> Status * R;
  RegisterOpSet : list OpSchema -> string -> Z -> Z -> R -> Status * R;
}.

(** What the function mutates: the registry behind [output] and the
    process-wide [DomainToVersionRange] map. *)
Record Host (R : Type) := {
  output : R;
  domain_to_version_map : gmap string (Z * Z);
}.
Arguments output {R} h.
Arguments domain_to_version_map {R} h.

Definition M (R A : Type) : Type := Host R -> Outcome A * Host R * list PluginCall.

Global Instance M_ret {R} : MRet (M R) := λ A a h, (Ok a, h, []).

Global Instance M_bind {R} : MBind (M R) := λ A B f m h,
  match m h with
  | (Ok a, h', calls) =>
      match f a h' with (r, h'', calls') => (r, h'', calls ++ calls') end
  | (Return s, h', calls) => (Return s, h', calls)
  | (Throw e, h', calls) => (Throw e, h', calls)
  end.

Definition lift {R A} (w : W A) : M R A := λ h, (w.1, h, w.2).

Definition ORT_RETURN_IF_ERROR {R} (status : Status) : M R unit := λ h,
  if IsOK status then (Ok (), h, []) else (Return status, h, []).

Fixpoint for_each {R A St} (l : list A) (body : A -> St -> M R St) (st : St) : M R St :=
  match l with
  | [] => mret st
  | x :: l' => st' ← body x st; for_each l' body st'
  end.

(** [schema_map] is a [std::unordered_map]: the order in which the loop of
    line 624 goes through it is unspecified.  The traversal is a parameter;
    all that is known of it is that it visits every entry once. *)
Class UnorderedMapOrder := {
  traverse : gmap string OpSchema -> list (string * OpSchema);
  traverse_perm : ∀ m, traverse m ≡ₚ map_to_list m;
}.

(** One traversal: in the order in which the finite map enumerates its keys.
    The examples registered with it below have one name per domain, so that
    their schema maps have a single entry and every traversal is this one. *)
Definition key_order : UnorderedMapOrder :=
  {| traverse := map_to_list; traverse_perm m := Permutation_refl (map_to_list m) |}.


Section CreateCustomRegistry.
Context {R : Type} `{CustomRegistryOps R} {order : UnorderedMapOrder}.

(** Lines 413-422. *)
Definition add_domain_to_version (d : string) : M R unit := λ h,
  if decide (d ≠ "") then
    match domain_to_version_map h !! d with
    | None => (Ok (), {| output := output h;
                         domain_to_version_map :=
                           <[d := (1%Z, 1000%Z)]> (domain_to_version_map h) |}, [])
    | Some _ => (Ok (), h, [])
    end
  else (Ok (), h, []).

(** Lines 427-621: the body of the loop over [domain->custom_ops_]. *)
Definition register_custom_op (d : string) (op : OrtCustomOp)
    (st : gmap string OpSchema * gmap string (list OnnxTypeVec))
  : M R (gmap string OpSchema * gmap string (list OnnxTypeVec)) :=
  let '(schema_map, type_map) := st in
  '(schema_map, type_map, create_info) ← lift (prepare_custom_op d op schema_map type_map);
  status ← (λ h, let '(status, r) := RegisterCustomKernel create_info (output h) in
                 (Ok status, {| output := r;
                                domain_to_version_map := domain_to_version_map h |}, []));
  _ ← ORT_RETURN_IF_ERROR status;
  mret (schema_map, type_map).

(** Lines 624-672: the body of the loop over [schema_map]. *)
Definition attach_inference (type_map : gmap string (list OnnxTypeVec))
    (schema_iter : string * OpSchema) (schemas : list OpSchema) : M R (list OpSchema) :=
  match type_map !! schema_iter.1 with
  | None => λ h, (Throw "type_iter != type_map.end()", h, [])
  | Some type_vecs =>
      mret (schemas ++ [TypeAndShapeInferenceFunction type_vecs schema_iter.2])
  end.

(** Lines 405-677: the body of the loop over [op_domains]. *)
Definition register_domain (dom : OrtCustomOpDomain) (_ : unit) : M R unit :=
  _ ← add_domain_to_version (domain_ dom);
  '(schema_map, type_map) ←
    for_each (custom_ops_ dom) (register_custom_op (domain_ dom)) (∅, ∅);
  schemas ← for_each (traverse schema_map) (attach_inference type_map) [];
  status ← (λ h, let '(status, r) :=
                   RegisterOpSet schemas (domain_ dom) 1%Z 1000%Z (output h) in
                 (Ok status, {| output := r;
                                domain_to_version_map := domain_to_version_map h |}, []));
  ORT_RETURN_IF_ERROR status.

(** The result is the returned status ([Ok ()] for [Status::OK()]), the
    registry left in [output] together with the domain-to-version map, and
    the plugin calls made. *)
Definition CreateCustomRegistry (op_domains : list OrtCustomOpDomain)
    (domain_to_version : gmap string (Z * Z))
  : Outcome unit * Host R * list PluginCall :=
  for_each op_domains register_domain ()
    {| output := make_CustomRegistry; domain_to_version_map := domain_to_version |}.
End CreateCustomRegistry.

(** ** CUDA notifications (cuda_stream_handle.cc) *)

Definition cudaError_t := Z.
Definition cudaSuccess : cudaError_t := 0%Z.

(** [Stream]: the native queue handle and the type of the owning provider. *)
Record Stream := {
  handle : nat;
  provider_Type : string;
}.

Record CudaNotification := {
  stream : Stream;
  ready_ : bool;
  event_ : nat;
}.

(** The constructor: [ready_{}] value-initializes the flag to [false];
    [created] is what [cudaEventCreateWithFlags] returns and the event it
    stores.  [CUDA_CALL_THROW] throws on any result but [cudaSuccess]. *)
Definition CudaNotification_new (s : Stream) (created : cudaError_t * nat)
  : Outcome CudaNotification :=
  if decide (created.1 = cudaSuccess)
  then Ok {| stream := s; ready_ := false; event_ := created.2 |}
  else Throw "cudaEventCreateWithFlags".

(** [CudaStream::CreateNotification] *)
Definition CreateNotification (this : Stream) (created : cudaError_t * nat)
  : Outcome CudaNotification :=
  CudaNotification_new this created.

(** What a host thread does to the notification and to the CUDA runtime. *)
Inductive Action :=
| cudaEventRecord (event stream_handle : nat) (result : cudaError_t)
| ready_store (desired : bool)
| ready_load (value : bool)
| SpinPause
| cudaStreamWaitEvent (stream_handle event : nat) (result : cudaError_t)
| cudaEventSynchronize (event : nat) (result : cudaError_t).

Global Instance Action_eq_dec : EqDecision Action.
Proof. solve_decision. Defined.

(** Control points of the three member functions, one per statement. *)
Inductive Activate_pc :=
| Activate_record
| Activate_store
| Activate_returned
| Activate_thrown.

Inductive wait_on_device_pc :=
| wait_on_device_enforce
| wait_on_device_load
| wait_on_device_pause
| wait_on_device_wait_event
| wait_on_device_returned
| wait_on_device_thrown.

Inductive wait_on_host_pc :=
| wait_on_host_load
| wait_on_host_pause
| wait_on_host_synchronize
| wait_on_host_returned
| wait_on_host_thrown.

(** A host thread is inside one call on the notification. *)
Inductive Thread :=
| In_Activate (pc : Activate_pc)
| In_wait_on_device (device_stream : Stream) (pc : wait_on_device_pc)
| In_wait_on_host (pc : wait_on_host_pc).

(** The member function a thread is about to call. *)
Inductive MemberCall :=
| Call_Activate
| Call_wait_on_device (device_stream : Stream)
| Call_wait_on_host.

Definition enter (c : MemberCall) : Thread :=
  match c with
  | Call_Activate => In_Activate Activate_record
  | Call_wait_on_device device_stream => In_wait_on_device device_stream wait_on_device_enforce
  | Call_wait_on_host => In_wait_on_host wait_on_host_load
  end.

(** The notification, the threads calling into it, and the actions performed
    so far, oldest first, each with the index of its thread. *)
Record System := {
  notification : CudaNotification;
  threads : list Thread;
  history : list (nat * Action);
}.

Definition start (n : CudaNotification) (calls : list MemberCall) : System :=
  {| notification := n; threads := enter <$> calls; history := [] |}.

Definition set_ready (n : CudaNotification) (b : bool) : CudaNotification :=
  {| stream := stream n; ready_ := b; event_ := event_ n |}.

(** One statement of [Activate] (lines 747-752). *)
Definition step_Activate (n : CudaNotification) (result : cudaError_t) (pc : Activate_pc)
  : CudaNotification * Activate_pc * list Action :=
  match pc with
  | Activate_record =>
      (n,
       if decide (result = cudaSuccess) then Activate_store else Activate_thrown,
       [cudaEventRecord (event_ n) (handle (stream n)) result])
  | Activate_store => (set_ready n true, Activate_returned, [ready_store true])
  | Activate_returned => (n, Activate_returned, [])
  | Activate_thrown => (n, Activate_thrown, [])
  end.

(** One statement of [wait_on_device] (lines 754-763). *)
Definition step_wait_on_device (n : CudaNotification) (device_stream : Stream)
    (result : cudaError_t) (pc : wait_on_device_pc)
  : CudaNotification * wait_on_device_pc * list Action :=
  match pc with
  | wait_on_device_enforce =>
      (n,
       if decide (provider_Type device_stream = kCudaExecutionProvider)
       then wait_on_device_load else wait_on_device_thrown,
       [])
  | wait_on_device_load =>
      (n,
       if ready_ n then wait_on_device_wait_event else wait_on_device_pause,
       [ready_load (ready_ n)])
  | wait_on_device_pause => (n, wait_on_device_load, [SpinPause])
  | wait_on_device_wait_event =>
      (n,
       if decide (result = cudaSuccess) then wait_on_device_returned
       else wait_on_device_thrown,
       [cudaStreamWaitEvent (handle device_stream) (event_ n) result])
  | wait_on_device_returned => (n, wait_on_device_returned, [])
  | wait_on_device_thrown => (n, wait_on_device_thrown, [])
  end.

(** One statement of [wait_on_host] (lines 765-773). *)
Definition step_wait_on_host (n : CudaNotification) (result : cudaError_t)
    (pc : wait_on_host_pc) : CudaNotification * wait_on_host_pc * list Action :=
  match pc with
  | wait_on_host_load =>
      (n,
       if ready_ n then wait_on_host_synchronize else wait_on_host_pause,
       [ready_load (ready_ n)])
  | wait_on_host_pause => (n, wait_on_host_load, [SpinPause])
  | wait_on_host_synchronize =>
      (n,
       if decide (result = cudaSuccess) then wait_on_host_returned
       else wait_on_host_thrown,
       [cudaEventSynchronize (event_ n) result])
  | wait_on_host_returned => (n, wait_on_host_returned, [])
  | wait_on_host_thrown => (n, wait_on_host_thrown, [])
  end.

Definition step_thread (n : CudaNotification) (result : cudaError_t) (th : Thread)
  : CudaNotification * Thread * list Action :=
  match th with
  | In_Activate pc =>
      let '(n', pc', acts) := step_Activate n result pc in (n', In_Activate pc', acts)
  | In_wait_on_device device_stream pc =>
      let '(n', pc', acts) := step_wait_on_device n device_stream result pc in
      (n', In_wait_on_device device_stream pc', acts)
  | In_wait_on_host pc =>
      let '(n', pc', acts) := step_wait_on_host n result pc in (n', In_wait_on_host pc', acts)
  end.

(** Thread [tid] executes its next statement; [result] is what the CUDA call
    of that statement (if any) returns.  Accesses to [ready_] are sequentially
    consistent atomics, so statements interleave. *)
Definition step (s : System) (choice : nat * cudaError_t) : System :=
  let '(tid, result) := choice in
  match threads s !! tid with
  | None => s
  | Some th =>
      let '(n', th', acts) := step_thread (notification s) result th in
      {| notification := n';
         threads := <[tid := th']> (threads s);
         history := history s ++ ((λ a, (tid, a)) <$> acts) |}
  end.

(** A schedule lists which thread runs next, with the CUDA result it gets. *)
Definition run (s : System) (schedule : list (nat * cudaError_t)) : System :=
  foldl step s schedule.

(** ** A list-backed registry *)

Global Instance TypeSet_eq_dec : EqDecision TypeSet.
Proof. solve_decision. Defined.

(** Modelled from the spec: [CustomRegistry::RegisterCustomKernel] and
    [CustomRegistry::RegisterOpSet] (customregistry.h, not part of these
    sources).  Registration of a kernel fails when a kernel with identical
    name, domain, version, provider and type binding is already present;
    registering an operator set records it. *)
Record ListRegistry := {
  kernels : list KernelCreateInfo;
  opsets : list (list OpSchema * string * Z * Z);
}.

Definition same_identity (a b : KernelDef) : bool :=
  bool_decide (kernel_name a = kernel_name b
               ∧ kernel_domain a = kernel_domain b
               ∧ kernel_since_version a = kernel_since_version b
               ∧ provider_type a = provider_type b
               ∧ kernel_type_constraints a = kernel_type_constraints b).

Global Instance ListRegistry_ops : CustomRegistryOps ListRegistry := {|
  make_CustomRegistry := {| kernels := []; opsets := [] |};
  RegisterCustomKernel create_info r :=
    if existsb (λ k, same_identity (kernel_def k) (kernel_def create_info)) (kernels r)
    then (MakeStatus FAIL "Failed to add kernel: conflicting with a registered kernel", r)
    else (Status_OK, {| kernels := kernels r ++ [create_info]; opsets := opsets r |});
  RegisterOpSet schemas d baseline_opset_version opset_version r :=
    (Status_OK, {| kernels := kernels r;
                   opsets := opsets r
                             ++ [(schemas, d, baseline_opset_version, opset_version)] |});
|}.

(** ** Specification predicates *)

(** The two-phase contract of an array accessor [query] whose attribute
    holds [values]: a null buffer reports the element count; a buffer
    announced as too small yields the error, the count, and is left as it
    was; a buffer that is large enough receives the elements. *)
Definition two_phase_query {T OrtStatusPtr : Type} (ToOrtStatus : Status -> OrtStatusPtr)
    (query : option (list T) -> nat -> OrtStatusPtr * option (list T) * nat)
    (values : list T) : Prop :=
  (∀ size, query None size = (ToOrtStatus Status_OK, None, length values))
  ∧ (∀ buf size, size < length values →
       query (Some buf) size =
         (ToOrtStatus (MakeStatus INVALID_ARGUMENT "Result buffer is not large enough"),
          Some buf, length values))
  ∧ (∀ buf size, length values <= size → size <= length buf →
       ∃ buf', query (Some buf) size = (ToOrtStatus Status_OK, Some buf', length values)
               ∧ take (length values) buf' = values
               ∧ drop (length values) buf' = drop (length values) buf
               ∧ length buf' = length buf).

(** The option recorded for a formal parameter whose characteristic is [c],
    by a descriptor of version [v] (lines 443-456 and 478-491). *)
Definition recorded_option (v : N) (c : OrtCustomOpInputOutputCharacteristic)
  : FormalParameterOption :=
  if decide (min_ort_version_with_optional_io_support <= v)%N then
    if decide (c = INPUT_OUTPUT_OPTIONAL) then Optional
    else if decide ((min_ort_version_with_variadic_io_support <= v)%N
                    ∧ c = INPUT_OUTPUT_VARIADIC) then Variadic
    else Single
  else Single.

(** The number of inputs below [n] whose declared type is undefined. *)
Definition count_undefined_inputs (op : OrtCustomOp) (n : nat) : nat :=
  length (filter (λ i, ONNX_TENSOR_ELEMENT_DATA_TYPE_UNDEFINED = GetInputType op i)
                 (seq 0 n)).

(** What a successfully created schema records for input [j]. *)
Definition input_recorded (op : OrtCustomOp) (input_count j : nat)
    (fp : FormalParameter) : Prop :=
  GetOption fp = recorded_option (version op) (GetInputCharacteristic op j)
  ∧ (GetOption fp = Variadic →
       j = input_count - 1
       ∧ GetIsHomogeneous fp = bool_decide (GetVariadicInputHomogeneity op ≠ 0%Z)
       ∧ GetMinArity fp = GetVariadicInputMinArity op)
  ∧ (GetOption fp ≠ Variadic → GetIsHomogeneous fp = true ∧ GetMinArity fp = 1%Z)
  ∧ GetTypeStr fp =
      (if decide (ONNX_TENSOR_ELEMENT_DATA_TYPE_UNDEFINED = GetInputType op j)
       then "T" +:+ to_string (count_undefined_inputs op j)
       else "Input" +:+ to_string j).

(** What a successfully created schema records for output [j], [undefined]
    being the number of undefined input types of the descriptor. *)
Definition output_recorded (op : OrtCustomOp) (output_count undefined j : nat)
    (fp : FormalParameter) : Prop :=
  GetOption fp = recorded_option (version op) (GetOutputCharacteristic op j)
  ∧ (GetOption fp = Variadic →
       j = output_count - 1
       ∧ GetIsHomogeneous fp = bool_decide (GetVariadicOutputHomogeneity op ≠ 0%Z)
       ∧ GetMinArity fp = GetVariadicOutputMinArity op)
  ∧ (GetOption fp ≠ Variadic → GetIsHomogeneous fp = true ∧ GetMinArity fp = 1%Z)
  ∧ (ONNX_TENSOR_ELEMENT_DATA_TYPE_UNDEFINED = GetOutputType op j →
       GetTypeStr fp = "T0"
       ∧ (GetOutputCharacteristic op j = INPUT_OUTPUT_REQUIRED → undefined = 1))
  ∧ (ONNX_TENSOR_ELEMENT_DATA_TYPE_UNDEFINED ≠ GetOutputType op j →
       GetTypeStr fp = "Output" +:+ to_string j).

(** The outcome is a success, or one of the listed exceptions; never a
    [Return]. *)
Definition throws_only {A} (msgs : list string) (w : W A) : Prop :=
  match w.1 with
  | Ok _ => True
  | Return _ => False
  | Throw e => e ∈ msgs
  end.

(** The option a characteristic stands for in the consistency check. *)
Definition expected_option (c : OrtCustomOpInputOutputCharacteristic)
  : FormalParameterOption :=
  match c with
  | INPUT_OUTPUT_REQUIRED => Single
  | INPUT_OUTPUT_OPTIONAL => Optional
  | INPUT_OUTPUT_VARIADIC => Variadic
  end.

(** What the consistency check compares a formal parameter of the existing
    schema with: the option of the new descriptor's characteristic, the
    homogeneity it reports for variadic OUTPUTS, and the minimum arity it
    reports for variadic INPUTS, for inputs and outputs alike. *)
Definition checked_against (op : OrtCustomOp)
    (characteristic : OrtCustomOpInputOutputCharacteristic) (fp : FormalParameter) : Prop :=
  GetOption fp = expected_option characteristic
  ∧ GetIsHomogeneous fp = bool_decide (GetVariadicOutputHomogeneity op ≠ 0%Z)
  ∧ GetMinArity fp = GetVariadicInputMinArity op.

(** The outcome is a success or a [Return] of a FAIL status; never an
    exception. *)
Definition returns_FAIL_only {A} (w : W A) : Prop :=
  match w.1 with
  | Ok _ => True
  | Return status => ∃ msg, status = MakeStatus FAIL msg
  | Throw _ => False
  end.

(** The messages of the two enforcements on variadic parameters. *)
Definition input_variadic_msg : string :=
  "Only the last input to a custom op may be marked variadic.".
Definition output_variadic_msg : string :=
  "Only the last output to a custom op may be marked variadic.".

(** The schema of a successful [create_schema]; the empty schema otherwise. *)
Definition create_schema_result (domain_ : string) (op : OrtCustomOp) : OpSchema :=
  match (create_schema domain_ op (GetInputTypeCount op) (GetOutputTypeCount op)).1 with
  | Ok (schema, _) => schema
  | _ => OpSchema_new "" "" 0
  end.

(** ** The inference rule in the words of the specification *)

(** A binding is checked against the supplied input types position by
    position: its entry is the wildcard or equals the supplied type, and all
    wildcard positions see one type.  [resolved] is the type the wildcards
    seen so far resolved to.  The result is the type the wildcards of the
    binding resolve to, if the binding matches. *)
Fixpoint resolve_wildcards (binding input_types : OnnxTypeVec)
    (resolved : option ONNXTensorElementDataType) {struct input_types}
  : option (option ONNXTensorElementDataType) :=
  match input_types, binding with
  | [], _ => Some resolved
  | _ :: _, [] => None
  | supplied :: input_types', entry :: binding' =>
      if decide (entry = ONNX_TENSOR_ELEMENT_DATA_TYPE_UNDEFINED) then
        match resolved with
        | None => resolve_wildcards binding' input_types' (Some supplied)
        | Some t =>
            if decide (t = supplied)
            then resolve_wildcards binding' input_types' resolved
            else None
        end
      else if decide (entry = supplied)
      then resolve_wildcards binding' input_types' resolved
      else None
  end.

(** The output types a matching binding propagates. *)
Definition propagate (binding : OnnxTypeVec) (num_inputs : nat)
    (resolved : option ONNXTensorElementDataType) : OnnxTypeVec :=
  (λ entry, if decide (entry = ONNX_TENSOR_ELEMENT_DATA_TYPE_UNDEFINED)
            then default ONNX_TENSOR_ELEMENT_DATA_TYPE_UNDEFINED resolved
            else entry) <$> drop num_inputs binding.

(** [Infer]: the bindings are scanned in order and the first match decides;
    [None] is NoMatch. *)
Fixpoint Infer (bindings : list OnnxTypeVec) (input_types : OnnxTypeVec)
    (num_outputs : nat) : option OnnxTypeVec :=
  match bindings with
  | [] => None
  | binding :: bindings' =>
      if decide (length binding = length input_types + num_outputs) then
        match resolve_wildcards binding input_types None with
        | Some resolved => Some (propagate binding (length input_types) resolved)
        | None => Infer bindings' input_types num_outputs
        end
      else Infer bindings' input_types num_outputs
  end.

(** All wildcard input positions of [binding] are supplied the same type. *)
Definition wildcards_agree (input_types binding : OnnxTypeVec) : Prop :=
  ∀ i j ti tj,
    binding !! i = Some ONNX_TENSOR_ELEMENT_DATA_TYPE_UNDEFINED →
    binding !! j = Some ONNX_TENSOR_ELEMENT_DATA_TYPE_UNDEFINED →
    input_types !! i = Some ti → input_types !! j = Some tj → ti = tj.


(** The state of the code's loop and of the specification's scan after the
    same positions. *)
Definition related (type_vec input_types : OnnxTypeVec) (i : nat)
    (undef : ONNXTensorElementDataType)
    (resolved : option ONNXTensorElementDataType) : Prop :=
  match resolved with
  | None => undef = ONNX_TENSOR_ELEMENT_DATA_TYPE_UNDEFINED
  | Some t =>
      undef = t
      ∧ ∃ j, j < i
             ∧ type_vec !! j = Some ONNX_TENSOR_ELEMENT_DATA_TYPE_UNDEFINED
             ∧ input_types !! j = Some t
  end.

(** ** Example descriptors *)

Global Instance Characteristic_inhabited : Inhabited OrtCustomOpInputOutputCharacteristic :=
  populate INPUT_OUTPUT_REQUIRED.

(** A descriptor given by its version, its name, the type and characteristic
    of each input and output, and the homogeneity it reports for variadic
    inputs and outputs.  It names no provider, reports minimum arity 1 and
    default memory types. *)
Definition descriptor (v : N) (name : string)
    (ins outs : list (ONNXTensorElementDataType * OrtCustomOpInputOutputCharacteristic))
    (input_homogeneity output_homogeneity : Z) : OrtCustomOp :=
  {| version := v; GetName := name; GetExecutionProviderType := None;
     GetInputTypeCount := length ins; GetInputType := λ i, (ins !!! i).1;
     GetOutputTypeCount := length outs; GetOutputType := λ i, (outs !!! i).1;
     GetInputCharacteristic := λ i, (ins !!! i).2;
     GetOutputCharacteristic := λ i, (outs !!! i).2;
     GetInputMemoryType := λ _, OrtMemTypeDefault;
     GetVariadicInputMinArity := 1; GetVariadicInputHomogeneity := input_homogeneity;
     GetVariadicOutputMinArity := 1; GetVariadicOutputHomogeneity := output_homogeneity;
     CreateKernel := λ _, 0 |}.

(** Version 13, two inputs, the first one marked variadic. *)
Definition variadic_first_v13 : OrtCustomOp :=
  descriptor 13 "Concat"
    [(ONNX_TENSOR_ELEMENT_DATA_TYPE_FLOAT, INPUT_OUTPUT_VARIADIC);
     (ONNX_TENSOR_ELEMENT_DATA_TYPE_FLOAT, INPUT_OUTPUT_REQUIRED)]
    [(ONNX_TENSOR_ELEMENT_DATA_TYPE_FLOAT, INPUT_OUTPUT_REQUIRED)] 1 1.

(** The same descriptor, declaring version 14. *)
Definition variadic_first_v14 : OrtCustomOp :=
  descriptor 14 "Concat"
    [(ONNX_TENSOR_ELEMENT_DATA_TYPE_FLOAT, INPUT_OUTPUT_VARIADIC);
     (ONNX_TENSOR_ELEMENT_DATA_TYPE_FLOAT, INPUT_OUTPUT_REQUIRED)]
    [(ONNX_TENSOR_ELEMENT_DATA_TYPE_FLOAT, INPUT_OUTPUT_REQUIRED)] 1 1.

(** One templated input and one templated, required output. *)
Definition identity_v16 : OrtCustomOp :=
  descriptor 16 "Identity"
    [(ONNX_TENSOR_ELEMENT_DATA_TYPE_UNDEFINED, INPUT_OUTPUT_REQUIRED)]
    [(ONNX_TENSOR_ELEMENT_DATA_TYPE_UNDEFINED, INPUT_OUTPUT_REQUIRED)] 1 1.

(** Two templated inputs and one templated, required output. *)
Definition pair_v16 : OrtCustomOp :=
  descriptor 16 "Pair"
    [(ONNX_TENSOR_ELEMENT_DATA_TYPE_UNDEFINED, INPUT_OUTPUT_REQUIRED);
     (ONNX_TENSOR_ELEMENT_DATA_TYPE_UNDEFINED, INPUT_OUTPUT_REQUIRED)]
    [(ONNX_TENSOR_ELEMENT_DATA_TYPE_UNDEFINED, INPUT_OUTPUT_REQUIRED)] 1 1.

(** ** Invariant of the notification protocol *)

(** The member function a thread is inside. *)
Definition member (th : Thread) : MemberCall :=
  match th with
  | In_Activate _ => Call_Activate
  | In_wait_on_device device_stream _ => Call_wait_on_device device_stream
  | In_wait_on_host _ => Call_wait_on_host
  end.

(** What must have happened, in the part [h1] of the history that precedes
    it, before thread [tid] performs action [a]. *)
Definition justified (n0 : CudaNotification) (calls : list MemberCall)
    (h1 : list (nat * Action)) (tid : nat) (a : Action) : Prop :=
  match a with
  | cudaEventRecord ev sh _ =>
      calls !! tid = Some Call_Activate ∧ ev = event_ n0 ∧ sh = handle (stream n0)
  | ready_store b =>
      b = true ∧ calls !! tid = Some Call_Activate
      ∧ (tid, cudaEventRecord (event_ n0) (handle (stream n0)) cudaSuccess) ∈ h1
  | ready_load b =>
      b = true →
      ∃ tid', calls !! tid' = Some Call_Activate ∧ (tid', ready_store true) ∈ h1
  | SpinPause => (tid, ready_load false) ∈ h1
  | cudaStreamWaitEvent sh ev _ =>
      ∃ device_stream,
        calls !! tid = Some (Call_wait_on_device device_stream)
        ∧ provider_Type device_stream = kCudaExecutionProvider
        ∧ sh = handle device_stream ∧ ev = event_ n0
        ∧ (tid, ready_load true) ∈ h1
  | cudaEventSynchronize ev _ =>
      calls !! tid = Some Call_wait_on_host ∧ ev = event_ n0
      ∧ (tid, ready_load true) ∈ h1
  end.

(** What a thread at a given control point has already done. *)
Definition thread_ok (n0 : CudaNotification) (h : list (nat * Action))
    (tid : nat) (th : Thread) : Prop :=
  match th with
  | In_Activate Activate_record => True
  | In_Activate Activate_store =>
      (tid, cudaEventRecord (event_ n0) (handle (stream n0)) cudaSuccess) ∈ h
  | In_Activate Activate_returned => (tid, ready_store true) ∈ h
  | In_Activate Activate_thrown => True
  | In_wait_on_device device_stream pc =>
      match pc with
      | wait_on_device_enforce | wait_on_device_thrown => True
      | wait_on_device_load => provider_Type device_stream = kCudaExecutionProvider
      | wait_on_device_pause =>
          provider_Type device_stream = kCudaExecutionProvider
          ∧ (tid, ready_load false) ∈ h
      | wait_on_device_wait_event =>
          provider_Type device_stream = kCudaExecutionProvider
          ∧ (tid, ready_load true) ∈ h
      | wait_on_device_returned =>
          (tid, cudaStreamWaitEvent (handle device_stream) (event_ n0) cudaSuccess) ∈ h
      end
  | In_wait_on_host pc =>
      match pc with
      | wait_on_host_load | wait_on_host_thrown => True
      | wait_on_host_pause => (tid, ready_load false) ∈ h
      | wait_on_host_synchronize => (tid, ready_load true) ∈ h
      | wait_on_host_returned => (tid, cudaEventSynchronize (event_ n0) cudaSuccess) ∈ h
      end
  end.

Record invariant (n0 : CudaNotification) (calls : list MemberCall) (s : System) : Prop := {
  inv_stream : stream (notification s) = stream n0;
  inv_event : event_ (notification s) = event_ n0;
  inv_members : member <$> threads s = calls;
  inv_ready_stored :
    ready_ (notification s) = true ↔
    ∃ tid, calls !! tid = Some Call_Activate ∧ (tid, ready_store true) ∈ history s;
  inv_threads :
    ∀ tid th, threads s !! tid = Some th →
              thread_ok n0 (history s) tid th;
  inv_history :
    ∀ h1 tid a h2, history s = h1 ++ (tid, a) :: h2 → justified n0 calls h1 tid a;
}.

(** A notification on a CUDA stream, and a CUDA stream that waits for it. *)
Definition producer_stream : Stream :=
  {| handle := 1; provider_Type := kCudaExecutionProvider |}.
Definition consumer_stream : Stream :=
  {| handle := 2; provider_Type := kCudaExecutionProvider |}.
Definition fresh_notification : CudaNotification :=
  {| stream := producer_stream; ready_ := false; event_ := 7 |}.

(** Thread 1 enters [wait_on_device], finds the flag false and pauses; thread
    0 then runs [Activate] to its end. *)
Definition wait_then_activate : list (nat * cudaError_t) :=
  [(1, cudaSuccess); (1, cudaSuccess); (1, cudaSuccess);
   (0, cudaSuccess); (0, cudaSuccess)].

(** Two version-16 descriptors named "Foo", each with one variadic input;
    the first reports homogeneous variadic inputs, the second heterogeneous
    ones.  Both report homogeneous variadic outputs and minimum arity 1. *)
Definition variadic_homogeneous : OrtCustomOp :=
  descriptor 16 "Foo"
    [(ONNX_TENSOR_ELEMENT_DATA_TYPE_FLOAT, INPUT_OUTPUT_VARIADIC)]
    [(ONNX_TENSOR_ELEMENT_DATA_TYPE_FLOAT, INPUT_OUTPUT_REQUIRED)] 1 1.
Definition variadic_heterogeneous : OrtCustomOp :=
  descriptor 16 "Foo"
    [(ONNX_TENSOR_ELEMENT_DATA_TYPE_INT64, INPUT_OUTPUT_VARIADIC)]
    [(ONNX_TENSOR_ELEMENT_DATA_TYPE_INT64, INPUT_OUTPUT_REQUIRED)] 0 1.
Definition variadic_domain : OrtCustomOpDomain :=
  {| domain_ := "test"; custom_ops_ := [variadic_homogeneous; variadic_heterogeneous] |}.

(** A version-7 descriptor with a templated input and a templated output. *)
Definition legacy_templated : OrtCustomOp :=
  descriptor 7 "Legacy"
    [(ONNX_TENSOR_ELEMENT_DATA_TYPE_UNDEFINED, INPUT_OUTPUT_REQUIRED)]
    [(ONNX_TENSOR_ELEMENT_DATA_TYPE_UNDEFINED, INPUT_OUTPUT_REQUIRED)] 1 1.
Definition legacy_templated_domain : OrtCustomOpDomain :=
  {| domain_ := "test"; custom_ops_ := [legacy_templated] |}.

(** Two version-7 descriptors named "Old", for float and for int64. *)
Definition legacy_float : OrtCustomOp :=
  descriptor 7 "Old"
    [(ONNX_TENSOR_ELEMENT_DATA_TYPE_FLOAT, INPUT_OUTPUT_REQUIRED)]
    [(ONNX_TENSOR_ELEMENT_DATA_TYPE_FLOAT, INPUT_OUTPUT_REQUIRED)] 1 1.
Definition legacy_int64 : OrtCustomOp :=
  descriptor 7 "Old"
    [(ONNX_TENSOR_ELEMENT_DATA_TYPE_INT64, INPUT_OUTPUT_REQUIRED)]
    [(ONNX_TENSOR_ELEMENT_DATA_TYPE_INT64, INPUT_OUTPUT_REQUIRED)] 1 1.
Definition legacy_pair_domain : OrtCustomOpDomain :=
  {| domain_ := "test"; custom_ops_ := [legacy_float; legacy_int64] |}.

(** A version-16 descriptor with two templated inputs and a templated,
    optional output. *)
Definition select_v16 : OrtCustomOp :=
  descriptor 16 "Select"
    [(ONNX_TENSOR_ELEMENT_DATA_TYPE_UNDEFINED, INPUT_OUTPUT_REQUIRED);
     (ONNX_TENSOR_ELEMENT_DATA_TYPE_UNDEFINED, INPUT_OUTPUT_REQUIRED)]
    [(ONNX_TENSOR_ELEMENT_DATA_TYPE_UNDEFINED, INPUT_OUTPUT_OPTIONAL)] 1 1.
Definition select_domain : OrtCustomOpDomain :=
  {| domain_ := "test"; custom_ops_ := [select_v16] |}.

(** The two descriptors of the "Foo" example: (float, float) -> float and
    (int64, int64) -> int64. *)
Definition foo_float : OrtCustomOp :=
  descriptor 16 "Foo"
    [(ONNX_TENSOR_ELEMENT_DATA_TYPE_FLOAT, INPUT_OUTPUT_REQUIRED);
     (ONNX_TENSOR_ELEMENT_DATA_TYPE_FLOAT, INPUT_OUTPUT_REQUIRED)]
    [(ONNX_TENSOR_ELEMENT_DATA_TYPE_FLOAT, INPUT_OUTPUT_REQUIRED)] 1 1.
Definition foo_int64 : OrtCustomOp :=
  descriptor 16 "Foo"
    [(ONNX_TENSOR_ELEMENT_DATA_TYPE_INT64, INPUT_OUTPUT_REQUIRED);
     (ONNX_TENSOR_ELEMENT_DATA_TYPE_INT64, INPUT_OUTPUT_REQUIRED)]
    [(ONNX_TENSOR_ELEMENT_DATA_TYPE_INT64, INPUT_OUTPUT_REQUIRED)] 1 1.
Definition foo_domain : OrtCustomOpDomain :=
  {| domain_ := "test"; custom_ops_ := [foo_float; foo_int64] |}.

(** Two version-16 descriptors named "Bar": the first marks its input
    optional, the second marks it required. *)
Definition optional_input : OrtCustomOp :=
  descriptor 16 "Bar"
    [(ONNX_TENSOR_ELEMENT_DATA_TYPE_FLOAT, INPUT_OUTPUT_OPTIONAL)]
    [(ONNX_TENSOR_ELEMENT_DATA_TYPE_FLOAT, INPUT_OUTPUT_REQUIRED)] 1 1.
Definition required_input : OrtCustomOp :=
  descriptor 16 "Bar"
    [(ONNX_TENSOR_ELEMENT_DATA_TYPE_INT64, INPUT_OUTPUT_REQUIRED)]
    [(ONNX_TENSOR_ELEMENT_DATA_TYPE_INT64, INPUT_OUTPUT_REQUIRED)] 1 1.
Definition option_domain : OrtCustomOpDomain :=
  {| domain_ := "test"; custom_ops_ := [optional_input; required_input] |}.

(** The schemas handed to [RegisterOpSet] when the domain is registered into
    an empty list-backed registry. *)
Definition registered_schemas (dom : OrtCustomOpDomain) : list OpSchema :=
  match opsets (output (CreateCustomRegistry (R := ListRegistry) (order := key_order)
                          [dom] ∅).1.2) with
  | (schemas, _, _, _) :: _ => schemas
  | [] => []
  end.

(** A node with the given input element types and one output of unset type. *)
Definition node_types (input_types : OnnxTypeVec) : InferenceContext :=
  {| getInputType := Some <$> input_types; getOutputType := [None] |}.

(** ** String attributes (custom_ops.cc, lines 71-91) *)

Global Instance byte_eq_decision : EqDecision byte := Byte.byte_eq_dec.

(** The error codes of the C API this file passes to [OrtApis::CreateStatus]. *)
Inductive OrtErrorCode := ORT_INVALID_ARGUMENT | ORT_INVALID_GRAPH.

Section KernelInfoStringAttribute.
(** [OpKernelInfo::GetAttr<std::string>], [ToOrtStatus] and
    [OrtApis::CreateStatus] are declared outside this file.  An [OrtStatus*]
    is [None] for [nullptr] and otherwise points to a status object. *)
Variables (OpKernelInfo OrtStatus : Type).
Variable ToOrtStatus : Status -> option OrtStatus.
Variable CreateStatus : OrtErrorCode -> string -> option OrtStatus.
Variable GetAttr_string : OpKernelInfo -> string -> Status * list byte.

(** [out = None] is the null pointer; the result is the returned status, the
    buffer afterwards and [*size] afterwards.  The terminating zero is
    written right behind the copied characters. *)
Definition KernelInfoGetAttribute_string
    (info : OpKernelInfo) (name : string) (out : option (list byte)) (size : nat)
  : option OrtStatus * option (list byte) * nat :=
  let '(status, value) := GetAttr_string info name in
  if IsOK status then
    match out with
    | None => (None, None, length value + 1)
    | Some buf =>
        if decide (length value + 1 <= size) then
          (None,
           Some (<[length value := x00]> (memcpy buf value (length value))),
           length value + 1)
        else
          (CreateStatus ORT_INVALID_ARGUMENT "Result buffer is not large enough",
           Some buf, length value + 1)
    end
  else (ToOrtStatus status, out, size).
End KernelInfoStringAttribute.

(** ** Managed strings (NativeOnnxValueHelper, C#) *)

(** [while (Marshal.ReadByte(nativeUtf8, len) != 0) ++len;] over the memory
    that starts at the pointer: the number of bytes before the first zero.
    Reading past the end of the memory is a fault ([None]). *)
Fixpoint zero_terminated_length (nativeUtf8 : list byte) : option nat :=
  match nativeUtf8 with
  | [] => None
  | b :: rest =>
      if decide (b = x00) then Some 0 else S <$> zero_terminated_length rest
  end.

(** What a managed method does: it returns a value or throws. *)
Inductive Managed (A : Type) :=
| Returned (a : A)
| Thrown (exception : string).
Arguments Returned {A} a.
Arguments Thrown {A} exception.

Section NativeOnnxValueHelper.
(** The managed [string] type and [UTF8Encoding.UTF8] belong to the .NET
    runtime.  [GetBytes s] is the sequence of bytes that
    [UTF8.GetBytes(s, 0, s.Length, buffer, 0)] produces; the call copies it
    to the start of the buffer and returns its length, and throws an
    [ArgumentException] when the buffer cannot hold it. *)
Variable ManagedString : Type.
Variable GetByteCount : ManagedString -> nat.
Variable GetBytes : ManagedString -> list byte.
Variable GetString : list byte -> ManagedString.

Definition StringToZeroTerminatedUtf8 (s : ManagedString) : Managed (list byte) :=
  let arraySize := GetByteCount s in
  let utf8Bytes := replicate (arraySize + 1) x00 in
  if decide (length (GetBytes s) <= length utf8Bytes) then
    let written := length (GetBytes s) in
    let utf8Bytes := memcpy utf8Bytes (GetBytes s) written in
    if decide (arraySize ≠ written) then Thrown "Failed to convert to UTF8"
    else Returned (<[length utf8Bytes - 1 := x00]> utf8Bytes)
  else Thrown "ArgumentException".

(** [None]: the loop read past the memory. *)
Definition StringFromNativeUtf8 (nativeUtf8 : list byte) : option ManagedString :=
  len ← zero_terminated_length nativeUtf8;
  let buffer := memcpy (replicate len x00) nativeUtf8 len in
  Some (GetString (take (length buffer) buffer)).

(** The result is [(str, utf8)]. *)
Definition StringAndUtf8FromNative (nativeUtf8 : list byte)
  : option (ManagedString * list byte) :=
  len ← zero_terminated_length nativeUtf8;
  let utf8 := replicate (len + 1) x00 in
  let utf8 := memcpy utf8 nativeUtf8 len in
  let utf8 := <[len := x00]> utf8 in
  Some (GetString (take len utf8), utf8).

(** [ConvertNamesToUtf8], the loop from index [i] on: [result[i]] receives
    the pointer to the pinned array (the array itself here, [None] being the
    zero [IntPtr] the array of pointers is created with), and the pinned
    array is added to [cleanupList].  The list is mutated one element at a
    time, so an exception leaves the arrays pinned so far in it: the second
    component is [cleanupList] afterwards. *)
Fixpoint ConvertNamesToUtf8_from {T : Type} (names : list T)
    (extractor : T -> ManagedString) (i : nat)
    (result : list (option (list byte))) (cleanupList : list (list byte))
  : Managed (list (option (list byte))) * list (list byte) :=
  match names with
  | [] => (Returned result, cleanupList)
  | n :: names' =>
      let name := extractor n in
      match StringToZeroTerminatedUtf8 name with
      | Returned utf8Name =>
          ConvertNamesToUtf8_from names' extractor (S i)
            (<[i := Some utf8Name]> result) (cleanupList ++ [utf8Name])
      | Thrown e => (Thrown e, cleanupList)
      end
  end.

Definition ConvertNamesToUtf8 {T : Type} (names : list T)
    (extractor : T -> ManagedString) (cleanupList : list (list byte))
  : Managed (list (option (list byte))) * list (list byte) :=
  ConvertNamesToUtf8_from names extractor 0 (replicate (length names) None) cleanupList.
End NativeOnnxValueHelper.

(** ** Type strings of a schema *)

(** The position of the first input whose declared type is undefined is [i]. *)
Definition first_undefined_input (op : OrtCustomOp) (i : nat) : Prop :=
  ONNX_TENSOR_ELEMENT_DATA_TYPE_UNDEFINED = GetInputType op i
  ∧ ∀ i', i' < i → ONNX_TENSOR_ELEMENT_DATA_TYPE_UNDEFINED ≠ GetInputType op i'.

(** A version-16 descriptor with a heterogeneous variadic input, which is
    recorded as such, and a required output. *)
Definition gather_v16 : OrtCustomOp :=
  descriptor 16 "Gather"
    [(ONNX_TENSOR_ELEMENT_DATA_TYPE_FLOAT, INPUT_OUTPUT_VARIADIC)]
    [(ONNX_TENSOR_ELEMENT_DATA_TYPE_FLOAT, INPUT_OUTPUT_REQUIRED)] 0 0.

(** ** What a descriptor contributes to the registration *)

(** The types a descriptor declares, inputs first: its type binding. *)
Definition declared_types (op : OrtCustomOp) : OnnxTypeVec :=
  (GetInputType op <$> seq 0 (GetInputTypeCount op))
  ++ (GetOutputType op <$> seq 0 (GetOutputTypeCount op)).

(** The constraints "T0", "T1", ... on all tensor types. *)
Definition template_constraints (undefined : nat) : list (string * TypeSet) :=
  (λ i, ("T" +:+ to_string i, AllTensorTypes)) <$> seq 0 undefined.

(** The constraints on the positions below [n] whose type is defined. *)
Definition concrete_constraints (prefix : string)
    (type_of : nat → ONNXTensorElementDataType) (n : nat) : list (string * TypeSet) :=
  omap (λ i, if decide (ONNX_TENSOR_ELEMENT_DATA_TYPE_UNDEFINED ≠ type_of i)
             then Some (prefix +:+ to_string i, TensorTypeFromONNXEnum (type_of i))
             else None)
       (seq 0 n).

(** The kernel definition of a descriptor, given the value of the counter
    [undefined] when the definition is built. *)
Definition expected_kernel_def (domain_ : string) (op : OrtCustomOp) (undefined : nat)
  : KernelDef :=
  {| kernel_name := GetName op;
     kernel_domain := domain_;
     kernel_since_version := 1;
     input_memory_types :=
       if decide (12 < version op)%N
       then (λ i, (i, GetInputMemoryType op i)) <$> seq 0 (GetInputTypeCount op)
       else [];
     kernel_type_constraints :=
       template_constraints undefined
       ++ concrete_constraints "Input" (GetInputType op) (GetInputTypeCount op)
       ++ concrete_constraints "Output" (GetOutputType op) (GetOutputTypeCount op);
     provider_type := default kCpuExecutionProvider (GetExecutionProviderType op) |}.

(** The plugin calls made while the kernel definition is built. *)
Definition kernel_def_calls (op : OrtCustomOp) : list PluginCall :=
  [Call_GetName; Call_GetName]
  ++ (if decide (12 < version op)%N
      then Call_GetInputMemoryType <$> seq 0 (GetInputTypeCount op) else [])
  ++ mjoin ((λ i, [Call_GetInputType i; Call_GetName]) <$> seq 0 (GetInputTypeCount op))
  ++ mjoin ((λ i, [Call_GetOutputType i; Call_GetName]) <$> seq 0 (GetOutputTypeCount op))
  ++ [Call_GetExecutionProviderType].

(** Two version-16 descriptors named "Cast" with a templated input: the
    second one is checked against the schema of the first. *)
Definition cast_to_float : OrtCustomOp :=
  descriptor 16 "Cast"
    [(ONNX_TENSOR_ELEMENT_DATA_TYPE_UNDEFINED, INPUT_OUTPUT_REQUIRED)]
    [(ONNX_TENSOR_ELEMENT_DATA_TYPE_FLOAT, INPUT_OUTPUT_REQUIRED)] 1 1.
Definition cast_to_int64 : OrtCustomOp :=
  descriptor 16 "Cast"
    [(ONNX_TENSOR_ELEMENT_DATA_TYPE_UNDEFINED, INPUT_OUTPUT_REQUIRED)]
    [(ONNX_TENSOR_ELEMENT_DATA_TYPE_INT64, INPUT_OUTPUT_REQUIRED)] 1 1.











(** The domain-to-version map after a domain name has been seen. *)
Definition version_added (versions : gmap string (Z * Z)) (d : string)
  : gmap string (Z * Z) :=
  if decide (d = "" ∨ is_Some (versions !! d)) then versions
  else <[d := (1%Z, 1000%Z)]> versions.

(** ** The minimal build (custom_ops.cc, lines 679-722) *)

(** Lines 684-689: one iteration of the loop that counts the inputs of
    undefined type. *)
Definition count_undefined_input (op : OrtCustomOp) (i undefined : nat) : W nat :=
  type ← call (Call_GetInputType i) (GetInputType op i);
  if decide (ONNX_TENSOR_ELEMENT_DATA_TYPE_UNDEFINED = type)
  then mret (S undefined) else mret undefined.

(** Lines 682-720: the kernel of a descriptor in a build without schemas. *)
Definition build_kernel_create_info_minimal (domain_ : string) (op : OrtCustomOp)
  : W KernelCreateInfo :=
  input_count ← call Call_GetInputTypeCount (GetInputTypeCount op);
  undefined ← for_range 0 input_count (count_undefined_input op) 0;
  name ← call Call_GetName (GetName op);
  let def_builder :=
    KernelDefBuilder.SinceVersion 1
      (KernelDefBuilder.SetDomain domain_
         (KernelDefBuilder.SetName name KernelDefBuilder.new)) in
  def_builder ←
    (if decide (12 < version op)%N then
       input_count ← call Call_GetInputTypeCount (GetInputTypeCount op);
       for_range 0 input_count (add_input_memory_type op) def_builder
     else mret def_builder);
  def_builder ← for_range 0 undefined add_template_constraint def_builder;
  provider ← call Call_GetExecutionProviderType (GetExecutionProviderType op);
  let def_builder :=
    match provider with
    | Some provider_type => KernelDefBuilder.Provider provider_type def_builder
    | None => KernelDefBuilder.Provider kCpuExecutionProvider def_builder
    end in
  mret {| kernel_def := def_builder; kernel_create_op := op |}.

Section CreateCustomRegistry_minimal.
Context {R : Type} `{!CustomRegistryOps R}.

(** Lines 681-722: the body of the loop over [domain->custom_ops_]. *)
Definition register_custom_op_minimal (d : string) (op : OrtCustomOp) (_ : unit)
  : M R unit :=
  create_info ← lift (build_kernel_create_info_minimal d op);
  status ← (λ h, let '(status, r) := RegisterCustomKernel create_info (output h) in
                 (Ok status, {| output := r;
                                domain_to_version_map := domain_to_version_map h |}, []));
  ORT_RETURN_IF_ERROR status.

Definition register_domain_minimal (dom : OrtCustomOpDomain) (_ : unit) : M R unit :=
  for_each (custom_ops_ dom) (register_custom_op_minimal (domain_ dom)) ().

(** [CreateCustomRegistry] as compiled with ORT_MINIMAL_BUILD. *)
Definition CreateCustomRegistry_minimal (op_domains : list OrtCustomOpDomain)
    (domain_to_version : gmap string (Z * Z))
  : Outcome unit * Host R * list PluginCall :=
  for_each op_domains register_domain_minimal ()
    {| output := make_CustomRegistry; domain_to_version_map := domain_to_version |}.
End CreateCustomRegistry_minimal.

(** The kernel definition of a descriptor in the minimal build. *)
Definition minimal_kernel_def (domain_ : string) (op : OrtCustomOp) : KernelDef :=
  {| kernel_name := GetName op;
     kernel_domain := domain_;
     kernel_since_version := 1;
     input_memory_types :=
       if decide (12 < version op)%N
       then (λ i, (i, GetInputMemoryType op i)) <$> seq 0 (GetInputTypeCount op)
       else [];
     kernel_type_constraints :=
       template_constraints (count_undefined_inputs op (GetInputTypeCount op));
     provider_type := default kCpuExecutionProvider (GetExecutionProviderType op) |}.

(** The plugin calls the minimal build makes for a descriptor. *)
Definition minimal_calls (op : OrtCustomOp) : list PluginCall :=
  [Call_GetInputTypeCount]
  ++ (Call_GetInputType <$> seq 0 (GetInputTypeCount op))
  ++ [Call_GetName]
  ++ (if decide (12 < version op)%N
      then Call_GetInputTypeCount
           :: (Call_GetInputMemoryType <$> seq 0 (GetInputTypeCount op))
      else [])
  ++ [Call_GetExecutionProviderType].

(** The kernels the minimal build registers for a list of domains. *)
Definition minimal_kernel_infos (op_domains : list OrtCustomOpDomain)
  : list KernelCreateInfo :=
  dom ← op_domains;
  (λ op, {| kernel_def := minimal_kernel_def (domain_ dom) op; kernel_create_op := op |})
    <$> custom_ops_ dom.

(** The registry after the kernels [infos] have been handed to it, one after
    the other, whatever it answered. *)
Definition registry_after {R : Type} `{!CustomRegistryOps R} (r : R)
    (infos : list KernelCreateInfo) : R :=
  foldl (λ r create_info, (RegisterCustomKernel create_info r).2) r infos.

(** Handing kernels to the registry until it answers with a status that is
    not OK. *)
Fixpoint register_until_error {R : Type} `{!CustomRegistryOps R}
    (infos : list KernelCreateInfo) (r : R) : Outcome unit * R :=
  match infos with
  | [] => (Ok (), r)
  | create_info :: infos' =>
      let '(status, r') := RegisterCustomKernel create_info r in
      if IsOK status then register_until_error infos' r' else (Return status, r')
  end.

(** ** The life of a kernel object *)

Section KernelLifetime.
Variable ORT_API_VERSION : N.

(** What the plugin sees of one kernel: it is created through the creation
    function of its descriptor, [Compute] is called [n] times, and it is
    deleted.  The result is the list of the statuses [Compute] returned. *)
Definition kernel_lifetime (op : OrtCustomOp) (n : nat) : W (list Status) :=
  '(_, kernel) ← kernel_create_fn ORT_API_VERSION op;
  statuses ← for_range 0 n
                (λ _ statuses, status ← Compute kernel; mret (statuses ++ [status])) [];
  _ ← CustomOpKernel_delete kernel;
  mret statuses.
End KernelLifetime.

(** The plugin calls that ask a descriptor about itself; the others create,
    run or destroy a kernel. *)
Definition descriptor_query (c : PluginCall) : Prop :=
  match c with
  | Call_CreateKernel _ | Call_KernelCompute _ | Call_KernelDestroy _ => False
  | _ => True
  end.

(** ** What the inference function computes *)

(** Position [j] of a binding is compatible with the node's input there: the
    node's input type is unknown, the binding's entry is undefined, or the
    two are equal (lines 648-656). *)
Definition compatible_at (type_vec input_types : OnnxTypeVec) (j : nat) : Prop :=
  input_types !!! j = ONNX_TENSOR_ELEMENT_DATA_TYPE_UNDEFINED
  ∨ type_vec !!! j = ONNX_TENSOR_ELEMENT_DATA_TYPE_UNDEFINED
  ∨ type_vec !!! j = input_types !!! j.

Global Instance compatible_at_dec (type_vec input_types : OnnxTypeVec) (j : nat) :
  Decision (compatible_at type_vec input_types j).
Proof. unfold compatible_at. apply _. Defined.

(** The known input types found at the undefined positions of the binding
    among the positions [i, i + n), in order. *)
Definition wildcard_inputs (type_vec input_types : OnnxTypeVec) (i n : nat) : OnnxTypeVec :=
  (λ j, input_types !!! j)
    <$> filter (λ j, input_types !!! j ≠ ONNX_TENSOR_ELEMENT_DATA_TYPE_UNDEFINED
                     ∧ type_vec !!! j = ONNX_TENSOR_ELEMENT_DATA_TYPE_UNDEFINED)
               (seq i n).

(** The bindings the scan does not pass over: those of the node's arity
    whose input positions are all compatible. *)
Definition binding_matches (input_types : OnnxTypeVec) (num_inputs num_outputs : nat)
    (type_vec : OnnxTypeVec) : Prop :=
  length type_vec = num_inputs + num_outputs
  ∧ Forall (compatible_at type_vec input_types) (seq 0 num_inputs).

Global Instance binding_matches_dec (input_types : OnnxTypeVec)
    (num_inputs num_outputs : nat) (type_vec : OnnxTypeVec) :
  Decision (binding_matches input_types num_inputs num_outputs type_vec).
Proof. unfold binding_matches. apply _. Defined.

(** The output types a binding gives when the undefined entries stand for
    [undef]. *)
Definition binding_outputs (type_vec : OnnxTypeVec) (num_inputs : nat)
    (undef : ONNXTensorElementDataType) : list (option ONNXTensorElementDataType) :=
  (λ entry, Some (if decide (ONNX_TENSOR_ELEMENT_DATA_TYPE_UNDEFINED = entry)
                  then undef else entry))
    <$> drop num_inputs type_vec.

(** A node none of whose inputs has a known type, with two outputs. *)
Definition untyped_node : InferenceContext :=
  {| getInputType := [None; None]; getOutputType := [None; Some 11%Z] |}.

(** ** CUDA streams (cuda_stream_handle.cc, lines 779-816) *)

(** [CreateCudaStream]: [provider] is [provider->Type()]; [created] is what
    [cudaStreamCreate] returns and the stream it stores.  The enforcement on
    the provider type comes first. *)
Definition CreateCudaStream (provider : string) (created : cudaError_t * nat)
  : Outcome Stream :=
  if decide (provider = kCudaExecutionProvider) then
    if decide (created.1 = cudaSuccess)
    then Ok {| handle := created.2; provider_Type := provider |}
    else Throw "cudaStreamCreate"
  else Throw "provider->Type() == kCudaExecutionProvider".

(** ** What each call on a notification has done *)

(** The actions of thread [tid] in a history, oldest first. *)
Definition actions_of (tid : nat) (h : list (nat * Action)) : list Action :=
  (filter (λ e, e.1 = tid) h).*2.

(** [k] rounds of a waiting loop that found the flag false. *)
Fixpoint spins (k : nat) : list Action :=
  match k with
  | O => []
  | S k' => spins k' ++ [ready_load false; SpinPause]
  end.

(** The actions a call has performed when it is at a given control point.
    The event and the stream are those the notification was made with. *)
Definition trace_of (n0 : CudaNotification) (th : Thread) (acts : list Action) : Prop :=
  match th with
  | In_Activate pc =>
      match pc with
      | Activate_record => acts = []
      | Activate_store =>
          acts = [cudaEventRecord (event_ n0) (handle (stream n0)) cudaSuccess]
      | Activate_returned =>
          acts = [cudaEventRecord (event_ n0) (handle (stream n0)) cudaSuccess;
                  ready_store true]
      | Activate_thrown =>
          ∃ r, r ≠ cudaSuccess
               ∧ acts = [cudaEventRecord (event_ n0) (handle (stream n0)) r]
      end
  | In_wait_on_device device_stream pc =>
      match pc with
      | wait_on_device_enforce => acts = []
      | wait_on_device_load => ∃ k, acts = spins k
      | wait_on_device_pause => ∃ k, acts = spins k ++ [ready_load false]
      | wait_on_device_wait_event => ∃ k, acts = spins k ++ [ready_load true]
      | wait_on_device_returned =>
          ∃ k, acts = spins k ++ [ready_load true;
                                  cudaStreamWaitEvent (handle device_stream) (event_ n0)
                                    cudaSuccess]
      | wait_on_device_thrown =>
          (provider_Type device_stream ≠ kCudaExecutionProvider ∧ acts = [])
          ∨ ∃ k r, r ≠ cudaSuccess
                   ∧ acts = spins k ++ [ready_load true;
                                        cudaStreamWaitEvent (handle device_stream)
                                          (event_ n0) r]
      end
  | In_wait_on_host pc =>
      match pc with
      | wait_on_host_load => ∃ k, acts = spins k
      | wait_on_host_pause => ∃ k, acts = spins k ++ [ready_load false]
      | wait_on_host_synchronize => ∃ k, acts = spins k ++ [ready_load true]
      | wait_on_host_returned =>
          ∃ k, acts = spins k ++ [ready_load true;
                                  cudaEventSynchronize (event_ n0) cudaSuccess]
      | wait_on_host_thrown =>
          ∃ k r, r ≠ cudaSuccess
                 ∧ acts = spins k ++ [ready_load true; cudaEventSynchronize (event_ n0) r]
      end
  end.

(** The actions that do not show that the flag was ever found true. *)
Definition idle_action (a : Action) : Prop :=
  match a with
  | cudaEventRecord _ _ r => r ≠ cudaSuccess
  | ready_load b => b = false
  | SpinPause => True
  | ready_store _ | cudaStreamWaitEvent _ _ _ | cudaEventSynchronize _ _ => False
  end.

(** A thread that has left its waiting loop, or stored the flag. *)
Definition past_ready (th : Thread) : Prop :=
  match th with
  | In_Activate pc => pc = Activate_returned
  | In_wait_on_device _ pc =>
      pc = wait_on_device_wait_event ∨ pc = wait_on_device_returned
  | In_wait_on_host pc =>
      pc = wait_on_host_synchronize ∨ pc = wait_on_host_returned
  end.

(** A failing [cudaEventRecord]. *)
Definition cudaErrorInvalidValue : cudaError_t := 1%Z.

(** Thread 0 runs [Activate], whose record fails; threads 1 and 2 wait. *)
Definition failed_activation : list (nat * cudaError_t) :=
  [(1, cudaSuccess); (2, cudaSuccess); (0, cudaErrorInvalidValue); (1, cudaSuccess);
   (2, cudaSuccess); (0, cudaSuccess); (1, cudaSuccess)].

(** * Properties *)

(** ** Attribute arrays *)

Lemma memcpy_prefix {T} (out src : list T) :
  length src <= length out →
  take (length src) (memcpy out src (length src)) = src
  ∧ drop (length src) (memcpy out src (length src)) = drop (length src) out
  ∧ length (memcpy out src (length src)) = length out.
Proof.
  intros Hle. unfold memcpy. rewrite firstn_all.
  repeat split.
  - by rewrite take_app_length.
  - by rewrite drop_app_length.
  - rewrite length_app, length_drop. lia.
Qed.

Lemma CopyDataFromVectorToMemory_two_phase {T} (values : list T) :
  two_phase_query (λ s, s) (CopyDataFromVectorToMemory values) values.
Proof.
  unfold two_phase_query, CopyDataFromVectorToMemory. split; [| split].
  - done.
  - intros buf size Hlt. case_decide; [lia | done].
  - intros buf size Hle Hbuf. case_decide; [| lia].
    eexists. split; [done |]. apply memcpy_prefix. lia.
Qed.

Section AttributeArrayFacts.
Context {OpKernelInfo OrtStatusPtr float : Type}.
Variable ToOrtStatus : Status -> OrtStatusPtr.
Variable GetAttrs_float : OpKernelInfo -> string -> Status * list float.
Variable GetAttrs_int64 : OpKernelInfo -> string -> Status * list Z.

(** C6.  For a float or int64 attribute array of n elements: a query with a
  null buffer succeeds and sets the size to n; a non-null buffer with a
  size below n gives the "Result buffer is not large enough" error, sets the
  size to n and leaves the buffer as it was; a non-null buffer with a size
  of at least n receives exactly the n elements (the rest of the buffer is
  untouched) and the size is set to n. *)
Theorem KernelInfoGetAttributeArray_two_phase (info : OpKernelInfo) (name : string) :
(∀ values, GetAttrs_float info name = (Status_OK, values) →
   two_phase_query ToOrtStatus
     (KernelInfoGetAttributeArray_float OpKernelInfo OrtStatusPtr float
        ToOrtStatus GetAttrs_float info name) values)
∧ (∀ values, GetAttrs_int64 info name = (Status_OK, values) →
     two_phase_query ToOrtStatus
       (KernelInfoGetAttributeArray_int64 OpKernelInfo OrtStatusPtr
          ToOrtStatus GetAttrs_int64 info name) values).
Proof.
split; intros values Hattr;
  destruct (CopyDataFromVectorToMemory_two_phase values) as (Hnull & Hsmall & Hfit);
  unfold KernelInfoGetAttributeArray_float, KernelInfoGetAttributeArray_int64;
  rewrite Hattr; cbn [IsOK]; (split; [| split]).
- intros size. by rewrite Hnull.
- intros buf size Hlt. by rewrite Hsmall.
- intros buf size Hle Hbuf. destruct (Hfit buf size Hle Hbuf) as (buf' & -> & ?).
  by exists buf'.
- intros size. by rewrite Hnull.
- intros buf size Hlt. by rewrite Hsmall.
- intros buf size Hle Hbuf. destruct (Hfit buf size Hle Hbuf) as (buf' & -> & ?).
  by exists buf'.
Qed.
End AttributeArrayFacts.

Lemma KernelInfoGetAttributeArray_two_phase_witness :
  KernelInfoGetAttributeArray_int64 unit Status (λ s, s)
    (λ _ _, (Status_OK, [10; 20; 30]%Z)) () "pads" (Some [0; 0]%Z) 2
  = (MakeStatus INVALID_ARGUMENT "Result buffer is not large enough", Some [0; 0]%Z, 3).
Proof.
  pose proof (KernelInfoGetAttributeArray_two_phase (float := Z) (λ s : Status, s)
                (λ (_ : unit) (_ : string), (Status_OK, [1; 2]%Z))
                (λ (_ : unit) (_ : string), (Status_OK, [10; 20; 30]%Z)) () "pads")
    as [_ Hint].
  destruct (Hint [10; 20; 30]%Z eq_refl) as (_ & Hsmall & _).
  apply (Hsmall [0; 0]%Z 2). simpl. lia.
Defined.

(** ** The kernel wrapper *)

Section CustomOpKernelFacts.
Variable ORT_API_VERSION : N.

(** C3.  A custom op whose declared version exceeds ORT_API_VERSION makes the
  constructor throw "Unsupported version ..." after a single GetName call:
  neither CreateKernel nor KernelCompute has been invoked.  A version that
  does not exceed it makes the constructor call the plugin's CreateKernel
  and keep the kernel it returns. *)
Theorem CustomOpKernel_new_version_check (op : OrtCustomOp) :
((ORT_API_VERSION < version op)%N →
   CustomOpKernel_new ORT_API_VERSION op =
     (Throw ("Unsupported version '" +:+ pretty (version op)
               +:+ "' in custom op '" +:+ GetName op),
      [Call_GetName])
   ∧ (kernel_create_fn ORT_API_VERSION op).1 =
       Throw ("Unsupported version '" +:+ pretty (version op)
                +:+ "' in custom op '" +:+ GetName op)
   ∧ (∀ c, c ∈ (kernel_create_fn ORT_API_VERSION op).2 →
        (∀ v, c ≠ Call_CreateKernel v) ∧ (∀ k, c ≠ Call_KernelCompute k)))
∧ ((version op <= ORT_API_VERSION)%N →
     CustomOpKernel_new ORT_API_VERSION op =
       (Ok {| op_ := op; op_kernel_ := CreateKernel op (version op) |},
        [Call_CreateKernel (version op)])).
Proof.
unfold kernel_create_fn, CustomOpKernel_new. split; intros Hv.
- rewrite decide_True by done. split; [done |]. split; [done |].
  intros c Hc%list_elem_of_singleton. subst c. split; intros; discriminate.
- by rewrite decide_False by lia.
Qed.
End CustomOpKernelFacts.

Lemma CustomOpKernel_new_version_check_witness :
  (16 < version (descriptor 17 "Foo" [] [] 1 1))%N
  ∧ (CustomOpKernel_new 16 (descriptor 17 "Foo" [] [] 1 1)).1
    = Throw "Unsupported version '17' in custom op 'Foo".
Proof.
  assert (16 < version (descriptor 17 "Foo" [] [] 1 1))%N as Hv by (simpl; lia).
  split; [exact Hv |].
  destruct (CustomOpKernel_new_version_check 16 (descriptor 17 "Foo" [] [] 1 1))
    as [Hhigh _].
  destruct (Hhigh Hv) as (-> & _). reflexivity.
Defined.

(** C9.  Compute invokes the plugin's KernelCompute on the kernel object and
    returns Status::OK(), whatever the kernel and the context are. *)
Theorem Compute_returns_OK (kernel : CustomOpKernel) :
  Compute kernel = (Ok Status_OK, [Call_KernelCompute (op_kernel_ kernel)]).
Proof. reflexivity. Qed.

(** ** Reasoning about host computations *)

Lemma W_bind_Ok {A B} (m : W A) (f : A → W B) (b : B) (calls : list PluginCall) :
  m ≫= f = (Ok b, calls) →
  ∃ a c1 c2, m = (Ok a, c1) ∧ f a = (Ok b, c2) ∧ calls = c1 ++ c2.
Proof.
  unfold mbind, W_bind. destruct m as [[a | s | e] c1]; simpl; intros Heq;
    [| discriminate | discriminate].
  exists a, c1, (f a).2. destruct (f a) as [o c2]; simpl in *.
  by inversion Heq.
Qed.

Lemma W_bind_run {A B} (m : W A) (f : A → W B) (a : A) (c1 : list PluginCall) :
  m = (Ok a, c1) → m ≫= f = ((f a).1, c1 ++ (f a).2).
Proof. intros ->. reflexivity. Qed.

Lemma W_bind_Throw {A B} (m : W A) (f : A → W B) (e : string) :
  m.1 = Throw e → (m ≫= f).1 = Throw e.
Proof. unfold mbind, W_bind. by intros ->. Qed.

Lemma W_ret_Ok {A} (a b : A) (calls : list PluginCall) :
  (mret a : W A) = (Ok b, calls) → a = b ∧ calls = [].
Proof. unfold mret, W_ret. by inversion 1. Qed.

Lemma call_Ok {A} (c : PluginCall) (a b : A) (calls : list PluginCall) :
  call c a = (Ok b, calls) → a = b ∧ calls = [c].
Proof. unfold call. by inversion 1. Qed.

Lemma ORT_ENFORCE_Ok (cond : bool) (msg : string) (u : unit) (calls : list PluginCall) :
  ORT_ENFORCE cond msg = (Ok u, calls) → cond = true ∧ calls = [].
Proof. unfold ORT_ENFORCE. destruct cond; by inversion 1. Qed.

Lemma ORT_RETURN_IF_NOT_Ok (cond : bool) (msg : string) (u : unit)
    (calls : list PluginCall) :
  ORT_RETURN_IF_NOT cond msg = (Ok u, calls) → cond = true ∧ calls = [].
Proof. unfold ORT_RETURN_IF_NOT. destruct cond; by inversion 1. Qed.

(** Invert a successful run, statement by statement. *)
Ltac inv_W :=
  repeat match goal with
    | H : _ ≫= _ = (Ok _, _) |- _ =>
        let c1 := fresh "c" in let c2 := fresh "c" in
        apply W_bind_Ok in H as (? & c1 & c2 & ? & H & ->)
    | H : call _ _ = (Ok _, _) |- _ => apply call_Ok in H as [<- ->]
    | H : @mret W _ _ _ = (Ok _, _) |- _ => apply W_ret_Ok in H as [? ->]
    | H : ORT_ENFORCE _ _ = (Ok _, _) |- _ =>
        apply ORT_ENFORCE_Ok in H as [H ->]; try apply bool_decide_eq_true in H
    | H : ORT_RETURN_IF_NOT _ _ = (Ok _, _) |- _ =>
        apply ORT_RETURN_IF_NOT_Ok in H as [H ->]; try apply bool_decide_eq_true in H
    end.

(** A loop that succeeds maintains every invariant its iterations maintain. *)
Lemma for_range_Ok_inv {St} (P : nat → St → Prop) (body : nat → St → W St)
    (n start : nat) (st st' : St) (calls : list PluginCall) :
  for_range start n body st = (Ok st', calls) →
  P start st →
  (∀ i s s' c, start <= i < start + n → P i s → body i s = (Ok s', c) → P (S i) s') →
  P (start + n) st'.
Proof.
  revert start st calls. induction n as [| n IH]; intros start st calls Hrun Hst Hstep.
  - apply W_ret_Ok in Hrun as [<- _]. by rewrite Nat.add_0_r.
  - simpl in Hrun. inv_W.
    replace (start + S n) with (S start + n) by lia.
    eapply IH; [done | |].
    + eapply Hstep; [| done | done]. lia.
    + intros i s s' cs Hi. apply Hstep. lia.
Qed.

Lemma throws_only_bind {A B} (msgs : list string) (m : W A) (f : A → W B) :
  throws_only msgs m → (∀ a, throws_only msgs (f a)) → throws_only msgs (m ≫= f).
Proof.
  unfold throws_only, mbind, W_bind. destruct m as [[a | s | e] c]; simpl; try done.
  intros _ Hf. apply Hf.
Qed.

Lemma throws_only_ret {A} (msgs : list string) (a : A) :
  throws_only msgs (mret a : W A).
Proof. done. Qed.

Lemma throws_only_call {A} (msgs : list string) (c : PluginCall) (a : A) :
  throws_only msgs (call c a).
Proof. done. Qed.

Lemma throws_only_ENFORCE (msgs : list string) (cond : bool) (msg : string) :
  msg ∈ msgs → throws_only msgs (ORT_ENFORCE cond msg).
Proof. unfold throws_only, ORT_ENFORCE. by destruct cond. Qed.

Lemma throws_only_for_range {St} (msgs : list string) (body : nat → St → W St)
    (n start : nat) (st : St) :
  (∀ i s, throws_only msgs (body i s)) → throws_only msgs (for_range start n body st).
Proof.
  intros Hbody. revert start st. induction n as [| n IH]; intros start st; simpl.
  - apply throws_only_ret.
  - apply throws_only_bind; [apply Hbody | intros a; apply IH].
Qed.

Lemma throws_only_weaken {A} (msgs msgs' : list string) (w : W A) :
  msgs ⊆ msgs' → throws_only msgs w → throws_only msgs' w.
Proof.
  unfold throws_only. destruct (w.1); try done. intros Hsub He. by apply Hsub.
Qed.

Lemma throws_only_not_Ok {A} (msg : string) (w : W A) :
  throws_only [msg] w → (∀ a, w.1 ≠ Ok a) → w.1 = Throw msg.
Proof.
  unfold throws_only. destruct (w.1) as [a | s | e]; intros Hin Hne.
  - by destruct (Hne a).
  - done.
  - apply list_elem_of_singleton in Hin. by subst.
Qed.

(** ** Schema creation *)

Lemma assign_at_length (x : FormalParameter) (v : list FormalParameter) :
  assign_at (length v) x v = v ++ [x].
Proof.
  unfold assign_at. replace (S (length v) - length v) with 1 by lia. simpl.
  rewrite insert_app_r_alt by lia. by rewrite Nat.sub_diag.
Qed.

Lemma count_undefined_inputs_S (op : OrtCustomOp) (n : nat) :
  count_undefined_inputs op (S n) =
    count_undefined_inputs op n
    + (if decide (ONNX_TENSOR_ELEMENT_DATA_TYPE_UNDEFINED = GetInputType op n)
       then 1 else 0).
Proof.
  unfold count_undefined_inputs. rewrite seq_S, filter_app, length_app. simpl.
  rewrite filter_cons, filter_nil. by case_decide.
Qed.

Lemma input_characteristics_Ok (op : OrtCustomOp) (input_count i : nat)
    (o : FormalParameterOption) (h : bool) (a : Z) (calls : list PluginCall) :
  input_characteristics op input_count i = (Ok (o, h, a), calls) →
  o = recorded_option (version op) (GetInputCharacteristic op i)
  ∧ (o = Variadic →
       i = input_count - 1
       ∧ h = bool_decide (GetVariadicInputHomogeneity op ≠ 0%Z)
       ∧ a = GetVariadicInputMinArity op)
  ∧ (o ≠ Variadic → h = true ∧ a = 1%Z).
Proof.
  unfold input_characteristics, recorded_option. intros Hrun.
  destruct (decide (min_ort_version_with_optional_io_support <= version op)%N);
    [| inv_W; by simplify_eq].
  inv_W.
  destruct (decide (GetInputCharacteristic op i = INPUT_OUTPUT_OPTIONAL));
    [inv_W; by simplify_eq |].
  destruct (decide ((min_ort_version_with_variadic_io_support <= version op)%N
                    ∧ GetInputCharacteristic op i = INPUT_OUTPUT_VARIADIC));
    [| inv_W; by simplify_eq].
  inv_W. by simplify_eq.
Qed.

Lemma output_characteristics_Ok (op : OrtCustomOp) (output_count i : nat)
    (o : FormalParameterOption) (h : bool) (a : Z) (calls : list PluginCall) :
  output_characteristics op output_count i = (Ok (o, h, a), calls) →
  o = recorded_option (version op) (GetOutputCharacteristic op i)
  ∧ (o = Variadic →
       i = output_count - 1
       ∧ h = bool_decide (GetVariadicOutputHomogeneity op ≠ 0%Z)
       ∧ a = GetVariadicOutputMinArity op)
  ∧ (o ≠ Variadic → h = true ∧ a = 1%Z).
Proof.
  unfold output_characteristics, recorded_option. intros Hrun.
  destruct (decide (min_ort_version_with_optional_io_support <= version op)%N);
    [| inv_W; by simplify_eq].
  inv_W.
  destruct (decide (GetOutputCharacteristic op i = INPUT_OUTPUT_OPTIONAL));
    [inv_W; by simplify_eq |].
  destruct (decide ((min_ort_version_with_variadic_io_support <= version op)%N
                    ∧ GetOutputCharacteristic op i = INPUT_OUTPUT_VARIADIC));
    [| inv_W; by simplify_eq].
  inv_W. by simplify_eq.
Qed.

(** The input loop (lines 436-469), when it completes. *)
Lemma create_schema_inputs_Ok (op : OrtCustomOp) (input_count : nat)
    (schema0 schema : OpSchema) (undefined : nat) (calls : list PluginCall) :
  inputs schema0 = [] →
  for_range 0 input_count (create_schema_input op input_count) (schema0, 0)
    = (Ok (schema, undefined), calls) →
  length (inputs schema) = input_count
  ∧ undefined = count_undefined_inputs op input_count
  ∧ (∀ j fp, inputs schema !! j = Some fp → input_recorded op input_count j fp)
  ∧ outputs schema = outputs schema0
  ∧ Name schema = Name schema0.
Proof.
  intros Hnil Hrun.
  apply (for_range_Ok_inv
           (λ i st, length (inputs st.1) = i
                    ∧ st.2 = count_undefined_inputs op i
                    ∧ (∀ j fp, inputs st.1 !! j = Some fp →
                               input_recorded op input_count j fp)
                    ∧ outputs st.1 = outputs schema0
                    ∧ Name st.1 = Name schema0)) in Hrun; [done | |].
  - simpl. rewrite Hnil. repeat split; try done.
  - clear Hrun. intros i [s u] [s' u'] cs _ (Hlen & Hu & Hin & Hout & Hname) Hbody.
    cbn [fst snd] in *. unfold create_schema_input in Hbody.
    apply W_bind_Ok in Hbody as ([[o h] a] & c1 & c2 & Hchar & Hbody & ->).
    apply input_characteristics_Ok in Hchar as (Ho & Hvar & Hnvar).
    apply W_bind_Ok in Hbody as (type & c3 & c4 & Htype & Hbody & ->).
    apply call_Ok in Htype as [<- _].
    rewrite count_undefined_inputs_S.
    destruct (decide (ONNX_TENSOR_ELEMENT_DATA_TYPE_UNDEFINED = GetInputType op i))
      as [Hty | Hty];
      apply W_ret_Ok in Hbody as [Heq _]; simplify_eq;
      cbn [inputs outputs TypeConstraint Input]; rewrite assign_at_length.
    all: (split; [rewrite length_app; simpl; lia |]).
    all: (split; [lia |]).
    all: (split; [| done]).
    all: intros j fp Hj; apply lookup_app_Some in Hj as [Hj | [Hge Hj]]; [by apply Hin |].
    all: apply list_lookup_singleton_Some in Hj as [Hj <-].
    all: assert (j = length (inputs s)) as -> by lia.
    all: unfold input_recorded; simpl.
    all: split; [done | split; [done | split; [done |]]].
    all: by destruct (decide _).
Qed.

(** The output loop (lines 471-503), when it completes. *)
Lemma create_schema_outputs_Ok (op : OrtCustomOp) (output_count undefined : nat)
    (schema0 schema : OpSchema) (calls : list PluginCall) :
  outputs schema0 = [] →
  for_range 0 output_count (create_schema_output op output_count undefined) schema0
    = (Ok schema, calls) →
  length (outputs schema) = output_count
  ∧ (∀ j fp, outputs schema !! j = Some fp →
             output_recorded op output_count undefined j fp)
  ∧ inputs schema = inputs schema0
  ∧ Name schema = Name schema0.
Proof.
  intros Hnil Hrun.
  apply (for_range_Ok_inv
           (λ i s, length (outputs s) = i
                   ∧ (∀ j fp, outputs s !! j = Some fp →
                              output_recorded op output_count undefined j fp)
                   ∧ inputs s = inputs schema0
                   ∧ Name s = Name schema0)) in Hrun; [done | |].
  - rewrite Hnil. repeat split; try done.
  - clear Hrun. intros i s s' cs _ (Hlen & Hrec & Hin & Hname) Hbody.
    unfold create_schema_output in Hbody.
    apply W_bind_Ok in Hbody as ([[o h] a] & c1 & c2 & Hchar & Hbody & ->).
    apply output_characteristics_Ok in Hchar as (Ho & Hvar & Hnvar).
    apply W_bind_Ok in Hbody as (type & c3 & c4 & Htype & Hbody & ->).
    apply call_Ok in Htype as [<- _].
    destruct (decide (ONNX_TENSOR_ELEMENT_DATA_TYPE_UNDEFINED = GetOutputType op i))
      as [Hty | Hty].
    + apply W_bind_Ok in Hbody as (characteristic & c5 & c6 & Hquery & Hbody & ->).
      apply call_Ok in Hquery as [<- _].
      apply W_bind_Ok in Hbody as ([] & c7 & c8 & Henforce & Hbody & ->).
      apply W_ret_Ok in Hbody as [Heq _].
      assert (GetOutputCharacteristic op i = INPUT_OUTPUT_REQUIRED → undefined = 1) as Hreq.
      { intros Hc. rewrite decide_True in Henforce by done.
        by apply ORT_ENFORCE_Ok in Henforce as [Hone%bool_decide_eq_true _]. }
      simplify_eq. cbn [inputs outputs Output]. rewrite assign_at_length.
      split; [rewrite length_app; simpl; lia |]. split; [| done].
      intros j fp Hj. apply lookup_app_Some in Hj as [Hj | [Hge Hj]]; [by apply Hrec |].
      apply list_lookup_singleton_Some in Hj as [Hj <-].
      assert (j = length (outputs s)) as -> by lia.
      unfold output_recorded; simpl.
      split; [done | split; [done | split; [done | split; [done | done]]]].
    + apply W_ret_Ok in Hbody as [Heq _].
      simplify_eq. cbn [inputs outputs TypeConstraint Output].
      rewrite assign_at_length.
      split; [rewrite length_app; simpl; lia |]. split; [| done].
      intros j fp Hj. apply lookup_app_Some in Hj as [Hj | [Hge Hj]]; [by apply Hrec |].
      apply list_lookup_singleton_Some in Hj as [Hj <-].
      assert (j = length (outputs s)) as -> by lia.
      unfold output_recorded; simpl.
      split; [done | split; [done | split; [done | split; [done | done]]]].
Qed.

(** Schema creation, when it succeeds. *)
Lemma create_schema_Ok (domain_ : string) (op : OrtCustomOp)
    (input_count output_count : nat) (schema : OpSchema) (undefined : nat)
    (calls : list PluginCall) :
  create_schema domain_ op input_count output_count = (Ok (schema, undefined), calls) →
  undefined = count_undefined_inputs op input_count
  ∧ length (inputs schema) = input_count
  ∧ length (outputs schema) = output_count
  ∧ (∀ j fp, inputs schema !! j = Some fp → input_recorded op input_count j fp)
  ∧ (∀ j fp, outputs schema !! j = Some fp →
             output_recorded op output_count undefined j fp)
  ∧ Name schema = GetName op.
Proof.
  unfold create_schema. intros Hrun.
  apply W_bind_Ok in Hrun as (name & c1 & c2 & Hname & Hrun & ->).
  apply call_Ok in Hname as [<- _].
  apply W_bind_Ok in Hrun as ([schema1 undefined1] & c3 & c4 & Hinputs & Hrun & ->).
  apply W_bind_Ok in Hrun as (schema2 & c5 & c6 & Houtputs & Hret & ->).
  apply W_ret_Ok in Hret as [Heq _].
  apply create_schema_inputs_Ok in Hinputs as (Hlen & Hu & Hin & Hout & Hname); [| done].
  apply create_schema_outputs_Ok in Houtputs as (Hlen' & Hrec & Hin' & Hname');
    [| by rewrite Hout].
  simplify_eq. cbn. rewrite Hin', Hname', Hname. done.
Qed.

(** Schema creation never leaves with a [Return]; it can only throw one of
    the three enforcement messages. *)
Ltac throws :=
  repeat first
    [ apply throws_only_ret
    | apply throws_only_call
    | apply throws_only_ENFORCE; assumption
    | apply throws_only_bind; [| intros ?]
    | apply throws_only_for_range; intros ? ?
    | match goal with
      | |- throws_only _ (match ?x with _ => _ end) => destruct x
      end ].

Lemma create_schema_input_throws (msgs : list string) (op : OrtCustomOp)
    (input_count i : nat) (st : OpSchema * nat) :
  input_variadic_msg ∈ msgs →
  throws_only msgs (create_schema_input op input_count i st).
Proof.
  intros Hin. unfold create_schema_input, input_characteristics. destruct st. throws.
Qed.

Lemma create_schema_output_throws (msgs : list string) (op : OrtCustomOp)
    (output_count undefined i : nat) (schema : OpSchema) :
  output_variadic_msg ∈ msgs → "todo..." ∈ msgs →
  throws_only msgs (create_schema_output op output_count undefined i schema).
Proof. intros Hin Hin'. unfold create_schema_output, output_characteristics. throws. Qed.

Lemma create_schema_throws (domain_ : string) (op : OrtCustomOp)
    (input_count output_count : nat) :
  throws_only [input_variadic_msg; output_variadic_msg; "todo..."]
    (create_schema domain_ op input_count output_count).
Proof.
  unfold create_schema.
  apply throws_only_bind; [throws | intros name].
  apply throws_only_bind.
  { apply throws_only_for_range. intros i st.
    apply create_schema_input_throws. by repeat constructor. }
  intros [schema undefined].
  apply throws_only_bind; [| intros ?; throws].
  apply throws_only_for_range. intros i st.
  apply create_schema_output_throws; by repeat constructor.
Qed.

Lemma create_schema_not_Ok_Throw (domain_ : string) (op : OrtCustomOp)
    (input_count output_count : nat) :
  (∀ r, (create_schema domain_ op input_count output_count).1 ≠ Ok r) →
  ∃ msg, (create_schema domain_ op input_count output_count).1 = Throw msg.
Proof.
  intros Hne.
  pose proof (create_schema_throws domain_ op input_count output_count) as Hthrows.
  unfold throws_only in Hthrows.
  destruct (create_schema domain_ op input_count output_count).1 as [r | s | e]; [| done |].
  - by destruct (Hne r).
  - by exists e.
Qed.

(** C10.  In a schema that was created from a descriptor, every output whose
    declared type is undefined carries the type string "T0", and if such an
    output is Required the descriptor has exactly one undefined input type;
    a descriptor with a Required undefined output and a number of undefined
    input types other than one makes schema creation throw. *)
Theorem create_schema_undefined_output (domain_ : string) (op : OrtCustomOp) :
  (∀ schema undefined calls,
     create_schema domain_ op (GetInputTypeCount op) (GetOutputTypeCount op)
       = (Ok (schema, undefined), calls) →
     ∀ j, j < GetOutputTypeCount op →
          ONNX_TENSOR_ELEMENT_DATA_TYPE_UNDEFINED = GetOutputType op j →
          ∃ fp, outputs schema !! j = Some fp
                ∧ GetTypeStr fp = "T0"
                ∧ (GetOutputCharacteristic op j = INPUT_OUTPUT_REQUIRED →
                   count_undefined_inputs op (GetInputTypeCount op) = 1))
  ∧ ((∃ j, j < GetOutputTypeCount op
           ∧ ONNX_TENSOR_ELEMENT_DATA_TYPE_UNDEFINED = GetOutputType op j
           ∧ GetOutputCharacteristic op j = INPUT_OUTPUT_REQUIRED) →
     count_undefined_inputs op (GetInputTypeCount op) ≠ 1 →
     ∃ msg, (create_schema domain_ op (GetInputTypeCount op) (GetOutputTypeCount op)).1
            = Throw msg).
Proof.
  assert (∀ schema undefined calls,
     create_schema domain_ op (GetInputTypeCount op) (GetOutputTypeCount op)
       = (Ok (schema, undefined), calls) →
     ∀ j, j < GetOutputTypeCount op →
          ONNX_TENSOR_ELEMENT_DATA_TYPE_UNDEFINED = GetOutputType op j →
          ∃ fp, outputs schema !! j = Some fp
                ∧ GetTypeStr fp = "T0"
                ∧ (GetOutputCharacteristic op j = INPUT_OUTPUT_REQUIRED →
                   count_undefined_inputs op (GetInputTypeCount op) = 1)) as Hok.
  { intros schema undefined calls Hrun j Hj Hty.
    apply create_schema_Ok in Hrun as (-> & _ & Hlen & _ & Hout & _).
    destruct (lookup_lt_is_Some_2 (outputs schema) j) as [fp Hfp]; [lia |].
    exists fp. split; [done |].
    destruct (Hout j fp Hfp) as (_ & _ & _ & Hundef & _).
    by apply Hundef. }
  split; [exact Hok |].
  intros (j & Hj & Hty & Hreq) Hcount.
  apply create_schema_not_Ok_Throw. intros [schema undefined] Hrun.
  destruct (create_schema domain_ op (GetInputTypeCount op) (GetOutputTypeCount op))
    as [o calls] eqn:Hcreate.
  simpl in Hrun. subst o.
  destruct (Hok schema undefined calls eq_refl j Hj Hty) as (fp & _ & _ & Hone).
  by apply Hcount, Hone.
Qed.

Lemma recorded_option_Variadic (v : N) (c : OrtCustomOpInputOutputCharacteristic) :
  recorded_option v c = Variadic ↔
  (min_ort_version_with_variadic_io_support <= v)%N ∧ c = INPUT_OUTPUT_VARIADIC.
Proof.
  unfold recorded_option, min_ort_version_with_optional_io_support,
    min_ort_version_with_variadic_io_support.
  repeat case_decide; split; try done; intros [Hv ->]; try done; try lia.
Qed.

Lemma recorded_option_ignores_Variadic (v : N) :
  (v < min_ort_version_with_variadic_io_support)%N →
  recorded_option v INPUT_OUTPUT_VARIADIC = Single.
Proof.
  unfold recorded_option. intros Hv.
  destruct (decide (min_ort_version_with_optional_io_support <= v)%N); [| done].
  rewrite decide_False by done. rewrite decide_False; [done |]. intros [Hle _]. lia.
Qed.

Lemma create_schema_undefined_output_witness :
  (∃ fp, outputs (create_schema_result "test" identity_v16) !! 0 = Some fp
         ∧ GetTypeStr fp = "T0")
  ∧ ∃ msg, (create_schema "test" pair_v16 2 1).1 = Throw msg.
Proof.
  destruct (create_schema_undefined_output "test" identity_v16) as [Hok _].
  destruct (create_schema_undefined_output "test" pair_v16) as [_ Hthrow].
  split.
  - destruct (Hok (create_schema_result "test" identity_v16) 1
                (create_schema "test" identity_v16 1 1).2 eq_refl 0) as (fp & Hfp & Hstr & _);
      [simpl; lia | reflexivity |].
    by exists fp.
  - apply Hthrow.
    + exists 0. split; [simpl; lia | split; reflexivity].
    + vm_compute. lia.
Defined.

(** Below version 14 the characteristic Variadic is not looked at, so neither
    of the two enforcements on its position can fail. *)
Lemma create_schema_below_variadic (domain_ : string) (op : OrtCustomOp)
    (input_count output_count : nat) :
  (version op < min_ort_version_with_variadic_io_support)%N →
  throws_only ["todo..."] (create_schema domain_ op input_count output_count).
Proof.
  intros Hv.
  assert (∀ P : Prop,
            ¬ ((min_ort_version_with_variadic_io_support <= version op)%N ∧ P)) as Hgate
    by (intros P [Hle _]; lia).
  unfold create_schema.
  apply throws_only_bind; [throws | intros name].
  apply throws_only_bind.
  { apply throws_only_for_range. intros i [schema undefined].
    unfold create_schema_input, input_characteristics.
    throws. all: by match goal with Hc : _ ∧ _ |- _ => destruct (Hgate _ Hc) end. }
  intros [schema undefined].
  apply throws_only_bind; [| intros ?; throws].
  apply throws_only_for_range. intros i st.
  unfold create_schema_output, output_characteristics.
  assert ("todo..." ∈ ["todo..."]) by (by constructor).
  throws. all: by match goal with Hc : _ ∧ _ |- _ => destruct (Hgate _ Hc) end.
Qed.

(** C8, as the code has it.  A descriptor of version 14 or later that marks
    an input other than the last as Variadic makes schema creation throw
    "Only the last input to a custom op may be marked variadic."; one that
    marks an output other than the last as Variadic makes it throw as well.
    For a descriptor of a version below 14 neither enforcement is ever
    applied: schema creation can then only throw "todo...", the enforcement
    on undefined output types, and in the schema it creates no parameter is
    Variadic, a parameter the descriptor marks Variadic being recorded as
    Single.  In every schema that was created, a Variadic formal parameter
    is the last one of its input list or output list. *)
Theorem create_schema_variadic_last (domain_ : string) (op : OrtCustomOp) :
  ((min_ort_version_with_variadic_io_support <= version op)%N →
     (∃ i, i + 1 < GetInputTypeCount op
           ∧ GetInputCharacteristic op i = INPUT_OUTPUT_VARIADIC) →
     (create_schema domain_ op (GetInputTypeCount op) (GetOutputTypeCount op)).1
       = Throw input_variadic_msg)
  ∧ ((min_ort_version_with_variadic_io_support <= version op)%N →
       (∃ i, i + 1 < GetOutputTypeCount op
             ∧ GetOutputCharacteristic op i = INPUT_OUTPUT_VARIADIC) →
       ∃ msg, (create_schema domain_ op (GetInputTypeCount op) (GetOutputTypeCount op)).1
              = Throw msg)
  ∧ (∀ schema undefined calls,
       create_schema domain_ op (GetInputTypeCount op) (GetOutputTypeCount op)
         = (Ok (schema, undefined), calls) →
       (∀ j fp, inputs schema !! j = Some fp → GetOption fp = Variadic →
                j + 1 = GetInputTypeCount op
                ∧ (min_ort_version_with_variadic_io_support <= version op)%N)
       ∧ (∀ j fp, outputs schema !! j = Some fp → GetOption fp = Variadic →
                  j + 1 = GetOutputTypeCount op
                  ∧ (min_ort_version_with_variadic_io_support <= version op)%N)
       ∧ ((version op < min_ort_version_with_variadic_io_support)%N →
          (∀ j fp, inputs schema !! j = Some fp →
                   GetInputCharacteristic op j = INPUT_OUTPUT_VARIADIC →
                   GetOption fp = Single)
          ∧ (∀ j fp, outputs schema !! j = Some fp →
                     GetOutputCharacteristic op j = INPUT_OUTPUT_VARIADIC →
                     GetOption fp = Single)))
  ∧ ((version op < min_ort_version_with_variadic_io_support)%N →
     (∀ msg,
        (create_schema domain_ op (GetInputTypeCount op) (GetOutputTypeCount op)).1
          = Throw msg →
        msg = "todo...")
     ∧ (∀ status,
          (create_schema domain_ op (GetInputTypeCount op) (GetOutputTypeCount op)).1
            ≠ Return status)).
Proof.
  split; [| split; [| split]]; cycle 3.
  { intros Hv.
    pose proof (create_schema_below_variadic domain_ op (GetInputTypeCount op)
                  (GetOutputTypeCount op) Hv) as Hthrows.
    unfold throws_only in Hthrows.
    destruct (create_schema domain_ op (GetInputTypeCount op) (GetOutputTypeCount op)).1
      as [r | status | e]; [done | done |].
    split; [| done]. intros msg [= <-]. by apply list_elem_of_singleton in Hthrows. }
  - intros Hv (i & Hi & Hchar).
    unfold create_schema.
    erewrite W_bind_run by reflexivity. cbn [fst snd call].
    apply W_bind_Throw.
    apply throws_only_not_Ok.
    { apply throws_only_for_range. intros j st.
      apply create_schema_input_throws. by constructor. }
    intros [schema undefined] Hrun.
    match type of Hrun with (?w).1 = _ => destruct w as [o calls] eqn:Hloop end.
    simpl in Hrun. subst o.
    apply create_schema_inputs_Ok in Hloop as (Hlen & _ & Hin & _); [| done].
    destruct (lookup_lt_is_Some_2 (inputs schema) i) as [fp Hfp]; [lia |].
    destruct (Hin i fp Hfp) as (Hopt & Hlast & _).
    rewrite Hchar in Hopt.
    assert (GetOption fp = Variadic) as Hvariadic
      by (rewrite Hopt; apply recorded_option_Variadic; split; [exact Hv | reflexivity]).
    destruct (Hlast Hvariadic) as [-> _]. lia.
  - intros Hv (i & Hi & Hchar).
    apply create_schema_not_Ok_Throw. intros [schema undefined] Hrun.
    match type of Hrun with (?w).1 = _ => destruct w as [o calls] eqn:Hcreate end.
    simpl in Hrun. subst o.
    apply create_schema_Ok in Hcreate as (_ & _ & Hlen & _ & Hout & _).
    destruct (lookup_lt_is_Some_2 (outputs schema) i) as [fp Hfp]; [lia |].
    destruct (Hout i fp Hfp) as (Hopt & Hlast & _).
    rewrite Hchar in Hopt.
    assert (GetOption fp = Variadic) as Hvariadic
      by (rewrite Hopt; apply recorded_option_Variadic; split; [exact Hv | reflexivity]).
    destruct (Hlast Hvariadic) as [-> _]. lia.
  - intros schema undefined calls Hrun.
    apply create_schema_Ok in Hrun as (_ & Hlen_in & Hlen_out & Hin & Hout & _).
    split; [| split].
    + intros j fp Hfp Hvariadic.
      destruct (Hin j fp Hfp) as (Hopt & Hlast & _).
      apply lookup_lt_Some in Hfp.
      destruct (Hlast Hvariadic) as [-> _].
      rewrite Hopt in Hvariadic. apply recorded_option_Variadic in Hvariadic as [Hv _].
      split; [lia | done].
    + intros j fp Hfp Hvariadic.
      destruct (Hout j fp Hfp) as (Hopt & Hlast & _).
      apply lookup_lt_Some in Hfp.
      destruct (Hlast Hvariadic) as [-> _].
      rewrite Hopt in Hvariadic. apply recorded_option_Variadic in Hvariadic as [Hv _].
      split; [lia | done].
    + intros Hv. split; intros j fp Hfp Hchar.
      * destruct (Hin j fp Hfp) as (-> & _). rewrite Hchar.
        by apply recorded_option_ignores_Variadic.
      * destruct (Hout j fp Hfp) as (-> & _). rewrite Hchar.
        by apply recorded_option_ignores_Variadic.
Qed.

Lemma create_schema_variadic_last_witness :
  (create_schema "test" variadic_first_v14 2 1).1 = Throw input_variadic_msg.
Proof.
  destruct (create_schema_variadic_last "test" variadic_first_v14) as [Hin _].
  apply Hin.
  - vm_compute. discriminate.
  - exists 0. split; [simpl; lia | reflexivity].
Defined.

(** C8, as stated, fails for a descriptor of version 13: it marks its first
    of two inputs variadic, and schema creation succeeds, recording both
    inputs as Single. *)
Lemma variadic_first_v13_not_rejected :
  GetInputCharacteristic variadic_first_v13 0 = INPUT_OUTPUT_VARIADIC
  ∧ 0 ≠ GetInputTypeCount variadic_first_v13 - 1
  ∧ ∃ schema undefined calls,
      create_schema "test" variadic_first_v13
        (GetInputTypeCount variadic_first_v13) (GetOutputTypeCount variadic_first_v13)
        = (Ok (schema, undefined), calls)
      ∧ GetOption <$> inputs schema = [Single; Single].
Proof.
  split; [reflexivity |]. split; [simpl; lia |].
  eexists _, _, _. split; [vm_compute; reflexivity | reflexivity].
Qed.

(** *** Which plugin functions are called *)

Lemma calls_bind {A B} (m : W A) (f : A → W B) (c : PluginCall) :
  c ∈ (m ≫= f).2 → c ∈ m.2 ∨ ∃ a, m.1 = Ok a ∧ c ∈ (f a).2.
Proof.
  unfold mbind, W_bind. destruct m as [[a | s | e] calls]; simpl; [| tauto | tauto].
  rewrite elem_of_app. intros [Hc | Hc]; [by left | right; by exists a].
Qed.

Lemma calls_for_range {St} (body : nat → St → W St) (n start : nat) (st : St)
    (c : PluginCall) :
  c ∈ (for_range start n body st).2 →
  ∃ i s, start <= i < start + n ∧ c ∈ (body i s).2.
Proof.
  revert start st. induction n as [| n IH]; intros start st; simpl.
  - intros Hc. by apply elem_of_nil in Hc.
  - intros [Hc | (st' & _ & Hc)]%calls_bind.
    + exists start, st. split; [lia | done].
    + apply IH in Hc as (i & s & Hi & Hc). exists i, s. split; [lia | done].
Qed.

(** A loop that succeeds has run every iteration, and the calls of each are
    among its calls. *)
Lemma for_range_Ok_calls {St} (body : nat → St → W St) (n start : nat) (st st' : St)
    (calls : list PluginCall) (i : nat) :
  for_range start n body st = (Ok st', calls) →
  start <= i < start + n →
  ∃ s s' c, body i s = (Ok s', c) ∧ c ⊆ calls.
Proof.
  revert start st calls. induction n as [| n IH]; intros start st calls Hrun Hi; [lia |].
  simpl in Hrun. apply W_bind_Ok in Hrun as (st1 & c1 & c2 & Hbody & Hrest & ->).
  destruct (decide (i = start)) as [-> | Hne].
  - exists st, st1, c1. split; [done |]. intros x Hx. apply elem_of_app. by left.
  - destruct (IH (S start) st1 c2 Hrest) as (s & s' & c & Hb & Hsub); [lia |].
    exists s, s', c. split; [done |]. intros x Hx. apply elem_of_app. right. by apply Hsub.
Qed.

Lemma calls_call {A} (c' : PluginCall) (a : A) (c : PluginCall) :
  c ∈ (call c' a).2 → c = c'.
Proof. simpl. by intros ?%list_elem_of_singleton. Qed.

Lemma calls_ret {A} (a : A) (c : PluginCall) : c ∈ (mret a : W A).2 → False.
Proof. simpl. apply not_elem_of_nil. Qed.

Lemma calls_ENFORCE (cond : bool) (msg : string) (c : PluginCall) :
  c ∈ (ORT_ENFORCE cond msg).2 → False.
Proof. unfold ORT_ENFORCE. destruct cond; apply not_elem_of_nil. Qed.

Lemma calls_RETURN_IF_NOT (cond : bool) (msg : string) (c : PluginCall) :
  c ∈ (ORT_RETURN_IF_NOT cond msg).2 → False.
Proof. unfold ORT_RETURN_IF_NOT. destruct cond; apply not_elem_of_nil. Qed.

(** Trace a call back to the statement that made it. *)
Ltac calls_inv H :=
  repeat (cbv beta in H;
          lazymatch type of H with
          | _ ∈ (_ ≫= _).2 =>
              let Heq := fresh "Heq" in apply calls_bind in H as [H | (? & Heq & H)]
          | _ ∈ (call _ _).2 => apply calls_call in H
          | _ ∈ (@mret W _ _ _).2 => destruct (calls_ret _ _ H)
          | _ ∈ (ORT_ENFORCE _ _).2 => destruct (calls_ENFORCE _ _ _ H)
          | _ ∈ (ORT_RETURN_IF_NOT _ _).2 => destruct (calls_RETURN_IF_NOT _ _ _ H)
          | _ ∈ (if decide ?P then _ else _).2 => destruct (decide P)
          | _ ∈ (let '(_, _) := ?x in _).2 => destruct x
          | _ ∈ (for_range _ _ _ _).2 =>
              let Hi := fresh "Hi" in apply calls_for_range in H as (? & ? & Hi & H)
          end).

(** The plugin calls one iteration of the input loop can make. *)
Lemma create_schema_input_calls (op : OrtCustomOp) (input_count i : nat)
    (st : OpSchema * nat) (c : PluginCall) :
  c ∈ (create_schema_input op input_count i st).2 →
  c = Call_GetInputType i
  ∨ (min_ort_version_with_optional_io_support <= version op)%N
    ∧ c = Call_GetInputCharacteristic i
  ∨ (min_ort_version_with_variadic_io_support <= version op)%N
    ∧ GetInputCharacteristic op i = INPUT_OUTPUT_VARIADIC
    ∧ (c = Call_GetVariadicInputMinArity ∨ c = Call_GetVariadicInputHomogeneity).
Proof.
  destruct st as [schema undefined].
  unfold create_schema_input, input_characteristics. intros Hc.
  calls_inv Hc; simplify_eq/=; tauto.
Qed.

(** The plugin calls one iteration of the output loop can make. *)
Lemma create_schema_output_calls (op : OrtCustomOp) (output_count undefined i : nat)
    (schema : OpSchema) (c : PluginCall) :
  c ∈ (create_schema_output op output_count undefined i schema).2 →
  c = Call_GetOutputType i
  ∨ (min_ort_version_with_optional_io_support <= version op)%N
    ∧ c = Call_GetOutputCharacteristic i
  ∨ ONNX_TENSOR_ELEMENT_DATA_TYPE_UNDEFINED = GetOutputType op i
    ∧ c = Call_GetOutputCharacteristic i
  ∨ (min_ort_version_with_variadic_io_support <= version op)%N
    ∧ GetOutputCharacteristic op i = INPUT_OUTPUT_VARIADIC
    ∧ (c = Call_GetVariadicOutputMinArity ∨ c = Call_GetVariadicOutputHomogeneity).
Proof.
  unfold create_schema_output, output_characteristics. intros Hc.
  calls_inv Hc; simplify_eq/=; intuition congruence.
Qed.

(** Schema creation asks for an input characteristic only from version 8 on,
    and for an output characteristic only from version 8 on or when the
    output's type is undefined; it asks for the variadic minimum arity and
    homogeneity only from version 14 on. *)
Lemma create_schema_calls (domain_ : string) (op : OrtCustomOp)
    (input_count output_count : nat) (c : PluginCall) :
  c ∈ (create_schema domain_ op input_count output_count).2 →
  (∀ i, c = Call_GetInputCharacteristic i →
        (min_ort_version_with_optional_io_support <= version op)%N)
  ∧ (∀ j, c = Call_GetOutputCharacteristic j →
          (min_ort_version_with_optional_io_support <= version op)%N
          ∨ ONNX_TENSOR_ELEMENT_DATA_TYPE_UNDEFINED = GetOutputType op j)
  ∧ (c ∈ [Call_GetVariadicInputMinArity; Call_GetVariadicInputHomogeneity;
          Call_GetVariadicOutputMinArity; Call_GetVariadicOutputHomogeneity] →
     (min_ort_version_with_variadic_io_support <= version op)%N)
  ∧ (∀ i, c ≠ Call_GetInputMemoryType i).
Proof.
  unfold create_schema. intros Hc.
  apply calls_bind in Hc as [Hc | (name & _ & Hc)].
  { apply calls_call in Hc as ->. repeat split; try done.
    intros Hin. repeat (apply elem_of_cons in Hin as [Hin | Hin]; [done |]).
    by apply elem_of_nil in Hin. }
  apply calls_bind in Hc as [Hc | ([schema undefined] & _ & Hc)].
  { apply calls_for_range in Hc as (i & st & _ & Hc).
    apply create_schema_input_calls in Hc
      as [-> | [[Hv ->] | (Hv & _ & [-> | ->])]]; repeat split; try done.
    all: intros Hin; repeat (apply elem_of_cons in Hin as [Hin | Hin]; [done |]).
    all: by apply elem_of_nil in Hin. }
  apply calls_bind in Hc as [Hc | (schema' & _ & Hc)]; [| destruct (calls_ret _ _ Hc)].
  apply calls_for_range in Hc as (i & st & _ & Hc).
  apply create_schema_output_calls in Hc
    as [-> | [[Hv ->] | [[Hty ->] | (Hv & _ & [-> | ->])]]]; repeat split; try done.
  all: try (intros j [= <-]; tauto).
  all: intros Hin; repeat (apply elem_of_cons in Hin as [Hin | Hin]; [done |]).
  all: by apply elem_of_nil in Hin.
Qed.

Lemma check_consistency_calls (schema : OpSchema) (op : OrtCustomOp)
    (input_count output_count : nat) (c : PluginCall) :
  c ∈ (check_consistency schema op input_count output_count).2 →
  ∀ i, c ≠ Call_GetInputMemoryType i.
Proof.
  unfold check_consistency, check_input, check_output. intros Hc i ->.
  calls_inv Hc; discriminate.
Qed.

(** The loop of lines 583-585 asks for the memory type of every input. *)
Lemma add_input_memory_types (op : OrtCustomOp) (n start : nat) (def_builder : KernelDef) :
  ∃ def_builder',
    for_range start n (add_input_memory_type op) def_builder
    = (Ok def_builder', Call_GetInputMemoryType <$> seq start n).
Proof.
  revert start def_builder. induction n as [| n IH]; intros start def_builder.
  - by exists def_builder.
  - destruct (IH (S start)
                (KernelDefBuilder.InputMemoryType (GetInputMemoryType op start) start
                   def_builder)) as [d' Hd'].
    exists d'. cbn [for_range seq fmap list_fmap].
    erewrite W_bind_run by reflexivity.
    cbn [fst snd]. by rewrite Hd'.
Qed.

(** The kernel definition is built without failure; GetInputMemoryType is
    called for input [i] exactly when the version exceeds 12. *)
Lemma build_kernel_create_info_memory_type (domain_ : string) (op : OrtCustomOp)
    (input_count output_count undefined : nat)
    (type_map : gmap string (list OnnxTypeVec)) (i : nat) :
  Call_GetInputMemoryType i
    ∈ (build_kernel_create_info domain_ op input_count output_count undefined type_map).2
  ↔ (12 < version op)%N ∧ i < input_count.
Proof.
  split.
  - unfold build_kernel_create_info, add_input_memory_type, add_template_constraint,
      add_input_type, add_output_type.
    intros Hc. calls_inv Hc; try discriminate. simplify_eq. split; [done | lia].
  - unfold build_kernel_create_info. intros [Hv Hlt].
    erewrite W_bind_run by reflexivity. cbn [fst snd call].
    erewrite W_bind_run by reflexivity. cbn [fst snd call].
    rewrite decide_True by done.
    match goal with
    | |- context [for_range 0 input_count (add_input_memory_type op) ?d] =>
        destruct (add_input_memory_types op input_count 0 d) as [d' Hd']
    end.
    erewrite W_bind_run by exact Hd'.
    cbn [fst snd]. apply elem_of_app. right. apply elem_of_app. right.
    apply elem_of_app. left.
    apply list_elem_of_fmap. exists i. split; [done |]. apply elem_of_seq. lia.
Qed.

(** X5.  Whatever the version, a schema is only created after the output
    characteristic of every output of undefined type has been asked for
    (line 494). *)
Lemma create_schema_undefined_output_queried (domain_ : string) (op : OrtCustomOp)
    (input_count output_count : nat) (r : OpSchema * nat) (calls : list PluginCall)
    (j : nat) :
  create_schema domain_ op input_count output_count = (Ok r, calls) →
  j < output_count →
  ONNX_TENSOR_ELEMENT_DATA_TYPE_UNDEFINED = GetOutputType op j →
  Call_GetOutputCharacteristic j ∈ calls.
Proof.
  unfold create_schema. intros Hrun Hj Hty.
  apply W_bind_Ok in Hrun as (name & c1 & c2 & _ & Hrun & ->).
  apply W_bind_Ok in Hrun as ([schema1 undefined] & c3 & c4 & _ & Hrun & ->).
  apply W_bind_Ok in Hrun as (schema2 & c5 & c6 & Houtputs & _ & ->).
  apply elem_of_app. right. apply elem_of_app. right. apply elem_of_app. left.
  destruct (for_range_Ok_calls _ _ _ _ _ _ j Houtputs) as (s & s' & c & Hbody & Hsub);
    [lia |].
  apply Hsub. unfold create_schema_output in Hbody.
  apply W_bind_Ok in Hbody as ([[o h] a] & c7 & c8 & _ & Hbody & ->).
  apply W_bind_Ok in Hbody as (type & c9 & c10 & Htype & Hbody & ->).
  apply call_Ok in Htype as [<- ->].
  rewrite decide_True in Hbody by done.
  apply W_bind_Ok in Hbody as (characteristic & c11 & c12 & Hchar & _ & ->).
  apply call_Ok in Hchar as [_ ->].
  apply elem_of_app. right. apply elem_of_cons. right. apply elem_of_cons. by left.
Qed.

(** X9.  For a descriptor that is processed without failure, GetInputMemoryType
    is called for input [i] if and only if the version exceeds 12. *)
Lemma prepare_custom_op_memory_type (domain_ : string) (op : OrtCustomOp)
    (schema_map : gmap string OpSchema) (type_map : gmap string (list OnnxTypeVec))
    (r : gmap string OpSchema * gmap string (list OnnxTypeVec) * KernelCreateInfo)
    (calls : list PluginCall) (i : nat) :
  prepare_custom_op domain_ op schema_map type_map = (Ok r, calls) →
  Call_GetInputMemoryType i ∈ calls ↔ (12 < version op)%N ∧ i < GetInputTypeCount op.
Proof.
  unfold prepare_custom_op. intros Hrun.
  apply W_bind_Ok in Hrun as (ic & c1 & c2 & Hic & Hrun & ->).
  apply call_Ok in Hic as [<- ->].
  apply W_bind_Ok in Hrun as (oc & c3 & c4 & Hoc & Hrun & ->).
  apply call_Ok in Hoc as [<- ->].
  apply W_bind_Ok in Hrun as (name & c5 & c6 & Hname & Hrun & ->).
  apply call_Ok in Hname as [<- ->].
  apply W_bind_Ok in Hrun as ([[sm tm] undefined] & c7 & c8 & Hbranch & Hrun & ->).
  apply W_bind_Ok in Hrun as ([create_info tm'] & c9 & c10 & Hbuild & Hret & ->).
  apply W_ret_Ok in Hret as [_ ->].
  pose proof (build_kernel_create_info_memory_type domain_ op (GetInputTypeCount op)
                (GetOutputTypeCount op) undefined tm i) as Hmem.
  rewrite Hbuild in Hmem. cbn [snd] in Hmem.
  rewrite !elem_of_app, !list_elem_of_singleton, elem_of_nil, <- Hmem.
  split; [| tauto].
  intros [? | [? | [? | [Hc | [Hc | []]]]]]; try discriminate; [| done].
  exfalso.
  destruct (schema_map !! GetName op) as [schema |].
  - apply W_bind_Ok in Hbranch as ([] & c11 & c12 & Hcheck & Hret & ->).
    apply W_ret_Ok in Hret as [_ ->]. rewrite app_nil_r in Hc.
    eapply (check_consistency_calls schema op _ _ _); [| reflexivity].
    rewrite Hcheck. exact Hc.
  - apply W_bind_Ok in Hbranch as (name & c11 & c12 & Hname & Hbranch & ->).
    apply call_Ok in Hname as [_ ->].
    apply W_bind_Ok in Hbranch as ([schema u] & c13 & c14 & Hcreate & Hret & ->).
    apply W_ret_Ok in Hret as [_ ->]. rewrite app_nil_r in Hc.
    apply elem_of_cons in Hc as [? | Hc]; [discriminate |].
    eapply (create_schema_calls domain_ op _ _ _); [| reflexivity].
    rewrite Hcreate. exact Hc.
Qed.

(** X4.  Below version 14 every formal parameter is recorded as homogeneous with
    minimum arity 1 and never as Variadic; below version 8 it is recorded as
    Single. *)
Lemma create_schema_below_thresholds (domain_ : string) (op : OrtCustomOp)
    (input_count output_count : nat) (schema : OpSchema) (undefined : nat)
    (calls : list PluginCall) (fp : FormalParameter) :
  create_schema domain_ op input_count output_count = (Ok (schema, undefined), calls) →
  fp ∈ inputs schema ++ outputs schema →
  (version op < min_ort_version_with_variadic_io_support)%N →
  GetOption fp ≠ Variadic ∧ GetIsHomogeneous fp = true ∧ GetMinArity fp = 1%Z
  ∧ ((version op < min_ort_version_with_optional_io_support)%N → GetOption fp = Single).
Proof.
  intros Hrun Hfp Hv.
  apply create_schema_Ok in Hrun as (_ & _ & _ & Hin & Hout & _).
  assert (∃ c, GetOption fp = recorded_option (version op) c
               ∧ (GetOption fp ≠ Variadic →
                  GetIsHomogeneous fp = true ∧ GetMinArity fp = 1%Z))
    as (c & Hopt & Hdefault).
  { apply elem_of_app in Hfp as [Hfp | Hfp];
      apply list_elem_of_lookup in Hfp as [j Hj].
    - destruct (Hin j fp Hj) as (Ho & _ & Hd & _). eauto.
    - destruct (Hout j fp Hj) as (Ho & _ & Hd & _). eauto. }
  assert (GetOption fp ≠ Variadic) as Hnv.
  { rewrite Hopt. intros [Hv' _]%recorded_option_Variadic. lia. }
  destruct (Hdefault Hnv) as [Hh Ha]. repeat split; try done.
  intros Hv8. rewrite Hopt. unfold recorded_option. by rewrite decide_False by lia.
Qed.

(** ** CUDA notifications *)

Lemma split_snoc {A} (h : list A) (e : A) (h1 : list A) (x : A) (h2 : list A) :
  h ++ [e] = h1 ++ x :: h2 →
  (∃ h2', h = h1 ++ x :: h2' ∧ h2 = h2' ++ [e]) ∨ (h1 = h ∧ x = e ∧ h2 = []).
Proof.
  destruct h2 as [| y h2 _] using rev_ind; intros Heq.
  - apply app_inj_tail in Heq as [-> ->]. by right.
  - left. exists h2. change (h1 ++ x :: h2 ++ [y]) with (h1 ++ (x :: h2) ++ [y]) in Heq.
    rewrite app_assoc in Heq. apply app_inj_tail in Heq as [-> ->]. done.
Qed.

Lemma invariant_start (n0 : CudaNotification) (calls : list MemberCall) :
  ready_ n0 = false → invariant n0 calls (start n0 calls).
Proof.
  intros Hready. split; simpl; try done.
  - rewrite <- list_fmap_compose. rewrite <- (list_fmap_id calls) at 2.
    apply list_fmap_ext. by intros i [] _.
  - rewrite Hready. split; [done |]. intros (tid & _ & Hin). by apply elem_of_nil in Hin.
  - intros tid th Hth. apply list_lookup_fmap_Some in Hth as (c & -> & _). by destruct c.
  - intros h1 tid a h2 Heq. by destruct h1.
Qed.

Lemma thread_ok_mono (n0 : CudaNotification) (h h' : list (nat * Action))
    (tid : nat) (th : Thread) :
  thread_ok n0 h tid th → thread_ok n0 (h ++ h') tid th.
Proof.
  destruct th as [[] | ds [] | []]; simpl; try done;
    rewrite ?elem_of_app; tauto.
Qed.

(** A statement that keeps the thread inside its member function, performs at
    most one action that is justified by the history, and changes the flag only
    by a store of [true], preserves the invariant. *)
Lemma invariant_extend (n0 : CudaNotification) (calls : list MemberCall) (s : System)
    (tid : nat) (th th' : Thread) (n' : CudaNotification) (acts : list Action) :
  invariant n0 calls s →
  threads s !! tid = Some th →
  member th' = member th →
  stream n' = stream (notification s) →
  event_ n' = event_ (notification s) →
  length acts <= 1 →
  (∀ a, acts = [a] → justified n0 calls (history s) tid a) →
  (ready_ n' = ready_ (notification s) ∧ ready_store true ∉ acts
   ∨ ready_ n' = true ∧ acts = [ready_store true]) →
  thread_ok n0 (history s ++ ((λ a, (tid, a)) <$> acts)) tid th' →
  invariant n0 calls
    {| notification := n';
       threads := <[tid := th']> (threads s);
       history := history s ++ ((λ a, (tid, a)) <$> acts) |}.
Proof.
  intros [Hstream Hevent Hmembers Hready Hthreads Hhistory]
    Hth Hmember Hstream' Hevent' Hlen Hjust Hflag Hok.
  assert (calls !! tid = Some (member th)) as Hcall.
  { rewrite <- Hmembers, list_lookup_fmap, Hth. done. }
  split; simpl.
  - congruence.
  - congruence.
  - rewrite list_fmap_insert, Hmember, Hmembers. by apply list_insert_id.
  - destruct Hflag as [[Hsame Hnostore] | [Htrue ->]].
    + rewrite Hsame, Hready. split; intros (tid' & Hc & Hin); exists tid'; split; try done.
      * apply elem_of_app. by left.
      * apply elem_of_app in Hin as [Hin | Hin]; [done |].
        apply list_elem_of_fmap in Hin as (a & [= <- <-] & Ha). done.
    + split; [| done]. intros _. exists tid.
      destruct (Hjust _ eq_refl) as (_ & Hc & _).
      split; [done |]. apply elem_of_app. right. simpl. by constructor.
  - intros tid' th'' Hlookup.
    destruct (decide (tid = tid')) as [<- | Hne].
    + rewrite list_lookup_insert_eq in Hlookup by (by eapply lookup_lt_Some).
      by simplify_eq.
    + rewrite list_lookup_insert_ne in Hlookup by done.
      by apply thread_ok_mono, Hthreads.
  - intros h1 tid' a h2 Heq.
    destruct acts as [| a0 [| a1 acts]]; simpl in *; [| | lia].
    + rewrite app_nil_r in Heq. by eapply Hhistory.
    + apply split_snoc in Heq as [(h2' & Heq & _) | (-> & [= -> ->] & _)].
      * by eapply Hhistory.
      * by apply Hjust.
Qed.

Lemma step_Some (s : System) (tid : nat) (result : cudaError_t) (th : Thread) :
  threads s !! tid = Some th →
  step s (tid, result) =
    {| notification := (step_thread (notification s) result th).1.1;
       threads := <[tid := (step_thread (notification s) result th).1.2]> (threads s);
       history := history s
                  ++ ((λ a, (tid, a)) <$> (step_thread (notification s) result th).2) |}.
Proof.
  intros Hth. unfold step. rewrite Hth.
  by destruct (step_thread (notification s) result th) as [[n' th'] acts].
Qed.

(** Apply [invariant_extend] to the statement at hand and discharge the
    obligations that hold by computation; what remains is that the action is
    justified and that the thread's new control point is accounted for. *)
Ltac extend_invariant Hinv Hth :=
  lazymatch goal with
  | |- invariant ?n0 ?calls
         {| notification := ?n'; threads := <[?tid := ?th']> (threads ?s);
            history := _ ++ ((λ a, (_, a)) <$> ?acts) |} =>
      apply (invariant_extend n0 calls s tid _ th' n' acts Hinv Hth);
      [ by repeat case_decide
      | reflexivity
      | reflexivity
      | simpl; lia
      | intros ? [= <-]; cbn [justified]
      | first [ right; split; reflexivity
              | left; split; [reflexivity |];
                intros Hstore; simpl in Hstore;
                repeat (apply elem_of_cons in Hstore as [Hstore | Hstore];
                        [discriminate |]);
                by apply elem_of_nil in Hstore ]
      | cbn [thread_ok fmap list_fmap] ]
  end.

Ltac silent_step Hinv Hth Hok :=
  lazymatch goal with
  | |- invariant ?n0 ?calls
         {| notification := ?n'; threads := <[?tid := ?th']> (threads ?s);
            history := _ ++ ((λ a, (_, a)) <$> []) |} =>
      apply (invariant_extend n0 calls s tid _ th' n' [] Hinv Hth);
      [ by repeat case_decide | reflexivity | reflexivity | simpl; lia
      | intros ? [=]
      | left; split; [reflexivity | apply not_elem_of_nil]
      | simpl; rewrite ?app_nil_r; repeat case_decide;
        first [exact Hok | exact I | assumption] ]
  end.

Lemma invariant_step (n0 : CudaNotification) (calls : list MemberCall) (s : System)
    (choice : nat * cudaError_t) :
  invariant n0 calls s → invariant n0 calls (step s choice).
Proof.
  intros Hinv. destruct choice as [tid result].
  destruct (threads s !! tid) as [th |] eqn:Hth; [| unfold step; by rewrite Hth].
  rewrite (step_Some s tid result th Hth).
  pose proof (inv_threads _ _ _ Hinv tid th Hth) as Hok.
  pose proof (inv_event _ _ _ Hinv) as Hevent.
  pose proof (inv_stream _ _ _ Hinv) as Hstream.
  assert (calls !! tid = Some (member th)) as Hcall.
  { rewrite <- (inv_members _ _ _ Hinv), list_lookup_fmap, Hth. done. }
  assert (∀ (a : Action) (h : list (nat * Action)), (tid, a) ∈ h ++ [(tid, a)]) as Hlast.
  { intros a h. apply elem_of_app. right. by constructor. }
  destruct th as [pc | device_stream pc | pc]; destruct pc;
    cbn [step_thread step_Activate step_wait_on_device step_wait_on_host fst snd member]
      in *.
  - (* Activate: cudaEventRecord *)
    extend_invariant Hinv Hth.
    + by rewrite Hevent, Hstream.
    + case_decide; [| done]. subst result. rewrite Hevent, Hstream. apply Hlast.
  - (* Activate: ready_.store(true) *)
    extend_invariant Hinv Hth; [| apply Hlast].
    split; [done |]. split; [done | exact Hok].
  - silent_step Hinv Hth Hok.
  - silent_step Hinv Hth Hok.
  - (* wait_on_device: ORT_ENFORCE on the provider type *)
    silent_step Hinv Hth Hok.
  - (* wait_on_device: ready_.load() *)
    extend_invariant Hinv Hth.
    + intros Hready. by apply (inv_ready_stored _ _ _ Hinv).
    + destruct (ready_ (notification s)); (split; [exact Hok | apply Hlast]).
  - (* wait_on_device: SpinPause *)
    extend_invariant Hinv Hth; by destruct Hok.
  - (* wait_on_device: cudaStreamWaitEvent *)
    destruct Hok as [Hprovider Hloaded]. extend_invariant Hinv Hth.
    + exists device_stream. by rewrite Hevent.
    + case_decide; [| done]. subst result. rewrite Hevent. apply Hlast.
  - silent_step Hinv Hth Hok.
  - silent_step Hinv Hth Hok.
  - (* wait_on_host: ready_.load() *)
    extend_invariant Hinv Hth.
    + intros Hready. by apply (inv_ready_stored _ _ _ Hinv).
    + destruct (ready_ (notification s)); apply Hlast.
  - (* wait_on_host: SpinPause *)
    extend_invariant Hinv Hth; done.
  - (* wait_on_host: cudaEventSynchronize *)
    extend_invariant Hinv Hth.
    + by rewrite Hevent.
    + case_decide; [| done]. subst result. rewrite Hevent. apply Hlast.
  - silent_step Hinv Hth Hok.
  - silent_step Hinv Hth Hok.
Qed.

Lemma invariant_run (n0 : CudaNotification) (calls : list MemberCall) (s : System)
    (schedule : list (nat * cudaError_t)) :
  invariant n0 calls s → invariant n0 calls (run s schedule).
Proof.
  revert s. induction schedule as [| choice schedule IH]; intros s Hinv; [done |].
  simpl. by apply IH, invariant_step.
Qed.

Lemma CudaNotification_new_Ok (s0 : Stream) (created : cudaError_t * nat)
    (n0 : CudaNotification) :
  CudaNotification_new s0 created = Ok n0 →
  ready_ n0 = false ∧ stream n0 = s0 ∧ event_ n0 = created.2 ∧ created.1 = cudaSuccess.
Proof.
  unfold CudaNotification_new. case_decide; [| done]. by intros [= <-].
Qed.

Lemma reachable_invariant (s0 : Stream) (created : cudaError_t * nat)
    (n0 : CudaNotification) (calls : list MemberCall)
    (schedule : list (nat * cudaError_t)) :
  CudaNotification_new s0 created = Ok n0 →
  invariant n0 calls (run (start n0 calls) schedule).
Proof.
  intros Hnew%CudaNotification_new_Ok. apply invariant_run, invariant_start. tauto.
Qed.

(** C5.  A notification that the constructor returns has its flag false.
    Under any interleaving of calls on it: every store to the flag stores
    true, is performed inside Activate, and comes after that call's
    successful cudaEventRecord of the notification's event on the owning
    stream; and once a call to Activate has returned, the flag is true.  A
    single call run on its own performs exactly the record and then the
    store. *)
Theorem Activate_records_then_stores (s0 : Stream) (created : cudaError_t * nat)
    (n0 : CudaNotification) (calls : list MemberCall)
    (schedule : list (nat * cudaError_t)) :
  CudaNotification_new s0 created = Ok n0 →
  ready_ n0 = false
  ∧ (∀ h1 tid b h2,
       history (run (start n0 calls) schedule) = h1 ++ (tid, ready_store b) :: h2 →
       b = true
       ∧ calls !! tid = Some Call_Activate
       ∧ (tid, cudaEventRecord (event_ n0) (handle s0) cudaSuccess) ∈ h1)
  ∧ (∀ tid,
       threads (run (start n0 calls) schedule) !! tid = Some (In_Activate Activate_returned) →
       ready_ (notification (run (start n0 calls) schedule)) = true)
  ∧ run (start n0 [Call_Activate]) [(0, cudaSuccess); (0, cudaSuccess)]
    = {| notification := set_ready n0 true;
         threads := [In_Activate Activate_returned];
         history := [(0, cudaEventRecord (event_ n0) (handle s0) cudaSuccess);
                     (0, ready_store true)] |}.
Proof.
  intros Hnew.
  pose proof (reachable_invariant s0 created n0 calls schedule Hnew) as Hinv.
  apply CudaNotification_new_Ok in Hnew as (Hready & <- & _).
  split; [done |]. split; [| split].
  - intros h1 tid b h2 Heq. by apply (inv_history _ _ _ Hinv) in Heq.
  - intros tid Hth.
    apply (inv_ready_stored _ _ _ Hinv). exists tid.
    split.
    + rewrite <- (inv_members _ _ _ Hinv), list_lookup_fmap, Hth. done.
    + by apply (inv_threads _ _ _ Hinv) in Hth.
  - reflexivity.
Qed.

Lemma Activate_records_then_stores_witness :
  CudaNotification_new producer_stream (cudaSuccess, 7) = Ok fresh_notification
  ∧ ready_ fresh_notification = false.
Proof.
  split; [reflexivity |].
  exact (proj1 (Activate_records_then_stores producer_stream (cudaSuccess, 7)
                  fresh_notification [Call_Activate] [] eq_refl)).
Defined.

(** *** What each call has done *)

Lemma run_snoc (s : System) (schedule : list (nat * cudaError_t))
    (choice : nat * cudaError_t) :
  run s (schedule ++ [choice]) = step (run s schedule) choice.
Proof. unfold run. by rewrite foldl_app. Qed.

Lemma actions_of_app (tid : nat) (h h' : list (nat * Action)) :
  actions_of tid (h ++ h') = actions_of tid h ++ actions_of tid h'.
Proof. unfold actions_of. by rewrite filter_app, fmap_app. Qed.

Lemma actions_of_own (tid : nat) (acts : list Action) :
  actions_of tid ((λ a, (tid, a)) <$> acts) = acts.
Proof.
  unfold actions_of. induction acts as [| a acts IH]; [done |].
  rewrite fmap_cons, filter_cons_True by done. rewrite fmap_cons. simpl. by f_equal.
Qed.

Lemma actions_of_other (tid tid' : nat) (acts : list Action) :
  tid ≠ tid' → actions_of tid' ((λ a, (tid, a)) <$> acts) = [].
Proof.
  intros Hne. unfold actions_of. induction acts as [| a acts IH]; [done |].
  rewrite fmap_cons, filter_cons_False by done. done.
Qed.

Lemma trace_step (n0 : CudaNotification) (calls : list MemberCall) (s : System)
    (choice : nat * cudaError_t) :
  invariant n0 calls s →
  (∀ tid th, threads s !! tid = Some th →
             trace_of n0 th (actions_of tid (history s))) →
  ∀ tid th, threads (step s choice) !! tid = Some th →
            trace_of n0 th (actions_of tid (history (step s choice))).
Proof.
  intros Hinv Htrace. destruct choice as [tid0 result].
  destruct (threads s !! tid0) as [th0 |] eqn:Hth0;
    [| unfold step; rewrite Hth0; exact Htrace].
  rewrite (step_Some s tid0 result th0 Hth0). cbn [threads history].
  intros tid th Hth. rewrite actions_of_app.
  destruct (decide (tid0 = tid)) as [<- | Hne].
  - rewrite list_lookup_insert_eq in Hth by (by eapply lookup_lt_Some).
    injection Hth as <-. rewrite actions_of_own.
    pose proof (Htrace tid0 th0 Hth0) as Hold.
    pose proof (inv_event _ _ _ Hinv) as Hevent.
    pose proof (inv_stream _ _ _ Hinv) as Hstream.
    pose proof (inv_threads _ _ _ Hinv tid0 th0 Hth0) as Hok.
    destruct th0 as [pc | device_stream pc | pc]; destruct pc;
      cbn [step_thread step_Activate step_wait_on_device step_wait_on_host
           fst snd trace_of thread_ok] in *;
      rewrite ?Hevent, ?Hstream, ?app_nil_r.
    + rewrite Hold. case_decide; subst; simpl; [done | by exists result].
    + by rewrite Hold.
    + done.
    + done.
    + rewrite Hold. case_decide; subst; simpl; [by exists 0 | by left].
    + destruct Hold as [k ->]. destruct (ready_ (notification s)); by exists k.
    + destruct Hold as [k ->]. exists (S k). simpl. by rewrite <- app_assoc.
    + destruct Hold as [k ->]. rewrite <- app_assoc.
      case_decide; subst; simpl; [by exists k | right; by exists k, result].
    + done.
    + done.
    + destruct Hold as [k ->]. destruct (ready_ (notification s)); by exists k.
    + destruct Hold as [k ->]. exists (S k). simpl. by rewrite <- app_assoc.
    + destruct Hold as [k ->]. rewrite <- app_assoc.
      case_decide; subst; simpl; [by exists k | by exists k, result].
    + done.
    + done.
  - rewrite list_lookup_insert_ne in Hth by done.
    rewrite actions_of_other, app_nil_r by done. by apply Htrace.
Qed.

(** C4.  Under any interleaving of calls on a notification: whenever a
    thread has issued cudaStreamWaitEvent, it did so inside wait_on_device on
    a stream of the CUDA provider, for that stream and the notification's
    event, after it loaded the flag as true, which in turn was after an
    Activate call stored true.  A wait_on_device call first checks the
    provider type of the consumer stream (and throws if it is not the CUDA
    provider); when it loads the flag as false it pauses and loads again,
    without any other effect; when it loads it as true it issues
    cudaStreamWaitEvent and returns; and no thread inside wait_on_device ever
    calls cudaEventSynchronize.  Every call of wait_on_device starts at the
    check of the provider type, and at any moment the actions it has
    performed are exactly: rounds of a load that found the flag false
    followed by a pause, then one load that found it true, then one
    cudaStreamWaitEvent on the consumer's stream and the notification's
    event, after which it has returned (or thrown, if that call failed); a
    call that has returned has issued that cudaStreamWaitEvent as its last
    action, and the flag is true. *)
Theorem wait_on_device_after_ready (s0 : Stream) (created : cudaError_t * nat)
    (n0 : CudaNotification) (calls : list MemberCall)
    (schedule : list (nat * cudaError_t)) :
  CudaNotification_new s0 created = Ok n0 →
  let s := run (start n0 calls) schedule in
  (∀ h1 tid sh ev r h2,
     history s = h1 ++ (tid, cudaStreamWaitEvent sh ev r) :: h2 →
     ∃ device_stream h0 h0' tid',
       calls !! tid = Some (Call_wait_on_device device_stream)
       ∧ provider_Type device_stream = kCudaExecutionProvider
       ∧ sh = handle device_stream ∧ ev = event_ n0
       ∧ h1 = h0 ++ (tid, ready_load true) :: h0'
       ∧ calls !! tid' = Some Call_Activate
       ∧ (tid', ready_store true) ∈ h0)
  ∧ (∀ tid device_stream r,
       threads s !! tid = Some (In_wait_on_device device_stream wait_on_device_enforce) →
       threads (step s (tid, r)) !! tid
         = Some (In_wait_on_device device_stream
                   (if decide (provider_Type device_stream = kCudaExecutionProvider)
                    then wait_on_device_load else wait_on_device_thrown))
       ∧ history (step s (tid, r)) = history s)
  ∧ (∀ tid device_stream r1 r2,
       threads s !! tid = Some (In_wait_on_device device_stream wait_on_device_load) →
       ready_ (notification s) = false →
       threads (run s [(tid, r1); (tid, r2)]) !! tid
         = Some (In_wait_on_device device_stream wait_on_device_load)
       ∧ history (run s [(tid, r1); (tid, r2)])
         = history s ++ [(tid, ready_load false); (tid, SpinPause)]
       ∧ notification (run s [(tid, r1); (tid, r2)]) = notification s)
  ∧ (∀ tid device_stream r1,
       threads s !! tid = Some (In_wait_on_device device_stream wait_on_device_load) →
       ready_ (notification s) = true →
       threads (run s [(tid, r1); (tid, cudaSuccess)]) !! tid
         = Some (In_wait_on_device device_stream wait_on_device_returned)
       ∧ history (run s [(tid, r1); (tid, cudaSuccess)])
         = history s ++ [(tid, ready_load true);
                         (tid, cudaStreamWaitEvent (handle device_stream) (event_ n0)
                                 cudaSuccess)])
  ∧ (∀ tid device_stream a,
       calls !! tid = Some (Call_wait_on_device device_stream) →
       (tid, a) ∈ history s →
       ∀ ev r, a ≠ cudaEventSynchronize ev r)
  ∧ (∀ tid device_stream,
       calls !! tid = Some (Call_wait_on_device device_stream) →
       threads (start n0 calls) !! tid
         = Some (In_wait_on_device device_stream wait_on_device_enforce)
       ∧ ∃ pc,
           threads s !! tid = Some (In_wait_on_device device_stream pc)
           ∧ trace_of n0 (In_wait_on_device device_stream pc)
               (actions_of tid (history s))
           ∧ (pc = wait_on_device_returned → ready_ (notification s) = true)).
Proof.
  intros Hnew s.
  pose proof (reachable_invariant s0 created n0 calls schedule Hnew) as Hinv.
  fold s in Hinv. split; [| split; [| split; [| split; [| split]]]]; cycle 5.
  { intros tid ds Hcall. split.
    { unfold start. cbn [threads]. by rewrite list_lookup_fmap, Hcall. }
    assert (∀ tid th, threads s !! tid = Some th →
                      trace_of n0 th (actions_of tid (history s))) as Htrace.
    { subst s. clear Hinv tid ds Hcall.
      induction schedule as [| choice schedule IH] using rev_ind.
      - intros tid th Hth. simpl in Hth.
        apply list_lookup_fmap_Some in Hth as (c & -> & _).
        destruct c; simpl; try done; by exists 0.
      - rewrite run_snoc. apply (trace_step n0 calls); [| exact IH].
        by eapply reachable_invariant. }
    pose proof Hcall as Hth. rewrite <- (inv_members _ _ _ Hinv) in Hth.
    apply list_lookup_fmap_Some in Hth as (th & Hmember & Hth).
    destruct th as [pc | ds' pc | pc]; simpl in Hmember; try discriminate.
    injection Hmember as ->. exists pc.
    split; [done |]. split; [by apply Htrace |].
    intros ->. pose proof (inv_threads _ _ _ Hinv _ _ Hth) as Hwait. simpl in Hwait.
    apply list_elem_of_split in Hwait as (h1 & h2 & Heq).
    pose proof (inv_history _ _ _ Hinv _ _ _ _ Heq) as (ds0 & _ & _ & _ & _ & Hload).
    apply list_elem_of_split in Hload as (h0 & h0' & ->).
    rewrite <- app_assoc in Heq. simpl in Heq.
    pose proof (inv_history _ _ _ Hinv _ _ _ _ Heq eq_refl) as (tid' & Hact & Hstore).
    apply (inv_ready_stored _ _ _ Hinv). exists tid'. split; [done |].
    rewrite Heq. apply elem_of_app. by left. }
  - intros h1 tid sh ev r h2 Heq.
    pose proof (inv_history _ _ _ Hinv _ _ _ _ Heq) as (ds & Hcall & Hprov & -> & -> & Hload).
    apply list_elem_of_split in Hload as (h0 & h0' & ->).
    rewrite <- app_assoc in Heq. simpl in Heq.
    pose proof (inv_history _ _ _ Hinv _ _ _ _ Heq eq_refl) as (tid' & Hact & Hstore).
    by exists ds, h0, h0', tid'.
  - intros tid ds r Hth. rewrite (step_Some s tid r _ Hth). simpl.
    rewrite app_nil_r. split; [| done].
    apply list_lookup_insert_eq. by eapply lookup_lt_Some.
  - intros tid ds r1 r2 Hth Hready.
    change (run s [(tid, r1); (tid, r2)]) with (step (step s (tid, r1)) (tid, r2)).
    rewrite (step_Some s tid r1 _ Hth).
    erewrite step_Some
      by (cbn [threads]; apply list_lookup_insert_eq; by eapply lookup_lt_Some).
    simpl. rewrite Hready. simpl. rewrite list_insert_insert_eq, <- app_assoc.
    split; [| done]. apply list_lookup_insert_eq. by eapply lookup_lt_Some.
  - intros tid ds r1 Hth Hready.
    change (run s [(tid, r1); (tid, cudaSuccess)])
      with (step (step s (tid, r1)) (tid, cudaSuccess)).
    rewrite (step_Some s tid r1 _ Hth).
    erewrite step_Some
      by (cbn [threads]; apply list_lookup_insert_eq; by eapply lookup_lt_Some).
    simpl. rewrite Hready. simpl.
    rewrite list_insert_insert_eq, <- app_assoc, (inv_event _ _ _ Hinv).
    split; [| done]. apply list_lookup_insert_eq. by eapply lookup_lt_Some.
  - intros tid ds a Hcall Hin ev r ->.
    apply list_elem_of_split in Hin as (h1 & h2 & Heq).
    pose proof (inv_history _ _ _ Hinv _ _ _ _ Heq) as (Hhost & _).
    congruence.
Qed.

Lemma wait_on_device_after_ready_witness :
  CudaNotification_new producer_stream (cudaSuccess, 7) = Ok fresh_notification
  ∧ threads (run (run (start fresh_notification
                         [Call_Activate; Call_wait_on_device consumer_stream])
                      wait_then_activate)
                 [(1, cudaSuccess); (1, cudaSuccess)]) !! 1
    = Some (In_wait_on_device consumer_stream wait_on_device_returned)
  ∧ history (run (run (start fresh_notification
                         [Call_Activate; Call_wait_on_device consumer_stream])
                      wait_then_activate)
                 [(1, cudaSuccess); (1, cudaSuccess)])
    = history (run (start fresh_notification
                      [Call_Activate; Call_wait_on_device consumer_stream])
                   wait_then_activate)
      ++ [(1, ready_load true); (1, cudaStreamWaitEvent 2 7 cudaSuccess)]
  ∧ trace_of fresh_notification
      (In_wait_on_device consumer_stream wait_on_device_load)
      (actions_of 1
         (history (run (start fresh_notification
                          [Call_Activate; Call_wait_on_device consumer_stream])
                       wait_then_activate))).
Proof.
  split; [reflexivity |].
  destruct (wait_on_device_after_ready producer_stream (cudaSuccess, 7)
              fresh_notification [Call_Activate; Call_wait_on_device consumer_stream]
              wait_then_activate eq_refl) as (_ & _ & _ & Hdone & _ & Hcall).
  destruct (Hdone 1 consumer_stream cudaSuccess) as [Hth Hhistory];
    [reflexivity | reflexivity |].
  split; [exact Hth |]. split; [exact Hhistory |].
  destruct (Hcall 1 consumer_stream eq_refl) as (_ & pc & Hpc & Htrace & _).
  injection Hpc as <-. exact Htrace.
Defined.

(** ** Registration of whole domains *)

(** *** The consistency check *)

Lemma returns_FAIL_only_bind {A B} (m : W A) (f : A → W B) :
  returns_FAIL_only m → (∀ a, returns_FAIL_only (f a)) → returns_FAIL_only (m ≫= f).
Proof.
  unfold returns_FAIL_only, mbind, W_bind. destruct m as [[a | s | e] c]; simpl; try done.
  intros _ Hf. apply Hf.
Qed.

Lemma returns_FAIL_only_for_range {St} (body : nat → St → W St) (n start : nat) (st : St) :
  (∀ i s, returns_FAIL_only (body i s)) → returns_FAIL_only (for_range start n body st).
Proof.
  intros Hbody. revert start st. induction n as [| n IH]; intros start st; simpl.
  - done.
  - apply returns_FAIL_only_bind; [apply Hbody | intros a; apply IH].
Qed.

Lemma returns_FAIL_only_RETURN_IF_NOT (cond : bool) (msg : string) :
  returns_FAIL_only (ORT_RETURN_IF_NOT cond msg).
Proof. unfold returns_FAIL_only, ORT_RETURN_IF_NOT. destruct cond; simpl; eauto. Qed.

Ltac returns :=
  repeat first
    [ apply returns_FAIL_only_RETURN_IF_NOT
    | apply returns_FAIL_only_bind; [| intros ?]
    | apply returns_FAIL_only_for_range; intros ? ?
    | match goal with
      | |- returns_FAIL_only (if decide ?P then _ else _) => destruct (decide P)
      end
    | exact I ].

Lemma check_consistency_returns (schema : OpSchema) (op : OrtCustomOp)
    (input_count output_count : nat) :
  returns_FAIL_only (check_consistency schema op input_count output_count).
Proof. unfold check_consistency, check_input, check_output. returns. Qed.

Lemma check_input_Ok (op : OrtCustomOp) (input_parameters : list FormalParameter)
    (i : nat) (u u' : unit) (calls : list PluginCall) (fp : FormalParameter) :
  check_input op input_parameters i u = (Ok u', calls) →
  input_parameters !! i = Some fp →
  checked_against op (GetInputCharacteristic op i) fp.
Proof.
  unfold check_input. intros Hrun Hfp.
  rewrite (list_lookup_total_correct _ _ _ Hfp) in Hrun.
  inv_W. unfold checked_against.
  destruct (GetInputCharacteristic op i); simpl in *; inv_W; done.
Qed.

Lemma check_output_Ok (op : OrtCustomOp) (output_parameters : list FormalParameter)
    (i : nat) (u u' : unit) (calls : list PluginCall) (fp : FormalParameter) :
  check_output op output_parameters i u = (Ok u', calls) →
  output_parameters !! i = Some fp →
  checked_against op (GetOutputCharacteristic op i) fp.
Proof.
  unfold check_output. intros Hrun Hfp.
  rewrite (list_lookup_total_correct _ _ _ Hfp) in Hrun.
  inv_W. unfold checked_against.
  destruct (GetOutputCharacteristic op i); simpl in *; inv_W; done.
Qed.

(** What a descriptor that passes the consistency check agrees on with the
    existing schema. *)
Lemma check_consistency_Ok (schema : OpSchema) (op : OrtCustomOp)
    (input_count output_count : nat) (u : unit) (calls : list PluginCall) :
  check_consistency schema op input_count output_count = (Ok u, calls) →
  length (inputs schema) = input_count
  ∧ length (outputs schema) = output_count
  ∧ (∀ i fp, inputs schema !! i = Some fp →
             checked_against op (GetInputCharacteristic op i) fp)
  ∧ (∀ i fp, outputs schema !! i = Some fp →
             checked_against op (GetOutputCharacteristic op i) fp).
Proof.
  unfold check_consistency. intros Hrun.
  apply W_bind_Ok in Hrun as ([] & c1 & c2 & Hin_count & Hrun & ->).
  apply ORT_RETURN_IF_NOT_Ok in Hin_count as [Hin_count%bool_decide_eq_true _].
  apply W_bind_Ok in Hrun as ([] & c3 & c4 & Hin & Hrun & ->).
  apply W_bind_Ok in Hrun as ([] & c5 & c6 & Hout_count & Hout & ->).
  apply ORT_RETURN_IF_NOT_Ok in Hout_count as [Hout_count%bool_decide_eq_true _].
  split; [done |]. split; [done |]. split.
  - intros i fp Hfp.
    destruct (for_range_Ok_calls _ _ _ _ _ _ i Hin) as ([] & [] & c & Hbody & _).
    { apply lookup_lt_Some in Hfp. lia. }
    by eapply check_input_Ok.
  - intros i fp Hfp.
    destruct (for_range_Ok_calls _ _ _ _ _ _ i Hout) as ([] & [] & c & Hbody & _).
    { apply lookup_lt_Some in Hfp. lia. }
    by eapply check_output_Ok.
Qed.

(** A later descriptor whose counts or option kinds differ from the schema
    makes the check return a FAIL status. *)
Lemma check_consistency_rejects (schema : OpSchema) (op : OrtCustomOp)
    (input_count output_count : nat) :
  length (inputs schema) ≠ input_count
  ∨ length (outputs schema) ≠ output_count
  ∨ (∃ i fp, inputs schema !! i = Some fp
             ∧ GetOption fp ≠ expected_option (GetInputCharacteristic op i))
  ∨ (∃ i fp, outputs schema !! i = Some fp
             ∧ GetOption fp ≠ expected_option (GetOutputCharacteristic op i)) →
  ∃ msg, (check_consistency schema op input_count output_count).1
         = Return (MakeStatus FAIL msg).
Proof.
  intros Hdiff.
  pose proof (check_consistency_returns schema op input_count output_count) as Hret.
  unfold returns_FAIL_only in Hret.
  destruct (check_consistency schema op input_count output_count)
    as [[[] | s | e] calls] eqn:Hrun;
    simpl in *; [| by destruct Hret as [msg ->]; exists msg | done].
  apply check_consistency_Ok in Hrun as (Hic & Hoc & Hin & Hout).
  destruct Hdiff as [? | [? | [(i & fp & Hfp & Hne) | (i & fp & Hfp & Hne)]]]; try done.
  - by destruct (Hin i fp Hfp) as [? _].
  - by destruct (Hout i fp Hfp) as [? _].
Qed.

(** A disagreement on the option kind is detected: the second descriptor of
    [option_domain] makes CreateCustomRegistry return a FAIL status; no
    operator set is registered, while the kernel of the first descriptor is
    already in the registry under construction. *)
Lemma option_kind_mismatch_rejected :
  (CreateCustomRegistry (R := ListRegistry) (order := key_order) [option_domain] ∅).1.1
    = Return (MakeStatus FAIL
                "custom op schemas mismatch, expecting 1st input to be of single type")
  ∧ opsets (output (CreateCustomRegistry (R := ListRegistry) (order := key_order)
        [option_domain] ∅).1.2) = []
  ∧ length (kernels (output (CreateCustomRegistry (R := ListRegistry) (order := key_order)
                               [option_domain] ∅).1.2)) = 1.
Proof. repeat split; vm_compute; reflexivity. Qed.

(** C2 fails on the code.  Two descriptors named "Foo" in one domain disagree
    on the homogeneity of their variadic input (the schema each would create
    on its own records true resp. false), yet CreateCustomRegistry returns
    OK, registers both kernels and hands the schema of the first to
    RegisterOpSet: the input check compares against
    GetVariadicOutputHomogeneity. *)
Theorem homogeneity_mismatch_accepted :
  GetIsHomogeneous <$> inputs (create_schema_result "test" variadic_homogeneous) = [true]
  ∧ GetIsHomogeneous <$> inputs (create_schema_result "test" variadic_heterogeneous) = [false]
  ∧ (CreateCustomRegistry (R := ListRegistry) (order := key_order) [variadic_domain] ∅).1.1 = Ok ()
  ∧ length (kernels (output (CreateCustomRegistry (R := ListRegistry) (order := key_order)
                               [variadic_domain] ∅).1.2)) = 2
  ∧ (λ schema, GetOption <$> inputs schema) <$> registered_schemas variadic_domain
    = [[Variadic]]
  ∧ (λ schema, GetIsHomogeneous <$> inputs schema) <$> registered_schemas variadic_domain
    = [[true]].
Proof. repeat split; vm_compute; reflexivity. Qed.

(** C7 fails on the code.  Registering a version-7 descriptor with a
    templated output calls GetOutputCharacteristic; registering a second
    version-7 descriptor under an existing name calls
    GetInputCharacteristic, GetOutputCharacteristic,
    GetVariadicOutputHomogeneity and GetVariadicInputMinArity. *)
Theorem legacy_descriptor_queried :
  version legacy_templated = 7%N
  ∧ (CreateCustomRegistry (R := ListRegistry) (order := key_order)
        [legacy_templated_domain] ∅).1.1 = Ok ()
  ∧ (CreateCustomRegistry (R := ListRegistry) (order := key_order) [legacy_templated_domain] ∅).2
    = [Call_GetInputTypeCount; Call_GetOutputTypeCount; Call_GetName;
       Call_GetName; Call_GetName; Call_GetInputType 0;
       Call_GetOutputType 0; Call_GetOutputCharacteristic 0; Call_GetName;
       Call_GetName; Call_GetInputType 0; Call_GetName;
       Call_GetOutputType 0; Call_GetName; Call_GetExecutionProviderType]
  ∧ version legacy_int64 = 7%N
  ∧ (CreateCustomRegistry (R := ListRegistry) (order := key_order)
        [legacy_pair_domain] ∅).1.1 = Ok ()
  ∧ (CreateCustomRegistry (R := ListRegistry) (order := key_order) [legacy_pair_domain] ∅).2
    = (prepare_custom_op "test" legacy_float ∅ ∅).2
      ++ [Call_GetInputTypeCount; Call_GetOutputTypeCount; Call_GetName;
          Call_GetInputCharacteristic 0;
          Call_GetVariadicOutputHomogeneity; Call_GetVariadicInputMinArity;
          Call_GetOutputCharacteristic 0; Call_GetVariadicOutputHomogeneity;
          Call_GetVariadicInputMinArity; Call_GetName; Call_GetName;
          Call_GetInputType 0; Call_GetName; Call_GetOutputType 0;
          Call_GetName; Call_GetExecutionProviderType].
Proof. repeat split; vm_compute; reflexivity. Qed.

(** ** The inference function *)

(** The "Foo" example: with the bindings (float, float) -> float and
    (int64, int64) -> int64, float inputs give a float output, int64 inputs
    an int64 output, and double inputs leave the output as it was. *)
Lemma infer_fn_Foo :
  inference_type_vecs <$> registered_schemas foo_domain
    = [Some [[1; 1; 1]; [7; 7; 7]]%Z]
  ∧ getOutputType (infer_fn [[1; 1; 1]; [7; 7; 7]]%Z (node_types [1; 1]%Z)) = [Some 1%Z]
  ∧ getOutputType (infer_fn [[1; 1; 1]; [7; 7; 7]]%Z (node_types [7; 7]%Z)) = [Some 7%Z]
  ∧ infer_fn [[1; 1; 1]; [7; 7; 7]]%Z (node_types [11; 11]%Z) = node_types [11; 11]%Z.
Proof. repeat split; vm_compute; reflexivity. Qed.

Lemma match_inputs_resolve (type_vec input_types : OnnxTypeVec) (n i : nat)
    (undef : ONNXTensorElementDataType)
    (resolved : option ONNXTensorElementDataType) :
  Forall (λ t, t ≠ ONNX_TENSOR_ELEMENT_DATA_TYPE_UNDEFINED) input_types →
  wildcards_agree input_types type_vec →
  i + n = length input_types →
  length input_types <= length type_vec →
  related type_vec input_types i undef resolved →
  match resolve_wildcards (drop i type_vec) (drop i input_types) resolved with
  | Some resolved' =>
      match_inputs type_vec input_types i n undef
        = (true, default ONNX_TENSOR_ELEMENT_DATA_TYPE_UNDEFINED resolved')
  | None => (match_inputs type_vec input_types i n undef).1 = false
  end.
Proof.
  intros Hconcrete Hagree. revert i undef resolved.
  induction n as [| n IH]; intros i undef resolved Hlen Hle Hrel.
  - rewrite (drop_ge input_types) by lia. simpl.
    destruct resolved as [t |]; simpl in *; [by destruct Hrel as [-> _] | by subst].
  - destruct (lookup_lt_is_Some_2 input_types i) as [supplied Hs]; [lia |].
    destruct (lookup_lt_is_Some_2 type_vec i) as [entry He]; [lia |].
    rewrite (drop_S _ _ _ Hs), (drop_S _ _ _ He).
    cbn [resolve_wildcards match_inputs].
    rewrite (list_lookup_total_correct _ _ _ Hs), (list_lookup_total_correct _ _ _ He).
    assert (supplied ≠ ONNX_TENSOR_ELEMENT_DATA_TYPE_UNDEFINED) as Hsup.
    { eapply (Forall_lookup_1 _ _ _ _ Hconcrete Hs). }
    rewrite (decide_False (P := ONNX_TENSOR_ELEMENT_DATA_TYPE_UNDEFINED = supplied)) by done.
    destruct (decide (entry = ONNX_TENSOR_ELEMENT_DATA_TYPE_UNDEFINED)) as [-> | Hentry].
    + rewrite decide_True by done.
      destruct resolved as [t |].
      * destruct Hrel as (-> & j & Hj & Htj & Hsj).
        rewrite (decide_True (P := t = supplied))
          by (by eapply (Hagree j i)).
        assert (t = supplied) as -> by (by eapply (Hagree j i)).
        apply IH; [lia | lia |]. split; [done |]. exists j. split; [lia | done].
      * apply IH; [lia | lia |]. split; [done |]. exists i. split; [lia | done].
    + rewrite (decide_False (P := ONNX_TENSOR_ELEMENT_DATA_TYPE_UNDEFINED = entry)) by done.
      destruct (decide (entry = supplied)) as [-> | Hne].
      * rewrite decide_False by (by intros []).
        apply IH; [lia | lia |].
        destruct resolved as [t |]; [| done].
        destruct Hrel as (-> & j & Hj & Hrest). split; [done |]. exists j. split; [lia | done].
      * rewrite decide_True by done. done.
Qed.

Lemma fmap_seq_lookup_total {A B} `{Inhabited A} (f : A → B) (l : list A) (ni m : nat) :
  length l = ni + m →
  (λ i, f (l !!! i)) <$> seq ni m = f <$> drop ni l.
Proof.
  intros Hlen. apply list_eq. intros k.
  rewrite !list_lookup_fmap, lookup_drop.
  destruct (decide (k < m)) as [Hk | Hk].
  - rewrite lookup_seq_lt by done. simpl.
    destruct (lookup_lt_is_Some_2 l (ni + k)) as [x Hx]; [lia |].
    by rewrite Hx, (list_lookup_total_correct _ _ _ Hx).
  - rewrite lookup_seq_ge by lia. rewrite lookup_ge_None_2 by lia. done.
Qed.

Lemma foldl_set_outputs (g : nat → option ONNXTensorElementDataType)
    (ins outs : list (option ONNXTensorElementDataType)) (ni m : nat) :
  m <= length outs →
  foldl (λ ctx i, {| getInputType := getInputType ctx;
                     getOutputType := <[i - ni := g i]> (getOutputType ctx) |})
        {| getInputType := ins; getOutputType := outs |} (seq ni m)
  = {| getInputType := ins; getOutputType := (g <$> seq ni m) ++ drop m outs |}.
Proof.
  induction m as [| m IH]; intros Hm; [done |].
  rewrite seq_S, foldl_snoc, IH by lia. simpl. f_equal.
  rewrite fmap_app. simpl. rewrite <- app_assoc. simpl.
  replace (ni + m - ni) with (length (g <$> seq ni m) + 0)
    by (rewrite length_fmap, length_seq; lia).
  rewrite insert_app_r.
  destruct (lookup_lt_is_Some_2 outs m) as [x Hx]; [lia |].
  by rewrite (drop_S _ _ _ Hx).
Qed.

Lemma set_output_types_all (type_vec : OnnxTypeVec) (num_inputs : nat)
    (undef : ONNXTensorElementDataType)
    (ins outs : list (option ONNXTensorElementDataType)) :
  length type_vec = num_inputs + length outs →
  set_output_types type_vec num_inputs undef {| getInputType := ins; getOutputType := outs |}
  = {| getInputType := ins;
       getOutputType :=
         (λ entry, Some (if decide (ONNX_TENSOR_ELEMENT_DATA_TYPE_UNDEFINED = entry)
                         then undef else entry))
           <$> drop num_inputs type_vec |}.
Proof.
  intros Hlen. unfold set_output_types.
  replace (length type_vec - num_inputs) with (length outs) by lia.
  rewrite (foldl_set_outputs
             (λ i, Some (if decide (ONNX_TENSOR_ELEMENT_DATA_TYPE_UNDEFINED = type_vec !!! i)
                         then undef else type_vec !!! i)))
    by done.
  rewrite drop_all, app_nil_r. f_equal.
  exact (fmap_seq_lookup_total
           (λ entry : ONNXTensorElementDataType,
              Some (if decide (ONNX_TENSOR_ELEMENT_DATA_TYPE_UNDEFINED = entry)
                    then undef else entry))
           type_vec num_inputs (length outs) Hlen).
Qed.

Lemma collect_input_types_concrete (input_types : OnnxTypeVec)
    (outs : list (option ONNXTensorElementDataType)) :
  collect_input_types {| getInputType := Some <$> input_types; getOutputType := outs |}
  = input_types.
Proof.
  unfold collect_input_types. simpl. rewrite <- list_fmap_compose.
  rewrite <- (list_fmap_id input_types) at 2. by apply list_fmap_ext.
Qed.

(** On concrete input types, and as long as the wildcard positions of every
    binding are supplied one type, the inference function computes what the
    specification's rule says: the outputs of the first matching binding, or
    nothing on NoMatch. *)
Theorem infer_fn_refines_Infer (type_vecs : list OnnxTypeVec) (input_types : OnnxTypeVec)
    (outs : list (option ONNXTensorElementDataType)) :
  Forall (λ t, t ≠ ONNX_TENSOR_ELEMENT_DATA_TYPE_UNDEFINED) input_types →
  Forall (wildcards_agree input_types) type_vecs →
  infer_fn type_vecs {| getInputType := Some <$> input_types; getOutputType := outs |}
  = {| getInputType := Some <$> input_types;
       getOutputType :=
         match Infer type_vecs input_types (length outs) with
         | Some output_types => Some <$> output_types
         | None => outs
         end |}.
Proof.
  intros Hconcrete Hagree. unfold infer_fn, getNumInputs, getNumOutputs.
  rewrite collect_input_types_concrete. cbn [getInputType getOutputType].
  rewrite length_fmap.
  induction Hagree as [| type_vec type_vecs Hag _ IH]; [done |].
  cbn [scan_type_vecs Infer].
  destruct (decide (length type_vec = length input_types + length outs)) as [Hlen | Hlen].
  - rewrite decide_False by (by intros []).
    pose proof (match_inputs_resolve type_vec input_types (length input_types) 0
                  ONNX_TENSOR_ELEMENT_DATA_TYPE_UNDEFINED None Hconcrete Hag eq_refl
                  ltac:(lia) eq_refl) as Hsim.
    rewrite !drop_0 in Hsim.
    destruct (resolve_wildcards type_vec input_types None) as [resolved |].
    + rewrite Hsim. rewrite set_output_types_all by done. f_equal.
      unfold propagate. rewrite <- list_fmap_compose. apply list_fmap_ext.
      intros k entry _. simpl. by repeat case_decide.
    + destruct (match_inputs type_vec input_types 0 (length input_types)
                  ONNX_TENSOR_ELEMENT_DATA_TYPE_UNDEFINED) as [b undef].
      simpl in Hsim. subst b. apply IH.
  - rewrite decide_True by done. apply IH.
Qed.

(** C1 fails on the code.  The descriptor "Select" registers; its schema
    gives the inputs the type variables T0 and T1 and the output T0, and its
    one binding is all wildcards.  For the inputs (float, int64) the two
    wildcard positions resolve to different types, yet the binding matches
    and the output is set to int64, the type of the last wildcard input. *)
Theorem inconsistent_wildcards_matched :
  (CreateCustomRegistry (R := ListRegistry) (order := key_order) [select_domain] ∅).1.1 = Ok ()
  ∧ (λ schema, GetTypeStr <$> inputs schema) <$> registered_schemas select_domain
    = [["T0"; "T1"]]
  ∧ (λ schema, GetTypeStr <$> outputs schema) <$> registered_schemas select_domain = [["T0"]]
  ∧ inference_type_vecs <$> registered_schemas select_domain = [Some [[0; 0; 0]]%Z]
  ∧ infer_fn [[0; 0; 0]]%Z
      (node_types [ONNX_TENSOR_ELEMENT_DATA_TYPE_FLOAT; ONNX_TENSOR_ELEMENT_DATA_TYPE_INT64])
    = {| getInputType := [Some ONNX_TENSOR_ELEMENT_DATA_TYPE_FLOAT;
                          Some ONNX_TENSOR_ELEMENT_DATA_TYPE_INT64];
         getOutputType := [Some ONNX_TENSOR_ELEMENT_DATA_TYPE_INT64] |}.
Proof. repeat split; vm_compute; reflexivity. Qed.

(** ** Instances of the version gates *)

Lemma prepare_custom_op_memory_type_witness :
  Call_GetInputMemoryType 1 ∈ (prepare_custom_op "test" foo_float ∅ ∅).2.
Proof.
  assert (∃ r calls, prepare_custom_op "test" foo_float ∅ ∅ = (Ok r, calls))
    as (r & calls & Hrun) by (eexists (_, _, _), _; vm_compute; reflexivity).
  rewrite Hrun.
  apply (prepare_custom_op_memory_type "test" foo_float ∅ ∅ r calls 1 Hrun).
  split; [reflexivity | simpl; lia].
Defined.

Lemma create_schema_below_thresholds_witness :
  ∃ fp, inputs (create_schema_result "test" variadic_first_v13) !! 0 = Some fp
        ∧ GetOption fp ≠ Variadic ∧ GetIsHomogeneous fp = true
        ∧ GetMinArity fp = 1%Z.
Proof.
  exists {| GetName_fp := "Input0"; GetDescription := ""; GetTypeStr := "Input0";
            GetOption := Single; GetIsHomogeneous := true; GetMinArity := 1 |}.
  split; [reflexivity |].
  destruct (create_schema_below_thresholds "test" variadic_first_v13 2 1
              (create_schema_result "test" variadic_first_v13) 0
              (create_schema "test" variadic_first_v13 2 1).2
              {| GetName_fp := "Input0"; GetDescription := ""; GetTypeStr := "Input0";
                 GetOption := Single; GetIsHomogeneous := true; GetMinArity := 1 |}
              eq_refl) as (Hoption & Hhomogeneous & Harity & _).
  - vm_compute. by left.
  - reflexivity.
  - by repeat split.
Defined.

Lemma create_schema_undefined_output_queried_witness :
  (version legacy_templated < min_ort_version_with_optional_io_support)%N
  ∧ Call_GetOutputCharacteristic 0 ∈ (create_schema "test" legacy_templated 1 1).2.
Proof.
  split; [reflexivity |].
  apply (create_schema_undefined_output_queried "test" legacy_templated 1 1
           (create_schema_result "test" legacy_templated, 1)
           (create_schema "test" legacy_templated 1 1).2 0);
    [reflexivity | lia | reflexivity].
Defined.

(** ** String attributes *)

Lemma memcpy_all {T} (out src : list T) :
  length src <= length out →
  memcpy out src (length src) = src ++ drop (length src) out.
Proof. intros _. unfold memcpy. by rewrite firstn_all. Qed.

Lemma insert_length_app {T} (x y : T) (l k : list T) :
  <[length l := x]> (l ++ y :: k) = l ++ x :: k.
Proof.
  replace (length l) with (length l + 0) by lia. by rewrite insert_app_r.
Qed.

Lemma zero_terminated_length_app (bytes rest : list byte) :
  x00 ∉ bytes →
  zero_terminated_length (bytes ++ x00 :: rest) = Some (length bytes).
Proof.
  induction bytes as [| b bytes IH]; intros Hnot; cbn [app zero_terminated_length].
  - by rewrite decide_True.
  - apply not_elem_of_cons in Hnot as [Hb Hnot].
    rewrite decide_False by done. by rewrite IH.
Qed.

Lemma zero_terminated_length_None (nativeUtf8 : list byte) :
  zero_terminated_length nativeUtf8 = None ↔ x00 ∉ nativeUtf8.
Proof.
  induction nativeUtf8 as [| b bytes IH]; cbn [zero_terminated_length].
  - split; [intros _; apply not_elem_of_nil | done].
  - rewrite not_elem_of_cons. destruct (decide (b = x00)) as [-> | Hb].
    + split; [done | by intros [? _]].
    + rewrite fmap_None, IH. split; [by intros | by intros [_ ?]].
Qed.

Section StringAttributeFacts.
Context {OpKernelInfo OrtStatus : Type}.
Variable ToOrtStatus : Status -> option OrtStatus.
Variable CreateStatus : OrtErrorCode -> string -> option OrtStatus.
Variable GetAttr_string : OpKernelInfo -> string -> Status * list byte.

(** X1.  The string accessor.  When the attribute lookup fails, its status is
    returned and neither the buffer nor the size is touched.  Otherwise the
    size is always set to the length of the value plus one for the
    terminating zero: a null buffer only reports it; a buffer announced as
    shorter yields the error and is left as it was; a buffer that is large
    enough receives the characters of the value followed by a zero, and the
    bytes behind the zero keep their contents. *)
Theorem KernelInfoGetAttribute_string_two_phase (info : OpKernelInfo) (name : string)
    (status : Status) (value : list byte) :
  GetAttr_string info name = (status, value) →
  let query := KernelInfoGetAttribute_string OpKernelInfo OrtStatus ToOrtStatus
                 CreateStatus GetAttr_string info name in
  (IsOK status = false → ∀ out size, query out size = (ToOrtStatus status, out, size))
  ∧ (IsOK status = true →
     (∀ size, query None size = (None, None, length value + 1))
     ∧ (∀ buf size, size < length value + 1 →
          query (Some buf) size =
            (CreateStatus ORT_INVALID_ARGUMENT "Result buffer is not large enough",
             Some buf, length value + 1))
     ∧ (∀ buf size, length value + 1 <= size → size <= length buf →
          query (Some buf) size =
            (None, Some (value ++ x00 :: drop (length value + 1) buf),
             length value + 1))).
Proof.
  intros Hattr query. unfold query, KernelInfoGetAttribute_string. rewrite Hattr.
  split; [by intros -> |]. intros ->. split; [done |]. split.
  - intros buf size Hsmall. by rewrite decide_False by lia.
  - intros buf size Hfits Hbuf. rewrite decide_True by done.
    rewrite memcpy_all by lia. do 3 f_equal.
    destruct (lookup_lt_is_Some_2 buf (length value)) as [b Hb]; [lia |].
    rewrite (drop_S _ _ _ Hb), insert_length_app. by rewrite Nat.add_1_r.
Qed.
End StringAttributeFacts.

Lemma KernelInfoGetAttribute_string_two_phase_witness :
  KernelInfoGetAttribute_string unit Status (λ s, Some s) (λ _ msg, Some (MakeStatus FAIL msg))
    (λ _ _, (Status_OK, [x68; x69])) () "mode" (Some [x01; x02; x03; x04]) 3
  = (None, Some [x68; x69; x00; x04], 3).
Proof.
  destruct (KernelInfoGetAttribute_string_two_phase
              (λ s, Some s) (λ _ msg, Some (MakeStatus FAIL msg))
              (λ _ _, (Status_OK, [x68; x69])) () "mode" Status_OK [x68; x69] eq_refl)
    as (_ & Hok).
  destruct (Hok eq_refl) as (_ & _ & Hcopy).
  apply (Hcopy [x01; x02; x03; x04] 3); simpl; lia.
Defined.

(** ** Managed strings *)

Section ManagedStringFacts.
Context {ManagedString : Type}.
Variable GetByteCount : ManagedString -> nat.
Variable GetBytes : ManagedString -> list byte.
Variable GetString : list byte -> ManagedString.

Lemma StringToZeroTerminatedUtf8_Returned (s : ManagedString) :
  StringToZeroTerminatedUtf8 ManagedString GetByteCount GetBytes s
  = if decide (GetByteCount s = length (GetBytes s))
    then Returned (GetBytes s ++ [x00])
    else Thrown (if decide (length (GetBytes s) <= GetByteCount s + 1)
                 then "Failed to convert to UTF8" else "ArgumentException").
Proof.
  unfold StringToZeroTerminatedUtf8. rewrite length_replicate.
  destruct (decide (GetByteCount s = length (GetBytes s))) as [Heq | Hne].
  - rewrite decide_True by lia. rewrite decide_False by (intros Hne; by apply Hne).
    rewrite memcpy_all by (rewrite length_replicate; lia).
    rewrite Heq, drop_replicate. replace (length (GetBytes s) + 1 - length (GetBytes s)) with 1 by lia.
    simpl. rewrite length_app. simpl.
    replace (length (GetBytes s) + 1 - 1) with (length (GetBytes s)) by lia.
    by rewrite insert_length_app.
  - destruct (decide (length (GetBytes s) <= GetByteCount s + 1)); [| done].
    by rewrite decide_True.
Qed.

Lemma StringFromNativeUtf8_reads (before rest : list byte) :
  x00 ∉ before →
  StringFromNativeUtf8 ManagedString GetString (before ++ x00 :: rest)
  = Some (GetString before).
Proof.
  intros Hnot. unfold StringFromNativeUtf8.
  rewrite zero_terminated_length_app by done. simpl.
  unfold memcpy. rewrite drop_replicate, Nat.sub_diag. simpl.
  by rewrite app_nil_r, take_app_length, firstn_all.
Qed.

(** X24.  StringToZeroTerminatedUtf8 returns exactly when the encoder's byte count
    is the number of bytes it writes, and then the result is those bytes
    followed by one zero.  Reading the result back with StringFromNativeUtf8,
    whatever follows it in memory, decodes the bytes before the first zero:
    a string whose encoding has no zero byte comes back whenever decoding
    inverts encoding on it, and one with a zero byte is cut there. *)
Theorem StringFromNativeUtf8_round_trip (s : ManagedString) :
  GetByteCount s = length (GetBytes s) →
  StringToZeroTerminatedUtf8 ManagedString GetByteCount GetBytes s
  = Returned (GetBytes s ++ [x00])
  ∧ (∀ rest, x00 ∉ GetBytes s →
       StringFromNativeUtf8 ManagedString GetString (GetBytes s ++ [x00] ++ rest)
       = Some (GetString (GetBytes s)))
  ∧ (∀ rest, x00 ∉ GetBytes s → GetString (GetBytes s) = s →
       StringFromNativeUtf8 ManagedString GetString (GetBytes s ++ [x00] ++ rest) = Some s)
  ∧ (∀ before after rest, GetBytes s = before ++ x00 :: after → x00 ∉ before →
       StringFromNativeUtf8 ManagedString GetString (GetBytes s ++ [x00] ++ rest)
       = Some (GetString before)).
Proof.
  intros Hcount.
  split; [| split; [| split]].
  - rewrite StringToZeroTerminatedUtf8_Returned. by rewrite decide_True.
  - intros rest Hnot. by apply StringFromNativeUtf8_reads.
  - intros rest Hnot Hinv. rewrite <- Hinv at 2. by apply StringFromNativeUtf8_reads.
  - intros before after rest -> Hnot. rewrite <- app_assoc. simpl.
    by apply StringFromNativeUtf8_reads.
Qed.

(** X25.  Reading a native string.  When the memory holds no zero byte the loop
    runs off its end.  Otherwise both readers decode the bytes before the
    first zero, StringAndUtf8FromNative returns in addition a copy of those
    bytes followed by one zero, and reading that copy gives the same
    string. *)
Theorem StringAndUtf8FromNative_copy (nativeUtf8 : list byte) :
  (x00 ∉ nativeUtf8 →
   StringAndUtf8FromNative ManagedString GetString nativeUtf8 = None
   ∧ StringFromNativeUtf8 ManagedString GetString nativeUtf8 = None)
  ∧ (∀ bytes rest, nativeUtf8 = bytes ++ x00 :: rest → x00 ∉ bytes →
       StringAndUtf8FromNative ManagedString GetString nativeUtf8
       = Some (GetString bytes, bytes ++ [x00])
       ∧ StringFromNativeUtf8 ManagedString GetString nativeUtf8 = Some (GetString bytes)
       ∧ StringFromNativeUtf8 ManagedString GetString (bytes ++ [x00])
         = Some (GetString bytes)).
Proof.
  split.
  - intros Hnot%zero_terminated_length_None.
    unfold StringAndUtf8FromNative, StringFromNativeUtf8. by rewrite Hnot.
  - intros bytes rest -> Hnot. split; [| split; by apply StringFromNativeUtf8_reads].
    unfold StringAndUtf8FromNative. rewrite zero_terminated_length_app by done. simpl.
    unfold memcpy. rewrite take_app_length, drop_replicate.
    replace (length bytes + 1 - length bytes) with 1 by lia. simpl.
    by rewrite insert_length_app, take_app_length.
Qed.
Lemma ConvertNamesToUtf8_from_Returned {T} (extractor : T → ManagedString)
    (names : list T) (i : nat) (result : list (option (list byte)))
    (cleanupList : list (list byte)) :
  Forall (λ n, GetByteCount (extractor n) = length (GetBytes (extractor n))) names →
  length result = i + length names →
  ConvertNamesToUtf8_from ManagedString GetByteCount GetBytes names extractor i
    result cleanupList
  = (Returned (take i result
               ++ ((λ n, Some (GetBytes (extractor n) ++ [x00])) <$> names)),
     cleanupList ++ ((λ n, GetBytes (extractor n) ++ [x00]) <$> names)).
Proof.
  intros Hok. revert i result cleanupList.
  induction Hok as [| n names Hn _ IH]; intros i result cleanupList Hlen.
  - simpl in *. rewrite !app_nil_r. by rewrite firstn_all2 by lia.
  - cbn [ConvertNamesToUtf8_from]. rewrite StringToZeroTerminatedUtf8_Returned.
    rewrite decide_True by done. simpl in Hlen.
    rewrite IH by (rewrite length_insert; lia).
    rewrite !fmap_cons, <- !app_assoc. simpl. f_equal. f_equal.
    destruct (lookup_lt_is_Some_2 result i) as [x Hx]; [lia |].
    rewrite (take_S_r _ _ (Some (GetBytes (extractor n) ++ [x00])))
      by (apply list_lookup_insert_eq; lia).
    rewrite take_insert_ge by lia. by rewrite <- app_assoc.
Qed.

Lemma ConvertNamesToUtf8_from_Thrown {T} (extractor : T → ManagedString)
    (good : list T) (bad : T) (rest : list T) (i : nat)
    (result : list (option (list byte))) (cleanupList : list (list byte)) :
  Forall (λ n, GetByteCount (extractor n) = length (GetBytes (extractor n))) good →
  GetByteCount (extractor bad) ≠ length (GetBytes (extractor bad)) →
  ∃ e, ConvertNamesToUtf8_from ManagedString GetByteCount GetBytes
         (good ++ bad :: rest) extractor i result cleanupList
       = (Thrown e, cleanupList ++ ((λ n, GetBytes (extractor n) ++ [x00]) <$> good)).
Proof.
  intros Hok Hbad. revert i result cleanupList.
  induction Hok as [| n names Hn _ IH]; intros i result cleanupList.
  - cbn [app ConvertNamesToUtf8_from]. rewrite StringToZeroTerminatedUtf8_Returned.
    rewrite decide_False by done. rewrite app_nil_r. by eexists.
  - cbn [app ConvertNamesToUtf8_from]. rewrite StringToZeroTerminatedUtf8_Returned.
    rewrite decide_True by done.
    destruct (IH (S i) (<[i := Some (GetBytes (extractor n) ++ [x00])]> result)
                (cleanupList ++ [GetBytes (extractor n) ++ [x00]])) as [e ->].
    exists e. by rewrite fmap_cons, <- app_assoc.
Qed.

(** X26.  ConvertNamesToUtf8.  When the encoder's byte count is right for every
    name, the result holds, for each name in order, a pointer to the bytes of
    the extracted string followed by a zero, and exactly these arrays are
    appended to the cleanup list.  When it is wrong for some name, the call
    throws, and the cleanup list has received the arrays of the names before
    that one, and nothing else. *)
Theorem ConvertNamesToUtf8_pins {T} (extractor : T → ManagedString) (names : list T)
    (cleanupList : list (list byte)) :
  (Forall (λ n, GetByteCount (extractor n) = length (GetBytes (extractor n))) names →
   ConvertNamesToUtf8 ManagedString GetByteCount GetBytes names extractor cleanupList
   = (Returned ((λ n, Some (GetBytes (extractor n) ++ [x00])) <$> names),
      cleanupList ++ ((λ n, GetBytes (extractor n) ++ [x00]) <$> names)))
  ∧ (∀ good bad rest,
       names = good ++ bad :: rest →
       Forall (λ n, GetByteCount (extractor n) = length (GetBytes (extractor n))) good →
       GetByteCount (extractor bad) ≠ length (GetBytes (extractor bad)) →
       ∃ e, ConvertNamesToUtf8 ManagedString GetByteCount GetBytes names extractor
              cleanupList
            = (Thrown e,
               cleanupList ++ ((λ n, GetBytes (extractor n) ++ [x00]) <$> good))).
Proof.
  unfold ConvertNamesToUtf8. split.
  - intros Hok. rewrite ConvertNamesToUtf8_from_Returned; [done | done |].
    by rewrite length_replicate.
  - intros good bad rest -> Hok Hbad. by apply ConvertNamesToUtf8_from_Thrown.
Qed.
End ManagedStringFacts.

Lemma StringFromNativeUtf8_round_trip_witness :
  StringFromNativeUtf8 (list byte) (λ bytes, bytes) [x68; x69; x00; x21] = Some [x68; x69].
Proof.
  destruct (StringFromNativeUtf8_round_trip (ManagedString := list byte)
              length (λ s, s) (λ bytes, bytes) [x68; x69] eq_refl) as (_ & Hread & _).
  apply (Hread [x21]).
  intros Hin. repeat (apply elem_of_cons in Hin as [Hin | Hin]; [discriminate |]).
  by apply elem_of_nil in Hin.
Defined.

Section AttributeReadBack.
Context {OpKernelInfo OrtStatus ManagedString : Type}.
Variable ToOrtStatus : Status -> option OrtStatus.
Variable CreateStatus : OrtErrorCode -> string -> option OrtStatus.
Variable GetAttr_string : OpKernelInfo -> string -> Status * list byte.
Variable GetString : list byte -> ManagedString.

(** X2.  Asking the string accessor for the size with a null buffer and then
    calling it with a buffer of exactly that size succeeds, and reading the
    buffer as a zero-terminated string decodes the attribute value, provided
    the value itself holds no zero byte. *)
Theorem KernelInfoGetAttribute_string_read_back (info : OpKernelInfo) (name : string)
    (value : list byte) (size0 : nat) (buf : list byte) :
  GetAttr_string info name = (Status_OK, value) →
  x00 ∉ value →
  let query := KernelInfoGetAttribute_string OpKernelInfo OrtStatus ToOrtStatus
                 CreateStatus GetAttr_string info name in
  length buf = (query None size0).2 →
  ∃ buf', query (Some buf) (length buf) = (None, Some buf', length buf)
          ∧ StringFromNativeUtf8 ManagedString GetString buf' = Some (GetString value).
Proof.
  intros Hattr Hnot query. unfold query, KernelInfoGetAttribute_string.
  rewrite Hattr. cbn [IsOK snd]. intros Hlen.
  rewrite decide_True by lia. eexists. split; [by rewrite Hlen |].
  rewrite memcpy_all by lia.
  destruct (lookup_lt_is_Some_2 buf (length value)) as [b Hb]; [lia |].
  rewrite (drop_S _ _ _ Hb), insert_length_app.
  by apply StringFromNativeUtf8_reads.
Qed.
End AttributeReadBack.

Lemma KernelInfoGetAttribute_string_read_back_witness :
  ∃ buf',
    KernelInfoGetAttribute_string unit Status (λ s, Some s)
      (λ _ msg, Some (MakeStatus FAIL msg)) (λ _ _, (Status_OK, [x68; x69])) () "mode"
      (Some [x01; x02; x03]) 3
    = (None, Some buf', 3)
    ∧ StringFromNativeUtf8 (list byte) (λ bytes, bytes) buf' = Some [x68; x69].
Proof.
  apply (KernelInfoGetAttribute_string_read_back (ManagedString := list byte)
           (λ s, Some s) (λ _ msg, Some (MakeStatus FAIL msg))
           (λ _ _, (Status_OK, [x68; x69])) (λ bytes, bytes) () "mode"
           [x68; x69] 0 [x01; x02; x03] eq_refl); [| reflexivity].
  intros Hin. repeat (apply elem_of_cons in Hin as [Hin | Hin]; [discriminate |]).
  by apply elem_of_nil in Hin.
Defined.

(** ** Type variables of a schema *)

Lemma count_undefined_inputs_mono (op : OrtCustomOp) (i j : nat) :
  i <= j → count_undefined_inputs op i <= count_undefined_inputs op j.
Proof.
  induction 1 as [| j _ IH]; [done |]. rewrite count_undefined_inputs_S. lia.
Qed.

Lemma count_undefined_inputs_lt (op : OrtCustomOp) (i j : nat) :
  i < j → ONNX_TENSOR_ELEMENT_DATA_TYPE_UNDEFINED = GetInputType op i →
  count_undefined_inputs op i < count_undefined_inputs op j.
Proof.
  intros Hlt Hty.
  pose proof (count_undefined_inputs_mono op (S i) j Hlt) as Hmono.
  rewrite count_undefined_inputs_S, decide_True in Hmono by done. lia.
Qed.

Lemma count_undefined_inputs_0 (op : OrtCustomOp) (i : nat) :
  count_undefined_inputs op i = 0
  ↔ ∀ i', i' < i → ONNX_TENSOR_ELEMENT_DATA_TYPE_UNDEFINED ≠ GetInputType op i'.
Proof.
  induction i as [| i IH]; [by split; [intros _ i' ?; lia |] |].
  rewrite count_undefined_inputs_S. split.
  - intros Hz i' Hi'. destruct (decide (i' = i)) as [-> | Hne].
    + intros Hty. rewrite decide_True in Hz by done. lia.
    + apply IH; lia.
  - intros Hall. rewrite decide_False by (apply Hall; lia).
    rewrite (proj2 IH); [done |]. intros i' Hi'. apply Hall. lia.
Qed.

Lemma input_type_str_inj (op : OrtCustomOp) (input_count i j : nat)
    (fpi fpj : FormalParameter) :
  input_recorded op input_count i fpi →
  input_recorded op input_count j fpj →
  GetTypeStr fpi = GetTypeStr fpj → i = j.
Proof.
  intros (_ & _ & _ & Hi) (_ & _ & _ & Hj) Heq. rewrite Hi, Hj in Heq.
  unfold to_string in Heq.
  destruct (decide (ONNX_TENSOR_ELEMENT_DATA_TYPE_UNDEFINED = GetInputType op i)) as [Hui |];
    destruct (decide (ONNX_TENSOR_ELEMENT_DATA_TYPE_UNDEFINED = GetInputType op j)) as [Huj |];
    simpl in Heq; try discriminate.
  - injection Heq as Heq. apply pretty_nat_inj in Heq.
    destruct (Nat.lt_trichotomy i j) as [Hlt | [-> | Hlt]]; [| done |].
    + pose proof (count_undefined_inputs_lt op i j Hlt Hui). lia.
    + pose proof (count_undefined_inputs_lt op j i Hlt Huj). lia.
  - injection Heq as Heq. by apply pretty_nat_inj in Heq.
Qed.

(** X3.  In a successfully created schema the type strings of the inputs are
    pairwise distinct: every input of undefined type has a type variable of
    its own.  The variable "T0" belongs to the first input of undefined
    type, and every output of undefined type is given "T0", whatever the
    number of undefined inputs; the type string of any other output is that
    of no input. *)
Theorem create_schema_type_variables (domain_ : string) (op : OrtCustomOp)
    (input_count output_count : nat) (schema : OpSchema) (undefined : nat)
    (calls : list PluginCall) :
  create_schema domain_ op input_count output_count = (Ok (schema, undefined), calls) →
  NoDup (GetTypeStr <$> inputs schema)
  ∧ (∀ i fp, inputs schema !! i = Some fp →
             GetTypeStr fp = "T0" ↔ first_undefined_input op i)
  ∧ (∀ j fp, outputs schema !! j = Some fp →
             ONNX_TENSOR_ELEMENT_DATA_TYPE_UNDEFINED = GetOutputType op j →
             GetTypeStr fp = "T0")
  ∧ (∀ j fp, outputs schema !! j = Some fp →
             ONNX_TENSOR_ELEMENT_DATA_TYPE_UNDEFINED ≠ GetOutputType op j →
             GetTypeStr fp ∉ GetTypeStr <$> inputs schema).
Proof.
  intros Hrun. apply create_schema_Ok in Hrun as (_ & _ & _ & Hin & Hout & _).
  split; [| split; [| split]].
  - apply NoDup_alt. intros i j ts Hi Hj.
    apply list_lookup_fmap_Some in Hi as (fpi & -> & Hi).
    apply list_lookup_fmap_Some in Hj as (fpj & Heq & Hj).
    by apply (input_type_str_inj op input_count i j fpi fpj); auto.
  - intros i fp Hfp. destruct (Hin i fp Hfp) as (_ & _ & _ & ->).
    unfold first_undefined_input, to_string.
    destruct (decide (ONNX_TENSOR_ELEMENT_DATA_TYPE_UNDEFINED = GetInputType op i))
      as [Hty | Hty].
    + rewrite <- count_undefined_inputs_0. split.
      * intros Heq. simpl in Heq. injection Heq as Heq.
        split; [done |]. by apply pretty_nat_inj.
      * by intros [_ ->].
    + split; [by simpl | by intros [? _]].
  - intros j fp Hfp Hty. by destruct (Hout j fp Hfp) as (_ & _ & _ & [-> _]%(λ H, H Hty) & _).
  - intros j fp Hfp Hty Hmem.
    destruct (Hout j fp Hfp) as (_ & _ & _ & _ & Hts). rewrite (Hts Hty) in Hmem.
    apply list_elem_of_fmap in Hmem as (fpi & Heq & Hmem).
    apply list_elem_of_lookup in Hmem as [i Hi].
    destruct (Hin i fpi Hi) as (_ & _ & _ & Hti). rewrite Hti in Heq.
    by case_decide.
Qed.

Lemma create_schema_type_variables_witness :
  GetTypeStr <$> inputs (create_schema_result "test" select_v16) = ["T0"; "T1"]
  ∧ NoDup (GetTypeStr <$> inputs (create_schema_result "test" select_v16)).
Proof.
  split; [reflexivity |].
  exact (proj1 (create_schema_type_variables "test" select_v16 2 1
                  (create_schema_result "test" select_v16) 2
                  (create_schema "test" select_v16 2 1).2 eq_refl)).
Defined.

(** ** The consistency check, exactly *)

Lemma for_range_unit_Ok (body : nat → unit → W unit) (n start : nat) :
  (∀ i, start <= i < start + n → ∃ c, body i () = (Ok (), c)) →
  ∃ c, for_range start n body () = (Ok (), c).
Proof.
  revert start. induction n as [| n IH]; intros start Hbody; [by eexists |].
  destruct (Hbody start) as [c1 H1]; [lia |].
  destruct (IH (S start)) as [c2 H2]; [intros i Hi; apply Hbody; lia |].
  exists (c1 ++ c2). cbn [for_range]. rewrite (W_bind_run _ _ _ _ H1). by rewrite H2.
Qed.

Lemma check_input_accepts (op : OrtCustomOp) (input_parameters : list FormalParameter)
    (i : nat) (fp : FormalParameter) :
  input_parameters !! i = Some fp →
  checked_against op (GetInputCharacteristic op i) fp →
  ∃ c, check_input op input_parameters i () = (Ok (), c).
Proof.
  intros Hfp (Hopt & Hhom & Harity). unfold check_input.
  rewrite (list_lookup_total_correct _ _ _ Hfp).
  unfold call, ORT_RETURN_IF_NOT, mbind, W_bind. cbn [fst snd].
  rewrite Hopt, Hhom, Harity.
  rewrite (bool_decide_eq_true_2 (bool_decide _ = _)) by done.
  rewrite (bool_decide_eq_true_2 (GetVariadicInputMinArity op = _)) by done.
  destruct (GetInputCharacteristic op i); simpl; by eexists.
Qed.

Lemma check_output_accepts (op : OrtCustomOp) (output_parameters : list FormalParameter)
    (i : nat) (fp : FormalParameter) :
  output_parameters !! i = Some fp →
  checked_against op (GetOutputCharacteristic op i) fp →
  ∃ c, check_output op output_parameters i () = (Ok (), c).
Proof.
  intros Hfp (Hopt & Hhom & Harity). unfold check_output.
  rewrite (list_lookup_total_correct _ _ _ Hfp).
  unfold call, ORT_RETURN_IF_NOT, mbind, W_bind. cbn [fst snd].
  rewrite Hopt, Hhom, Harity.
  rewrite (bool_decide_eq_true_2 (bool_decide _ = _)) by done.
  rewrite (bool_decide_eq_true_2 (GetVariadicInputMinArity op = _)) by done.
  destruct (GetOutputCharacteristic op i); simpl; by eexists.
Qed.

(** X6.  The consistency check passes exactly when the descriptor has the
    schema's numbers of inputs and outputs and every formal parameter of the
    schema, input or output, has the option of the descriptor's
    characteristic at that position, the homogeneity the descriptor reports
    for variadic outputs, and the minimum arity it reports for variadic
    inputs.  In every other case it returns a FAIL status; it never throws. *)
Theorem check_consistency_exact (schema : OpSchema) (op : OrtCustomOp)
    (input_count output_count : nat) :
  ((check_consistency schema op input_count output_count).1 = Ok ()
   ↔ length (inputs schema) = input_count
     ∧ length (outputs schema) = output_count
     ∧ (∀ i fp, inputs schema !! i = Some fp →
                checked_against op (GetInputCharacteristic op i) fp)
     ∧ (∀ i fp, outputs schema !! i = Some fp →
                checked_against op (GetOutputCharacteristic op i) fp))
  ∧ ((check_consistency schema op input_count output_count).1 = Ok ()
     ∨ ∃ msg, (check_consistency schema op input_count output_count).1
              = Return (MakeStatus FAIL msg)).
Proof.
  split.
  - split.
    + destruct (check_consistency schema op input_count output_count) as [r calls] eqn:Hrun.
      simpl. intros ->. by eapply check_consistency_Ok.
    + intros (Hic & Hoc & Hin & Hout). unfold check_consistency.
      rewrite (bool_decide_eq_true_2 _ Hic), (bool_decide_eq_true_2 _ Hoc).
      destruct (for_range_unit_Ok (check_input op (inputs schema)) (length (inputs schema)) 0)
        as [c1 H1].
      { intros i Hi. destruct (lookup_lt_is_Some_2 (inputs schema) i) as [fp Hfp]; [lia |].
        eapply check_input_accepts; eauto. }
      destruct (for_range_unit_Ok (check_output op (outputs schema))
                  (length (outputs schema)) 0) as [c2 H2].
      { intros i Hi. destruct (lookup_lt_is_Some_2 (outputs schema) i) as [fp Hfp]; [lia |].
        eapply check_output_accepts; eauto. }
      unfold ORT_RETURN_IF_NOT. cbn [mbind W_bind fst snd].
      rewrite H1. cbn [fst snd]. by rewrite H2.
  - pose proof (check_consistency_returns schema op input_count output_count) as Hret.
    unfold returns_FAIL_only in Hret.
    destruct (check_consistency schema op input_count output_count).1 as [[] | s | e];
      [by left | right | done].
    destruct Hret as [msg ->]. by exists msg.
Qed.

(** X7.  Because every formal parameter is compared with the same two values, a
    schema two of whose parameters differ in homogeneity or in minimum arity
    passes the check for no descriptor at all: once such an operator is
    registered, every further descriptor of that name is rejected with a
    FAIL status, the same descriptor included. *)
Theorem check_consistency_needs_uniform (schema : OpSchema) (op : OrtCustomOp)
    (input_count output_count : nat) (fp1 fp2 : FormalParameter) :
  fp1 ∈ inputs schema ++ outputs schema →
  fp2 ∈ inputs schema ++ outputs schema →
  GetIsHomogeneous fp1 ≠ GetIsHomogeneous fp2 ∨ GetMinArity fp1 ≠ GetMinArity fp2 →
  ∃ msg, (check_consistency schema op input_count output_count).1
         = Return (MakeStatus FAIL msg).
Proof.
  intros H1 H2 Hdiff.
  pose proof (check_consistency_returns schema op input_count output_count) as Hret.
  unfold returns_FAIL_only in Hret.
  destruct (check_consistency schema op input_count output_count)
    as [[[] | s | e] calls] eqn:Hrun;
    simpl in *; [| by destruct Hret as [msg ->]; exists msg | done].
  apply check_consistency_Ok in Hrun as (_ & _ & Hin & Hout).
  assert (∀ fp, fp ∈ inputs schema ++ outputs schema →
                GetIsHomogeneous fp = bool_decide (GetVariadicOutputHomogeneity op ≠ 0%Z)
                ∧ GetMinArity fp = GetVariadicInputMinArity op) as Hall.
  { intros fp [Hfp | Hfp]%elem_of_app; apply list_elem_of_lookup in Hfp as [i Hi].
    - by destruct (Hin i fp Hi) as (_ & ? & ?).
    - by destruct (Hout i fp Hi) as (_ & ? & ?). }
  destruct (Hall fp1 H1) as [Hh1 Ha1]. destruct (Hall fp2 H2) as [Hh2 Ha2].
  destruct Hdiff; congruence.
Qed.

Lemma check_consistency_needs_uniform_witness :
  GetIsHomogeneous <$> inputs (create_schema_result "test" gather_v16) = [false]
  ∧ GetIsHomogeneous <$> outputs (create_schema_result "test" gather_v16) = [true]
  ∧ ∃ msg, (check_consistency (create_schema_result "test" gather_v16) gather_v16 1 1).1
           = Return (MakeStatus FAIL msg).
Proof.
  split; [reflexivity |]. split; [reflexivity |].
  apply (check_consistency_needs_uniform (create_schema_result "test" gather_v16)
           gather_v16 1 1
           {| GetName_fp := "Input0"; GetDescription := ""; GetTypeStr := "Input0";
              GetOption := Variadic; GetIsHomogeneous := false; GetMinArity := 1 |}
           {| GetName_fp := "Output0"; GetDescription := ""; GetTypeStr := "Output0";
              GetOption := Single; GetIsHomogeneous := true; GetMinArity := 1 |}).
  - vm_compute. by left.
  - vm_compute. right. by left.
  - left. done.
Defined.

(** ** Kernel definitions and type bindings *)

Lemma for_range_pure {St} (body : nat → St → W St) (f : nat → St → St)
    (c : nat → list PluginCall) (n start : nat) (st : St) :
  (∀ i s, body i s = (Ok (f i s), c i)) →
  for_range start n body st
  = (Ok (foldl (λ s i, f i s) st (seq start n)), mjoin (c <$> seq start n)).
Proof.
  intros Hbody. revert start st. induction n as [| n IH]; intros start st; [done |].
  cbn [for_range seq foldl fmap list_fmap mjoin list_join].
  rewrite (W_bind_run _ _ _ _ (Hbody start st)). by rewrite IH.
Qed.

Lemma mjoin_singletons {A B} (f : A → B) (l : list A) :
  mjoin ((λ i, [f i]) <$> l) = f <$> l.
Proof. induction l as [| i l IH]; [done |]. simpl. by f_equal. Qed.

Lemma mjoin_nils {A B} (l : list A) : mjoin ((λ _, @nil B) <$> l) = [].
Proof. induction l as [| i l IH]; [done |]. simpl. exact IH. Qed.

Lemma foldl_InputMemoryType (op : OrtCustomOp) (l : list nat) (d : KernelDef) :
  foldl (λ s i, KernelDefBuilder.InputMemoryType (GetInputMemoryType op i) i s) d l
  = {| kernel_name := kernel_name d; kernel_domain := kernel_domain d;
       kernel_since_version := kernel_since_version d;
       input_memory_types :=
         input_memory_types d ++ ((λ i, (i, GetInputMemoryType op i)) <$> l);
       kernel_type_constraints := kernel_type_constraints d;
       provider_type := provider_type d |}.
Proof.
  revert d. induction l as [| i l IH]; intros d.
  - destruct d. simpl. by rewrite app_nil_r.
  - cbn [foldl]. rewrite IH. cbn. by rewrite <- app_assoc.
Qed.

Lemma foldl_template_constraint (l : list nat) (d : KernelDef) :
  foldl (λ s i, KernelDefBuilder.TypeConstraint ("T" +:+ to_string i) AllTensorTypes s) d l
  = {| kernel_name := kernel_name d; kernel_domain := kernel_domain d;
       kernel_since_version := kernel_since_version d;
       input_memory_types := input_memory_types d;
       kernel_type_constraints :=
         kernel_type_constraints d
         ++ ((λ i, ("T" +:+ to_string i, AllTensorTypes)) <$> l);
       provider_type := provider_type d |}.
Proof.
  revert d. induction l as [| i l IH]; intros d.
  - destruct d. simpl. by rewrite app_nil_r.
  - cbn [foldl]. rewrite IH. cbn [KernelDefBuilder.TypeConstraint kernel_name
      kernel_domain kernel_since_version input_memory_types kernel_type_constraints
      provider_type fmap list_fmap]. by rewrite <- app_assoc.
Qed.

Lemma back_push_back_snoc (old : list OnnxTypeVec) (v : OnnxTypeVec)
    (x : ONNXTensorElementDataType) :
  back_push_back (old ++ [v]) x = old ++ [v ++ [x]].
Proof. unfold back_push_back. by rewrite reverse_snoc, reverse_involutive. Qed.

Lemma type_map_at_Some (type_map : gmap string (list OnnxTypeVec)) (name : string)
    (vecs : list OnnxTypeVec) :
  type_map !! name = Some vecs → type_map_at type_map name = vecs.
Proof. unfold type_map_at. by intros ->. Qed.

(** The loops of lines 592-598 and 600-606, as one step function. *)
Lemma foldl_add_types (prefix : string) (type_of : nat → ONNXTensorElementDataType)
    (name : string) (l : list nat) (d : KernelDef)
    (type_map : gmap string (list OnnxTypeVec)) (old : list OnnxTypeVec) (v : OnnxTypeVec) :
  type_map !! name = Some (old ++ [v]) →
  foldl (λ (s : KernelDef * gmap string (list OnnxTypeVec)) i,
           (if decide (ONNX_TENSOR_ELEMENT_DATA_TYPE_UNDEFINED ≠ type_of i)
            then KernelDefBuilder.TypeConstraint (prefix +:+ to_string i)
                   (TensorTypeFromONNXEnum (type_of i)) s.1
            else s.1,
            <[name := back_push_back (type_map_at s.2 name) (type_of i)]> s.2))
        (d, type_map) l
  = ({| kernel_name := kernel_name d; kernel_domain := kernel_domain d;
        kernel_since_version := kernel_since_version d;
        input_memory_types := input_memory_types d;
        kernel_type_constraints :=
          kernel_type_constraints d
          ++ omap (λ i, if decide (ONNX_TENSOR_ELEMENT_DATA_TYPE_UNDEFINED ≠ type_of i)
                        then Some (prefix +:+ to_string i,
                                   TensorTypeFromONNXEnum (type_of i))
                        else None) l;
        provider_type := provider_type d |},
     <[name := old ++ [v ++ (type_of <$> l)]]> type_map).
Proof.
  revert d type_map v. induction l as [| i l IH]; intros d type_map v Hname.
  - destruct d. simpl. rewrite !app_nil_r. by rewrite insert_id.
  - cbn [foldl fst snd]. rewrite (type_map_at_Some _ _ _ Hname).
    rewrite back_push_back_snoc.
    rewrite (IH _ _ (v ++ [type_of i])) by (by rewrite lookup_insert_eq).
    rewrite insert_insert_eq, fmap_cons, <- app_assoc. cbn [app omap list_omap].
    f_equal. destruct (decide (ONNX_TENSOR_ELEMENT_DATA_TYPE_UNDEFINED ≠ type_of i)).
    + cbn. by rewrite <- app_assoc.
    + by destruct d.
Qed.

Lemma add_input_type_pure (op : OrtCustomOp) (i : nat)
    (s : KernelDef * gmap string (list OnnxTypeVec)) :
  add_input_type op i s
  = (Ok (if decide (ONNX_TENSOR_ELEMENT_DATA_TYPE_UNDEFINED ≠ GetInputType op i)
         then KernelDefBuilder.TypeConstraint ("Input" +:+ to_string i)
                (TensorTypeFromONNXEnum (GetInputType op i)) s.1
         else s.1,
         <[GetName op := back_push_back (type_map_at s.2 (GetName op)) (GetInputType op i)]>
           s.2),
     [Call_GetInputType i; Call_GetName]).
Proof.
  destruct s as [d tm]. unfold add_input_type, call, mbind, W_bind. cbn [fst snd].
  by case_decide.
Qed.

Lemma add_output_type_pure (op : OrtCustomOp) (i : nat)
    (s : KernelDef * gmap string (list OnnxTypeVec)) :
  add_output_type op i s
  = (Ok (if decide (ONNX_TENSOR_ELEMENT_DATA_TYPE_UNDEFINED ≠ GetOutputType op i)
         then KernelDefBuilder.TypeConstraint ("Output" +:+ to_string i)
                (TensorTypeFromONNXEnum (GetOutputType op i)) s.1
         else s.1,
         <[GetName op := back_push_back (type_map_at s.2 (GetName op))
                           (GetOutputType op i)]> s.2),
     [Call_GetOutputType i; Call_GetName]).
Proof.
  destruct s as [d tm]. unfold add_output_type, call, mbind, W_bind. cbn [fst snd].
  by case_decide.
Qed.

(** Lines 574-619 never fail; this is what they compute and the plugin calls
    they make. *)
Lemma build_kernel_create_info_Ok (domain_ : string) (op : OrtCustomOp)
    (undefined : nat) (type_map : gmap string (list OnnxTypeVec)) :
  build_kernel_create_info domain_ op (GetInputTypeCount op) (GetOutputTypeCount op)
    undefined type_map
  = (Ok ({| kernel_def := expected_kernel_def domain_ op undefined;
            kernel_create_op := op |},
         <[GetName op := type_map_at type_map (GetName op) ++ [declared_types op]]>
           type_map),
     kernel_def_calls op).
Proof.
  unfold build_kernel_create_info.
  erewrite W_bind_run by reflexivity. cbn [fst snd call].
  erewrite W_bind_run by reflexivity. cbn [fst snd call].
  set (d0 := KernelDefBuilder.SinceVersion 1 _).
  set (tm0 := <[GetName op := _]> type_map).
  assert ((if decide (12 < version op)%N
           then for_range 0 (GetInputTypeCount op) (add_input_memory_type op) d0
           else mret d0)
          = (Ok {| kernel_name := GetName op; kernel_domain := domain_;
                   kernel_since_version := 1;
                   input_memory_types :=
                     if decide (12 < version op)%N
                     then (λ i, (i, GetInputMemoryType op i))
                            <$> seq 0 (GetInputTypeCount op)
                     else [];
                   kernel_type_constraints := []; provider_type := "" |},
             if decide (12 < version op)%N
             then Call_GetInputMemoryType <$> seq 0 (GetInputTypeCount op) else []))
    as Hmem.
  { destruct (decide (12 < version op)%N); [| done].
    rewrite (for_range_pure _
               (λ i s, KernelDefBuilder.InputMemoryType (GetInputMemoryType op i) i s)
               (λ i, [Call_GetInputMemoryType i])) by done.
    rewrite foldl_InputMemoryType. f_equal. apply mjoin_singletons. }
  rewrite (W_bind_run _ _ _ _ Hmem). cbn [fst snd]. clear Hmem.
  rewrite (for_range_pure _
             (λ i s, KernelDefBuilder.TypeConstraint ("T" +:+ to_string i) AllTensorTypes s)
             (λ _, [])) by done.
  rewrite foldl_template_constraint.
  cbn [kernel_name kernel_domain kernel_since_version input_memory_types
       kernel_type_constraints provider_type app].
  erewrite W_bind_run by reflexivity. cbn [fst snd].
  rewrite (for_range_pure _ _ _ _ _ _ (add_input_type_pure op)).
  rewrite (foldl_add_types "Input" (GetInputType op) (GetName op) _ _ tm0
             (type_map_at type_map (GetName op)) [])
    by (subst tm0; by rewrite lookup_insert_eq).
  cbn [kernel_name kernel_domain kernel_since_version input_memory_types
       kernel_type_constraints provider_type app].
  erewrite W_bind_run by reflexivity. cbn [fst snd].
  rewrite (for_range_pure _ _ _ _ _ _ (add_output_type_pure op)).
  rewrite (foldl_add_types "Output" (GetOutputType op) (GetName op) _ _ _
             (type_map_at type_map (GetName op)) (GetInputType op <$> seq 0 (GetInputTypeCount op)))
    by (by rewrite lookup_insert_eq).
  cbn [kernel_name kernel_domain kernel_since_version input_memory_types
       kernel_type_constraints provider_type app].
  erewrite W_bind_run by reflexivity. cbn [fst snd].
  erewrite W_bind_run by reflexivity. cbn [fst snd call].
  unfold expected_kernel_def, kernel_def_calls, declared_types, template_constraints,
    concrete_constraints.
  subst tm0. rewrite !insert_insert_eq.
  f_equal.
  - destruct (GetExecutionProviderType op); cbn; by rewrite <- app_assoc.
  - by rewrite mjoin_nils, !app_nil_r.
Qed.

Lemma emplace_insert {V} (k : string) (v w : V) (m : gmap string V) :
  <[k := w]> (emplace k v m) = <[k := w]> m.
Proof.
  unfold emplace. destruct (m !! k); [done |]. by rewrite insert_insert_eq.
Qed.

Lemma type_map_at_emplace (k : string) (m : gmap string (list OnnxTypeVec)) :
  type_map_at (emplace k [] m) k = type_map_at m k.
Proof.
  unfold emplace, type_map_at. destruct (m !! k) eqn:Hk; [by rewrite Hk |].
  by rewrite lookup_insert_eq.
Qed.

(** Everything a successful [prepare_custom_op] returns. *)
Lemma prepare_custom_op_Ok (domain_ : string) (op : OrtCustomOp)
    (schema_map schema_map' : gmap string OpSchema)
    (type_map type_map' : gmap string (list OnnxTypeVec))
    (create_info : KernelCreateInfo) (calls : list PluginCall) :
  prepare_custom_op domain_ op schema_map type_map
    = (Ok (schema_map', type_map', create_info), calls) →
  create_info
  = {| kernel_def :=
         expected_kernel_def domain_ op
           (match schema_map !! GetName op with
            | Some _ => 0
            | None => count_undefined_inputs op (GetInputTypeCount op)
            end);
       kernel_create_op := op |}
  ∧ type_map'
    = <[GetName op := type_map_at type_map (GetName op) ++ [declared_types op]]> type_map
  ∧ match schema_map !! GetName op with
    | Some schema =>
        schema_map' = schema_map
        ∧ (check_consistency schema op (GetInputTypeCount op) (GetOutputTypeCount op)).1
          = Ok ()
    | None =>
        schema_map' = <[GetName op := create_schema_result domain_ op]> schema_map
        ∧ ∃ r, (create_schema domain_ op (GetInputTypeCount op) (GetOutputTypeCount op)).1
               = Ok r
    end.
Proof.
  unfold prepare_custom_op. intros Hrun.
  apply W_bind_Ok in Hrun as (ic & c1 & c2 & Hic & Hrun & ->).
  apply call_Ok in Hic as [<- ->].
  apply W_bind_Ok in Hrun as (oc & c3 & c4 & Hoc & Hrun & ->).
  apply call_Ok in Hoc as [<- ->].
  apply W_bind_Ok in Hrun as (name & c5 & c6 & Hname & Hrun & ->).
  apply call_Ok in Hname as [<- ->].
  apply W_bind_Ok in Hrun as ([[sm tm] undefined] & c7 & c8 & Hbranch & Hrun & ->).
  apply W_bind_Ok in Hrun as ([ci tm'] & c9 & c10 & Hbuild & Hret & ->).
  apply W_ret_Ok in Hret as [[= <- <- <-] ->].
  rewrite build_kernel_create_info_Ok in Hbuild. injection Hbuild as <- <- <-.
  destruct (schema_map !! GetName op) as [schema |] eqn:Hlookup.
  - apply W_bind_Ok in Hbranch as ([] & c11 & c12 & Hcheck & Hret & ->).
    apply W_ret_Ok in Hret as [[= <- <- <-] ->].
    split; [done |]. split; [done |]. split; [done |]. by rewrite Hcheck.
  - apply W_bind_Ok in Hbranch as (name & c11 & c12 & Hname & Hbranch & ->).
    apply call_Ok in Hname as [<- ->].
    apply W_bind_Ok in Hbranch as ([schema u] & c13 & c14 & Hcreate & Hret & ->).
    apply W_ret_Ok in Hret as [[= <- <- <-] ->].
    pose proof (create_schema_Ok _ _ _ _ _ _ _ Hcreate) as (-> & _ & _ & _ & _ & Hn).
    split; [done |]. split; [| split].
    + by rewrite type_map_at_emplace, emplace_insert.
    + unfold emplace, create_schema_result. by rewrite Hn, Hlookup, Hcreate.
    + rewrite Hcreate. by eexists.
Qed.

(** X8.  The kernel definition a descriptor is registered with.  Its name and
    domain are those of the descriptor and of the domain, its version is 1,
    its provider is the one the descriptor names and the CPU provider when
    it names none, and it lists the memory type of every input when the
    version exceeds 12 and of none otherwise.  Its type constraints are: for
    the first descriptor of a name, "T0", "T1", ... on all tensor types, one
    per input of undefined type, and then one for every input and output of
    defined type; for a descriptor that is checked against an existing
    schema, only the latter, so that its inputs of undefined type are left
    without any constraint. *)
Theorem prepare_custom_op_kernel_def (domain_ : string) (op : OrtCustomOp)
    (schema_map schema_map' : gmap string OpSchema)
    (type_map type_map' : gmap string (list OnnxTypeVec))
    (create_info : KernelCreateInfo) (calls : list PluginCall) :
  prepare_custom_op domain_ op schema_map type_map
    = (Ok (schema_map', type_map', create_info), calls) →
  kernel_create_op create_info = op
  ∧ (schema_map !! GetName op = None →
     kernel_def create_info
     = expected_kernel_def domain_ op
         (count_undefined_inputs op (GetInputTypeCount op)))
  ∧ (is_Some (schema_map !! GetName op) →
     kernel_def create_info = expected_kernel_def domain_ op 0
     ∧ kernel_type_constraints (kernel_def create_info)
       = concrete_constraints "Input" (GetInputType op) (GetInputTypeCount op)
         ++ concrete_constraints "Output" (GetOutputType op) (GetOutputTypeCount op)).
Proof.
  intros (-> & _ & _)%prepare_custom_op_Ok. split; [done |]. split.
  - by intros ->.
  - by intros [schema ->].
Qed.

Lemma prepare_custom_op_kernel_def_witness :
  ∃ r calls,
    prepare_custom_op "test" cast_to_int64
      {["Cast" := create_schema_result "test" cast_to_float]} ∅ = (Ok r, calls)
    ∧ kernel_type_constraints (kernel_def r.2)
      = [("Output0", TensorTypeFromONNXEnum ONNX_TENSOR_ELEMENT_DATA_TYPE_INT64)].
Proof.
  assert (∃ r calls,
            prepare_custom_op "test" cast_to_int64
              {["Cast" := create_schema_result "test" cast_to_float]} ∅ = (Ok r, calls))
    as ([[sm tm] ci] & calls & Hrun)
    by (eexists (_, _, _), _; vm_compute; reflexivity).
  exists (sm, tm, ci), calls. split; [exact Hrun |].
  destruct (prepare_custom_op_kernel_def _ _ _ _ _ _ _ _ Hrun) as (_ & _ & Hchecked).
  destruct Hchecked as [_ Hconstraints]; [by eexists |].
  exact Hconstraints.
Defined.

(** X10.  What a successfully processed descriptor leaves in the two maps of its
    domain.  Its declared types, inputs first, are appended as one more
    binding to the bindings of its name; no other name is touched.  The
    schema map is left as it was when the name has a schema, which the
    descriptor then passed the consistency check against; otherwise the
    schema created from the descriptor is entered under its name. *)
Theorem prepare_custom_op_maps (domain_ : string) (op : OrtCustomOp)
    (schema_map schema_map' : gmap string OpSchema)
    (type_map type_map' : gmap string (list OnnxTypeVec))
    (create_info : KernelCreateInfo) (calls : list PluginCall) :
  prepare_custom_op domain_ op schema_map type_map
    = (Ok (schema_map', type_map', create_info), calls) →
  type_map' !! GetName op
    = Some (type_map_at type_map (GetName op) ++ [declared_types op])
  ∧ (∀ name, name ≠ GetName op →
             type_map' !! name = type_map !! name
             ∧ schema_map' !! name = schema_map !! name)
  ∧ (∀ schema, schema_map !! GetName op = Some schema →
               schema_map' = schema_map
               ∧ (check_consistency schema op (GetInputTypeCount op)
                    (GetOutputTypeCount op)).1 = Ok ())
  ∧ (schema_map !! GetName op = None →
     schema_map' !! GetName op = Some (create_schema_result domain_ op)).
Proof.
  intros (_ & -> & Hsm)%prepare_custom_op_Ok.
  split; [by rewrite lookup_insert_eq |]. split; [| split].
  - intros name Hne. rewrite lookup_insert_ne by done. split; [done |].
    destruct (schema_map !! GetName op); destruct Hsm as [-> _]; [done |].
    by rewrite lookup_insert_ne.
  - intros schema Hs. by rewrite Hs in Hsm.
  - intros Hs. rewrite Hs in Hsm. destruct Hsm as [-> _]. by rewrite lookup_insert_eq.
Qed.

Lemma prepare_custom_op_maps_witness :
  ∃ r calls,
    prepare_custom_op "test" foo_int64
      {["Foo" := create_schema_result "test" foo_float]} {["Foo" := [[1; 1; 1]%Z]]}
    = (Ok r, calls)
    ∧ r.1.2 !! "Foo" = Some [[1; 1; 1]; [7; 7; 7]]%Z.
Proof.
  assert (∃ r calls,
            prepare_custom_op "test" foo_int64
              {["Foo" := create_schema_result "test" foo_float]}
              {["Foo" := [[1; 1; 1]%Z]]} = (Ok r, calls))
    as ([[sm tm] ci] & calls & Hrun)
    by (eexists (_, _, _), _; vm_compute; reflexivity).
  exists (sm, tm, ci), calls. split; [exact Hrun |].
  destruct (prepare_custom_op_maps _ _ _ _ _ _ _ _ Hrun) as (Hbinding & _).
  exact Hbinding.
Defined.

(** ** Registration of a domain, for any registry *)





Section RegistrationFacts.
Context {R : Type} `{!CustomRegistryOps R} {order : UnorderedMapOrder}.







Lemma add_domain_to_version_run (d : string) (h : Host R) :
  add_domain_to_version d h
  = (Ok (), {| output := output h;
               domain_to_version_map := version_added (domain_to_version_map h) d |}, []).
Proof.
  unfold add_domain_to_version, version_added. destruct h as [r versions]. simpl.
  destruct (decide (d ≠ "")) as [Hne | Heq].
  - destruct (versions !! d) eqn:Hd.
    + rewrite decide_True; [done |]. right. by eexists.
    + rewrite decide_False; [done |]. intros [? | [? ?]]; congruence.
  - apply dec_stable in Heq. rewrite decide_True; [done |]. by left.
Qed.



(** *** The domain-to-version map, however the registration ends *)







End RegistrationFacts.


(** ** The minimal build *)

Lemma count_undefined_input_pure (op : OrtCustomOp) (i undefined : nat) :
  count_undefined_input op i undefined
  = (Ok (if decide (ONNX_TENSOR_ELEMENT_DATA_TYPE_UNDEFINED = GetInputType op i)
         then S undefined else undefined),
     [Call_GetInputType i]).
Proof.
  unfold count_undefined_input, call, mbind, W_bind. cbn [fst snd]. by case_decide.
Qed.

Lemma count_undefined_input_loop (op : OrtCustomOp) (n : nat) :
  for_range 0 n (count_undefined_input op) 0
  = (Ok (count_undefined_inputs op n), Call_GetInputType <$> seq 0 n).
Proof.
  rewrite (for_range_pure _ _ _ _ _ _ (count_undefined_input_pure op)).
  rewrite mjoin_singletons. f_equal. f_equal.
  induction n as [| n IH]; [done |].
  rewrite seq_S, foldl_app, IH, count_undefined_inputs_S. simpl.
  case_decide; lia.
Qed.

(** Lines 682-720 never fail; this is what they compute and the plugin calls
    they make. *)
Lemma build_kernel_create_info_minimal_Ok (domain_ : string) (op : OrtCustomOp) :
  build_kernel_create_info_minimal domain_ op
  = (Ok {| kernel_def := minimal_kernel_def domain_ op; kernel_create_op := op |},
     minimal_calls op).
Proof.
  unfold build_kernel_create_info_minimal.
  erewrite W_bind_run by reflexivity. cbn [fst snd call].
  rewrite (W_bind_run _ _ _ _ (count_undefined_input_loop op (GetInputTypeCount op))).
  cbn [fst snd].
  erewrite W_bind_run by reflexivity. cbn [fst snd call].
  set (d0 := KernelDefBuilder.SinceVersion 1 _).
  assert ((if decide (12 < version op)%N
           then input_count ← call Call_GetInputTypeCount (GetInputTypeCount op);
                for_range 0 input_count (add_input_memory_type op) d0
           else mret d0)
          = (Ok {| kernel_name := GetName op; kernel_domain := domain_;
                   kernel_since_version := 1;
                   input_memory_types :=
                     if decide (12 < version op)%N
                     then (λ i, (i, GetInputMemoryType op i))
                            <$> seq 0 (GetInputTypeCount op)
                     else [];
                   kernel_type_constraints := []; provider_type := "" |},
             if decide (12 < version op)%N
             then Call_GetInputTypeCount
                  :: (Call_GetInputMemoryType <$> seq 0 (GetInputTypeCount op))
             else []))
    as Hmem.
  { destruct (decide (12 < version op)%N); [| done].
    erewrite W_bind_run by reflexivity. cbn [fst snd call].
    rewrite (for_range_pure _
               (λ i s, KernelDefBuilder.InputMemoryType (GetInputMemoryType op i) i s)
               (λ i, [Call_GetInputMemoryType i])) by done.
    rewrite foldl_InputMemoryType, mjoin_singletons. done. }
  rewrite (W_bind_run _ _ _ _ Hmem). cbn [fst snd]. clear Hmem.
  rewrite (for_range_pure _
             (λ i s, KernelDefBuilder.TypeConstraint ("T" +:+ to_string i)
                       AllTensorTypes s)
             (λ _, [])) by done.
  rewrite foldl_template_constraint, mjoin_nils.
  cbn [kernel_name kernel_domain kernel_since_version input_memory_types
       kernel_type_constraints provider_type app].
  erewrite W_bind_run by reflexivity. cbn [fst snd].
  erewrite W_bind_run by reflexivity. cbn [fst snd call].
  unfold minimal_kernel_def, minimal_calls, template_constraints.
  rewrite !app_nil_r. f_equal. by destruct (GetExecutionProviderType op).
Qed.

(** X14.  In a build without schemas the kernel of a descriptor is built without
    failure from its name, its version, its provider, the memory types of
    its inputs and the number of its inputs of undefined type alone: the
    only type constraints are "T0", "T1", ... on all tensor types, and
    neither an output nor a characteristic is ever asked for.  In the full
    build the first descriptor of a name gets the same kernel definition
    with one more constraint for every input and output of defined type. *)
Theorem minimal_build_kernel_def (domain_ : string) (op : OrtCustomOp) :
  build_kernel_create_info_minimal domain_ op
  = (Ok {| kernel_def := minimal_kernel_def domain_ op; kernel_create_op := op |},
     minimal_calls op)
  ∧ (∀ c, c ∈ minimal_calls op →
          c = Call_GetInputTypeCount ∨ c = Call_GetName
          ∨ c = Call_GetExecutionProviderType
          ∨ ∃ i, i < GetInputTypeCount op
                 ∧ (c = Call_GetInputType i
                    ∨ (12 < version op)%N ∧ c = Call_GetInputMemoryType i))
  ∧ (∀ schema_map type_map r calls,
       schema_map !! GetName op = None →
       prepare_custom_op domain_ op schema_map type_map = (Ok r, calls) →
       kernel_def r.2
       = {| kernel_name := kernel_name (minimal_kernel_def domain_ op);
            kernel_domain := kernel_domain (minimal_kernel_def domain_ op);
            kernel_since_version := kernel_since_version (minimal_kernel_def domain_ op);
            input_memory_types := input_memory_types (minimal_kernel_def domain_ op);
            kernel_type_constraints :=
              kernel_type_constraints (minimal_kernel_def domain_ op)
              ++ concrete_constraints "Input" (GetInputType op) (GetInputTypeCount op)
              ++ concrete_constraints "Output" (GetOutputType op) (GetOutputTypeCount op);
            provider_type := provider_type (minimal_kernel_def domain_ op) |}).
Proof.
  split; [apply build_kernel_create_info_minimal_Ok |]. split.
  - unfold minimal_calls. intros c Hc.
    rewrite !elem_of_app, !list_elem_of_singleton in Hc.
    destruct Hc as [-> | [Hc | [-> | [Hc | ->]]]]; auto.
    + apply list_elem_of_fmap in Hc as (i & -> & Hi%elem_of_seq).
      do 3 right. exists i. split; [lia | by left].
    + destruct (decide (12 < version op)%N) as [Hv |]; [| by apply elem_of_nil in Hc].
      apply elem_of_cons in Hc as [-> | Hc]; [by left |].
      apply list_elem_of_fmap in Hc as (i & -> & Hi%elem_of_seq).
      do 3 right. exists i. split; [lia | by right].
  - intros schema_map type_map [[sm tm] ci] calls Hnone
      (-> & _ & _)%prepare_custom_op_Ok.
    by rewrite Hnone.
Qed.

Section MinimalBuildFacts.
Context {R : Type} `{!CustomRegistryOps R}.

Lemma register_until_error_app (infos infos' : list KernelCreateInfo) (r : R) :
  register_until_error (infos ++ infos') r
  = match register_until_error infos r with
    | (Ok _, r') => register_until_error infos' r'
    | failed => failed
    end.
Proof.
  revert r. induction infos as [| ci infos IH]; intros r; [done |].
  cbn [app register_until_error].
  destruct (RegisterCustomKernel ci r) as [status r'].
  destruct (IsOK status); [apply IH | done].
Qed.

(** What the first status that is not OK is, and what the registry holds. *)
Lemma register_until_error_spec (infos : list KernelCreateInfo) (r : R) :
  match (register_until_error infos r).1 with
  | Ok _ =>
      (∀ k ci, infos !! k = Some ci →
               IsOK (RegisterCustomKernel ci (registry_after r (take k infos))).1 = true)
      ∧ (register_until_error infos r).2 = registry_after r infos
  | Return status =>
      ∃ k ci,
        infos !! k = Some ci
        ∧ (∀ j cj, j < k → infos !! j = Some cj →
             IsOK (RegisterCustomKernel cj (registry_after r (take j infos))).1 = true)
        ∧ RegisterCustomKernel ci (registry_after r (take k infos))
          = (status, (register_until_error infos r).2)
        ∧ IsOK status = false
  | Throw _ => False
  end.
Proof.
  revert r. induction infos as [| ci infos IH]; intros r.
  - simpl. split; [| done]. intros k ci Hk. by rewrite lookup_nil in Hk.
  - cbn [register_until_error].
    destruct (RegisterCustomKernel ci r) as [status r'] eqn:Hreg.
    destruct (IsOK status) eqn:Hok.
    + specialize (IH r').
      assert (∀ l, registry_after r (ci :: l) = registry_after r' l) as Hafter
        by (intros l; unfold registry_after; simpl; by rewrite Hreg).
      destruct (register_until_error infos r') as [[[] | status' | e] r''];
        cbn [fst snd] in *; [| | done].
      * destruct IH as [Hall ->]. split; [| by rewrite Hafter].
        intros [| k] cj Hk; simpl in Hk.
        -- injection Hk as <-. cbn [take]. unfold registry_after. simpl.
           by rewrite Hreg.
        -- cbn [take]. rewrite Hafter. by apply Hall.
      * destruct IH as (k & cj & Hk & Hbefore & Hlast & Hfail).
        exists (S k), cj. split; [done |]. split; [| split; [| done]].
        -- intros [| j] cj' Hj Hcj'; simpl in Hcj'.
           ++ injection Hcj' as <-. cbn [take]. unfold registry_after. simpl.
              by rewrite Hreg.
           ++ cbn [take]. rewrite Hafter. apply Hbefore; [lia | done].
        -- cbn [take]. by rewrite Hafter.
    + cbn [fst snd]. exists 0, ci. split; [done |]. split; [intros j cj Hj; lia |].
      split; [| done]. cbn [take]. unfold registry_after. simpl. done.
Qed.

Lemma register_custom_ops_minimal (d : string) (ops : list OrtCustomOp) (h : Host R) :
  domain_to_version_map (for_each ops (register_custom_op_minimal d) () h).1.2
  = domain_to_version_map h
  ∧ ((for_each ops (register_custom_op_minimal d) () h).1.1,
     output (for_each ops (register_custom_op_minimal d) () h).1.2)
    = register_until_error
        ((λ op, {| kernel_def := minimal_kernel_def d op; kernel_create_op := op |})
           <$> ops)
        (output h).
Proof.
  revert h. induction ops as [| op ops IH]; intros h; [done |].
  cbn [for_each fmap list_fmap register_until_error]. unfold mbind, M_bind.
  unfold register_custom_op_minimal at 1 3 5. unfold lift, mbind, M_bind.
  rewrite build_kernel_create_info_minimal_Ok. cbn [fst snd].
  destruct (RegisterCustomKernel _ (output h)) as [status r] eqn:Hreg.
  unfold ORT_RETURN_IF_ERROR. destruct status as [| code msg]; cbn [IsOK fst snd].
  - specialize (IH {| output := r; domain_to_version_map := domain_to_version_map h |}).
    destruct (for_each ops (register_custom_op_minimal d) () _) as [[o h2] c2].
    simpl in *. done.
  - done.
Qed.

Lemma register_domains_minimal (op_domains : list OrtCustomOpDomain) (h : Host R) :
  domain_to_version_map (for_each op_domains register_domain_minimal () h).1.2
  = domain_to_version_map h
  ∧ ((for_each op_domains register_domain_minimal () h).1.1,
     output (for_each op_domains register_domain_minimal () h).1.2)
    = register_until_error (minimal_kernel_infos op_domains) (output h).
Proof.
  revert h. induction op_domains as [| dom op_domains IH]; intros h; [done |].
  cbn [for_each]. unfold mbind, M_bind. unfold register_domain_minimal at 1 3 5.
  unfold minimal_kernel_infos. cbn [mbind list_bind]. rewrite register_until_error_app.
  destruct (register_custom_ops_minimal (domain_ dom) (custom_ops_ dom) h)
    as [Hdv Hout].
  rewrite <- Hout.
  destruct (for_each (custom_ops_ dom) _ () h) as [[[[] | status | e] h1] c1];
    cbn [fst snd] in *; [| done | done].
  specialize (IH h1).
  destruct (for_each op_domains register_domain_minimal () h1) as [[o h2] c2].
  cbn [fst snd] in *. destruct IH as [IHdv IHout]. split; [congruence | done].
Qed.

(** X15.  The minimal build of CreateCustomRegistry never throws and never
    touches the domain-to-version map.  It hands the kernels of the
    descriptors of the domains to RegisterCustomKernel, in order, and stops
    at the first one for which the registry answers with a status that is
    not OK: it returns that status, and the registry holds what that call
    left.  It returns OK exactly when the registry answered OK for every
    kernel, and the registry then holds them all. *)
Theorem CreateCustomRegistry_minimal_registers (op_domains : list OrtCustomOpDomain)
    (domain_to_version : gmap string (Z * Z)) :
  let result := CreateCustomRegistry_minimal op_domains domain_to_version in
  let infos := minimal_kernel_infos op_domains in
  domain_to_version_map result.1.2 = domain_to_version
  ∧ match result.1.1 with
    | Ok _ =>
        (∀ k ci, infos !! k = Some ci →
           IsOK (RegisterCustomKernel ci
                   (registry_after make_CustomRegistry (take k infos))).1 = true)
        ∧ output result.1.2 = registry_after make_CustomRegistry infos
    | Return status =>
        ∃ k ci,
          infos !! k = Some ci
          ∧ (∀ j cj, j < k → infos !! j = Some cj →
               IsOK (RegisterCustomKernel cj
                       (registry_after make_CustomRegistry (take j infos))).1 = true)
          ∧ RegisterCustomKernel ci (registry_after make_CustomRegistry (take k infos))
            = (status, output result.1.2)
          ∧ IsOK status = false
    | Throw _ => False
    end
  ∧ (result.1.1 = Ok ()
     ↔ ∀ k ci, infos !! k = Some ci →
         IsOK (RegisterCustomKernel ci
                 (registry_after make_CustomRegistry (take k infos))).1 = true).
Proof.
  intros result infos.
  destruct (register_domains_minimal op_domains
              {| output := make_CustomRegistry;
                 domain_to_version_map := domain_to_version |}) as [Hdv Hrun].
  fold (CreateCustomRegistry_minimal op_domains domain_to_version) in Hdv, Hrun.
  fold result infos in Hdv, Hrun. cbn [output domain_to_version_map] in Hdv, Hrun.
  pose proof (register_until_error_spec infos make_CustomRegistry) as Hspec.
  rewrite <- Hrun in Hspec. cbn [fst snd] in Hspec.
  split; [exact Hdv |]. split; [exact Hspec |].
  destruct (result.1.1) as [[] | status | e]; [| | done].
  - by destruct Hspec.
  - split; [done |]. intros Hall.
    destruct Hspec as (k & ci & Hk & _ & Hreg & Hfail).
    specialize (Hall k ci Hk). rewrite Hreg in Hall. simpl in Hall. congruence.
Qed.
End MinimalBuildFacts.

(** ** The life of a kernel object *)

Lemma foldl_snoc_const {A B} (x : A) (l : list B) (acc : list A) :
  foldl (λ s _, s ++ [x]) acc l = acc ++ replicate (length l) x.
Proof.
  revert acc. induction l as [| y l IH]; intros acc; simpl.
  - by rewrite app_nil_r.
  - rewrite IH, <- app_assoc. done.
Qed.

Lemma mjoin_const {A B} (x : A) (l : list B) :
  mjoin ((λ _, [x]) <$> l) = replicate (length l) x.
Proof. induction l as [| y l IH]; [done |]. simpl. by f_equal. Qed.

Section KernelLifetimeFacts.
Variable ORT_API_VERSION : N.

(** X27.  A kernel object hands back to the plugin the kernel the plugin returned,
    and nothing else.  For a descriptor whose version the host supports, the
    plugin sees one CreateKernel for the descriptor's own version, then one
    KernelCompute per Compute call, each on the kernel CreateKernel
    returned and each answered with Status::OK, then one KernelDestroy of
    that same kernel.  For a descriptor of a later version the creation
    throws after asking for the name, and no kernel is ever created,
    computed or destroyed. *)
Theorem kernel_lifetime_trace (op : OrtCustomOp) (n : nat) :
  ((version op <= ORT_API_VERSION)%N →
   kernel_lifetime ORT_API_VERSION op n
   = (Ok (replicate n Status_OK),
      [Call_CreateKernel (version op)]
      ++ replicate n (Call_KernelCompute (CreateKernel op (version op)))
      ++ [Call_KernelDestroy (CreateKernel op (version op))]))
  ∧ ((ORT_API_VERSION < version op)%N →
     kernel_lifetime ORT_API_VERSION op n
     = (Throw ("Unsupported version '" +:+ pretty (version op)
                 +:+ "' in custom op '" +:+ GetName op),
        [Call_GetName])).
Proof.
  unfold kernel_lifetime, kernel_create_fn, CustomOpKernel_new. split; intros Hv.
  - rewrite decide_False by lia.
    erewrite W_bind_run by reflexivity. cbn [fst snd].
    set (kernel := {| op_ := op; op_kernel_ := CreateKernel op (version op) |}).
    assert (for_range 0 n
              (λ (_ : nat) statuses, status ← Compute kernel; mret (statuses ++ [status]))
              []
            = (Ok (replicate n Status_OK),
               replicate n (Call_KernelCompute (CreateKernel op (version op)))))
      as Hloop.
    { rewrite (for_range_pure _ (λ _ statuses, statuses ++ [Status_OK])
                 (λ _, [Call_KernelCompute (CreateKernel op (version op))])) by done.
      by rewrite foldl_snoc_const, mjoin_const, length_seq. }
    rewrite (W_bind_run _ _ _ _ Hloop). cbn [fst snd].
    erewrite W_bind_run by reflexivity. cbn [fst snd app]. by rewrite app_nil_r.
  - by rewrite decide_True by lia.
Qed.
End KernelLifetimeFacts.

Lemma kernel_lifetime_trace_witness :
  kernel_lifetime 16 identity_v16 2
  = (Ok [Status_OK; Status_OK],
     [Call_CreateKernel 16; Call_KernelCompute 0; Call_KernelCompute 0;
      Call_KernelDestroy 0]).
Proof.
  apply (proj1 (kernel_lifetime_trace 16 identity_v16 2)). reflexivity.
Defined.

(** ** Registration creates no kernel *)

Lemma prepare_custom_op_queries (d : string) (op : OrtCustomOp)
    (schema_map : gmap string OpSchema) (type_map : gmap string (list OnnxTypeVec))
    (c : PluginCall) :
  c ∈ (prepare_custom_op d op schema_map type_map).2 → descriptor_query c.
Proof.
  unfold prepare_custom_op, create_schema, create_schema_input, create_schema_output,
    input_characteristics, output_characteristics, check_consistency, check_input,
    check_output, build_kernel_create_info, add_input_memory_type,
    add_template_constraint, add_input_type, add_output_type.
  intros Hc. calls_inv Hc; subst; try exact I.
  all: destruct (schema_map !! _); calls_inv Hc; subst; exact I.
Qed.

Lemma build_kernel_create_info_minimal_queries (d : string) (op : OrtCustomOp)
    (c : PluginCall) :
  c ∈ (build_kernel_create_info_minimal d op).2 → descriptor_query c.
Proof.
  unfold build_kernel_create_info_minimal, count_undefined_input, add_input_memory_type,
    add_template_constraint.
  intros Hc. calls_inv Hc; subst; exact I.
Qed.

Section RegistrationCalls.
Context {R : Type} `{!CustomRegistryOps R} {order : UnorderedMapOrder}.

Lemma M_calls_bind {A B} (m : M R A) (f : A → M R B) (h : Host R) (c : PluginCall) :
  c ∈ ((m ≫= f) h).2 → c ∈ (m h).2 ∨ ∃ a h1, c ∈ (f a h1).2.
Proof.
  unfold mbind, M_bind. destruct (m h) as [[[a | s | e] h1] c1]; simpl; auto.
  destruct (f a h1) as [[r h2] c2] eqn:Hf. simpl. intros [? | ?]%elem_of_app; [by left |].
  right. exists a, h1. by rewrite Hf.
Qed.

Lemma for_each_calls {A St} (body : A → St → M R St) (l : list A) (st : St)
    (h : Host R) (c : PluginCall) :
  c ∈ (for_each l body st h).2 → ∃ x s h1, c ∈ (body x s h1).2.
Proof.
  revert st h. induction l as [| x l IH]; intros st h Hc.
  - by apply elem_of_nil in Hc.
  - cbn [for_each] in Hc. apply M_calls_bind in Hc as [Hc | (s & h1 & Hc)]; eauto.
Qed.

(** X28.  Registration only asks the descriptors about themselves: neither the
    full build of CreateCustomRegistry nor the minimal one ever calls
    CreateKernel, KernelCompute or KernelDestroy, however it ends.  Kernels
    are created later, through the creation functions handed to the
    registry. *)
Theorem CreateCustomRegistry_creates_no_kernel (op_domains : list OrtCustomOpDomain)
    (domain_to_version : gmap string (Z * Z)) :
  Forall descriptor_query (CreateCustomRegistry op_domains domain_to_version).2
  ∧ Forall descriptor_query
      (CreateCustomRegistry_minimal op_domains domain_to_version).2.
Proof.
  split; apply Forall_forall; intros c Hc.
  - unfold CreateCustomRegistry in Hc.
    apply for_each_calls in Hc as (dom & [] & h & Hc). unfold register_domain in Hc.
    apply M_calls_bind in Hc as [Hc | ([] & h1 & Hc)].
    { rewrite add_domain_to_version_run in Hc. by apply elem_of_nil in Hc. }
    apply M_calls_bind in Hc as [Hc | ([sm tm] & h2 & Hc)].
    + apply for_each_calls in Hc as (op & [sm tm] & h2 & Hc).
      unfold register_custom_op in Hc.
      apply M_calls_bind in Hc as [Hc | ([[sm1 tm1] ci] & h3 & Hc)];
        [exact (prepare_custom_op_queries _ _ _ _ _ Hc) |].
      apply M_calls_bind in Hc as [Hc | (status & h4 & Hc)].
      { destruct (RegisterCustomKernel ci (output h3)). by apply elem_of_nil in Hc. }
      apply M_calls_bind in Hc as [Hc | ([] & h5 & Hc)].
      * unfold ORT_RETURN_IF_ERROR in Hc. destruct (IsOK status); by apply elem_of_nil in Hc.
      * by apply elem_of_nil in Hc.
    + apply M_calls_bind in Hc as [Hc | (schemas & h3 & Hc)].
      { apply for_each_calls in Hc as ([k s] & schemas & h3 & Hc).
        unfold attach_inference in Hc. destruct (tm !! (k, s).1); by apply elem_of_nil in Hc. }
      apply M_calls_bind in Hc as [Hc | (status & h4 & Hc)].
      { destruct (RegisterOpSet _ _ _ _ _). by apply elem_of_nil in Hc. }
      unfold ORT_RETURN_IF_ERROR in Hc. destruct (IsOK status); by apply elem_of_nil in Hc.
  - unfold CreateCustomRegistry_minimal in Hc.
    apply for_each_calls in Hc as (dom & [] & h & Hc). unfold register_domain_minimal in Hc.
    apply for_each_calls in Hc as (op & [] & h1 & Hc).
    unfold register_custom_op_minimal in Hc.
    apply M_calls_bind in Hc as [Hc | (ci & h2 & Hc)];
      [exact (build_kernel_create_info_minimal_queries _ _ _ Hc) |].
    apply M_calls_bind in Hc as [Hc | (status & h3 & Hc)].
    { destruct (RegisterCustomKernel ci (output h2)). by apply elem_of_nil in Hc. }
    unfold ORT_RETURN_IF_ERROR in Hc. destruct (IsOK status); by apply elem_of_nil in Hc.
Qed.
End RegistrationCalls.

(** *** The scan in closed form *)

Lemma match_inputs_spec (type_vec input_types : OnnxTypeVec) (n i : nat)
    (undef : ONNXTensorElementDataType) :
  ((match_inputs type_vec input_types i n undef).1 = true
   ↔ Forall (compatible_at type_vec input_types) (seq i n))
  ∧ ((match_inputs type_vec input_types i n undef).1 = true →
     (match_inputs type_vec input_types i n undef).2
     = default undef (last (wildcard_inputs type_vec input_types i n))).
Proof.
  revert i undef. induction n as [| n IH]; intros i undef.
  - simpl. split; [split; [constructor | done] | done].
  - cbn [match_inputs seq]. unfold wildcard_inputs. cbn [seq].
    rewrite Forall_cons, filter_cons. unfold compatible_at at 1.
    destruct (decide (ONNX_TENSOR_ELEMENT_DATA_TYPE_UNDEFINED = input_types !!! i))
      as [Hin | Hin].
    + rewrite (decide_False (P := _ ∧ _)) by (intros [Hne _]; congruence).
      destruct (IH (S i) undef) as [Hiff Hundef].
      split; [| exact Hundef]. rewrite Hiff. intuition.
    + destruct (decide (ONNX_TENSOR_ELEMENT_DATA_TYPE_UNDEFINED = type_vec !!! i))
        as [Hty | Hty].
      * rewrite (decide_True (P := _ ∧ _)) by (split; congruence).
        destruct (IH (S i) (input_types !!! i)) as [Hiff Hundef].
        split; [rewrite Hiff; intuition |].
        intros Hm. rewrite (Hundef Hm). rewrite fmap_cons, last_cons.
        fold (wildcard_inputs type_vec input_types (S i) n).
        by destruct (last (wildcard_inputs type_vec input_types (S i) n)).
      * rewrite (decide_False (P := _ ∧ _)) by (intros [_ He]; congruence).
        destruct (decide (type_vec !!! i ≠ input_types !!! i)) as [Hne | Heq].
        -- simpl. split; [| done]. split; [done |].
           intros [[H1 | [H1 | H1]] _]; congruence.
        -- destruct (IH (S i) undef) as [Hiff Hundef].
           split; [| exact Hundef]. rewrite Hiff.
           apply dec_stable in Heq. intuition.
Qed.

Lemma scan_type_vecs_find (type_vecs : list OnnxTypeVec) (input_types : OnnxTypeVec)
    (num_inputs num_outputs : nat) (infer_ctx : InferenceContext) :
  scan_type_vecs type_vecs input_types num_inputs num_outputs infer_ctx
  = match list_find (binding_matches input_types num_inputs num_outputs) type_vecs with
    | Some (_, type_vec) =>
        set_output_types type_vec num_inputs
          (default ONNX_TENSOR_ELEMENT_DATA_TYPE_UNDEFINED
                   (last (wildcard_inputs type_vec input_types 0 num_inputs)))
          infer_ctx
    | None => infer_ctx
    end.
Proof.
  induction type_vecs as [| type_vec type_vecs IH]; [done |].
  cbn [scan_type_vecs list_find].
  destruct (match_inputs_spec type_vec input_types num_inputs 0
              ONNX_TENSOR_ELEMENT_DATA_TYPE_UNDEFINED) as [Hiff Hundef].
  destruct (decide (length type_vec ≠ num_inputs + num_outputs)) as [Hlen | Hlen].
  - rewrite decide_False by (intros [Hl _]; done).
    rewrite IH. by destruct (list_find _ type_vecs) as [[k tv] |].
  - apply dec_stable in Hlen.
    destruct (match_inputs type_vec input_types 0 num_inputs
                ONNX_TENSOR_ELEMENT_DATA_TYPE_UNDEFINED) as [[] undef] eqn:Hm;
      cbn [fst snd] in *.
    + rewrite decide_True by (split; [done | by apply Hiff]).
      by rewrite (Hundef eq_refl).
    + rewrite decide_False by (intros [_ Hc]; apply Hiff in Hc; done).
      rewrite IH. by destruct (list_find _ type_vecs) as [[k tv] |].
Qed.

(** X16.  The inference function in closed form.  The first binding that has the
    node's arity and is compatible with every input decides.  All output
    types are then overwritten: an output whose entry is defined gets that
    entry, every other output gets the LAST known input type found at an
    undefined input position of the binding (the undefined type when there
    is none).  The inputs are never touched, and when no binding matches the
    context is returned as it was. *)
Theorem infer_fn_first_match (type_vecs : list OnnxTypeVec) (infer_ctx : InferenceContext) :
  infer_fn type_vecs infer_ctx
  = match list_find (binding_matches (collect_input_types infer_ctx)
                       (getNumInputs infer_ctx) (getNumOutputs infer_ctx)) type_vecs with
    | Some (_, type_vec) =>
        {| getInputType := getInputType infer_ctx;
           getOutputType :=
             binding_outputs type_vec (getNumInputs infer_ctx)
               (default ONNX_TENSOR_ELEMENT_DATA_TYPE_UNDEFINED
                  (last (wildcard_inputs type_vec (collect_input_types infer_ctx)
                           0 (getNumInputs infer_ctx)))) |}
    | None => infer_ctx
    end.
Proof.
  unfold infer_fn. rewrite scan_type_vecs_find.
  destruct (list_find _ type_vecs) as [[k type_vec] |] eqn:Hfind; [| done].
  apply list_find_Some in Hfind as (_ & [Hlen _] & _).
  destruct infer_ctx as [ins outs].
  by rewrite set_output_types_all.
Qed.

(** X17.  Running the inference function a second time changes nothing. *)
Theorem infer_fn_idempotent (type_vecs : list OnnxTypeVec) (infer_ctx : InferenceContext) :
  infer_fn type_vecs (infer_fn type_vecs infer_ctx) = infer_fn type_vecs infer_ctx.
Proof.
  destruct infer_ctx as [ins outs].
  pose proof (scan_type_vecs_find type_vecs
                (collect_input_types {| getInputType := ins; getOutputType := outs |})
                (length ins) (length outs) {| getInputType := ins; getOutputType := outs |})
    as Hfirst.
  change (scan_type_vecs _ _ _ _ _)
    with (infer_fn type_vecs {| getInputType := ins; getOutputType := outs |}) in Hfirst.
  destruct (list_find _ type_vecs) as [[k type_vec] |] eqn:Hfind.
  - pose proof Hfind as (_ & [Hlen _] & _)%list_find_Some.
    rewrite set_output_types_all in Hfirst by done.
    rewrite Hfirst. unfold infer_fn, getNumInputs, getNumOutputs, collect_input_types.
    cbn [getInputType getOutputType].
    rewrite length_fmap, length_drop.
    replace (length type_vec - length ins) with (length outs) by lia.
    rewrite scan_type_vecs_find.
    unfold collect_input_types in Hfind. cbn [getInputType] in Hfind.
    rewrite Hfind. rewrite set_output_types_all; [done |].
    rewrite length_fmap, length_drop. lia.
  - rewrite Hfirst. exact Hfirst.
Qed.

Lemma filter_none {A} (P : A → Prop) `{∀ x, Decision (P x)} (l : list A) :
  Forall (λ x, ¬ P x) l → filter P l = [].
Proof.
  induction 1 as [| x l Hx _ IH]; [done |]. by rewrite filter_cons_False.
Qed.

Lemma collect_input_types_untyped (infer_ctx : InferenceContext) (j : nat) :
  Forall (λ t, t = None) (getInputType infer_ctx) →
  j < getNumInputs infer_ctx →
  collect_input_types infer_ctx !!! j = ONNX_TENSOR_ELEMENT_DATA_TYPE_UNDEFINED.
Proof.
  intros Hnone Hj. unfold collect_input_types.
  destruct (lookup_lt_is_Some_2 (getInputType infer_ctx) j Hj) as [t Ht].
  apply list_lookup_total_correct. rewrite list_lookup_fmap, Ht.
  by rewrite (Forall_lookup_1 _ _ _ _ Hnone Ht).
Qed.

(** X18.  A node none of whose inputs has a known type takes the first binding of
    its arity, whatever that binding says about the inputs, and gets the
    binding's output entries as they are: an output whose entry is undefined
    is set to the undefined type. *)
Theorem infer_fn_untyped_inputs (type_vecs : list OnnxTypeVec)
    (infer_ctx : InferenceContext) :
  Forall (λ t, t = None) (getInputType infer_ctx) →
  infer_fn type_vecs infer_ctx
  = match list_find (λ type_vec : OnnxTypeVec,
                       length type_vec = getNumInputs infer_ctx + getNumOutputs infer_ctx)
                    type_vecs with
    | Some (_, type_vec) =>
        {| getInputType := getInputType infer_ctx;
           getOutputType := Some <$> drop (getNumInputs infer_ctx) type_vec |}
    | None => infer_ctx
    end.
Proof.
  intros Hnone. unfold infer_fn. rewrite scan_type_vecs_find.
  assert (∀ type_vec,
            Forall (compatible_at type_vec (collect_input_types infer_ctx))
                   (seq 0 (getNumInputs infer_ctx))) as Hcompat.
  { intros type_vec. apply Forall_forall. intros j Hj%elem_of_seq.
    left. apply collect_input_types_untyped; [done | lia]. }
  assert (∀ type_vec,
            wildcard_inputs type_vec (collect_input_types infer_ctx)
              0 (getNumInputs infer_ctx) = []) as Hwild.
  { intros type_vec. unfold wildcard_inputs.
    rewrite filter_none; [done |].
    apply Forall_forall. intros j Hj%elem_of_seq [Hne _]. apply Hne.
    apply collect_input_types_untyped; [done | lia]. }
  induction type_vecs as [| type_vec type_vecs IH]; [done |].
  cbn [list_find].
  destruct (decide (length type_vec = getNumInputs infer_ctx + getNumOutputs infer_ctx))
    as [Hlen | Hlen].
  - rewrite decide_True
      by (split; [done | apply Hcompat]).
    rewrite Hwild. destruct infer_ctx as [ins outs].
    rewrite set_output_types_all by done. f_equal.
    apply list_fmap_ext. intros k entry _. simpl. by case_decide; subst.
  - rewrite decide_False by (intros [Hl _]; done).
    destruct (list_find (binding_matches _ _ _) type_vecs) as [[k tv] |];
      destruct (list_find _ type_vecs) as [[k' tv'] |]; simpl in *; done.
Qed.

Lemma infer_fn_untyped_inputs_witness :
  Forall (λ t, t = None) (getInputType untyped_node)
  ∧ infer_fn [[1; 1; 1]; [7; 0; 0; 11]]%Z untyped_node
    = {| getInputType := [None; None]; getOutputType := [Some 0%Z; Some 11%Z] |}.
Proof.
  split; [by repeat constructor |].
  apply (infer_fn_untyped_inputs [[1; 1; 1]; [7; 0; 0; 11]]%Z untyped_node).
  by repeat constructor.
Defined.

(** *** Waiting on the host *)

Lemma store_after_record (n0 : CudaNotification) (calls : list MemberCall) (s : System)
    (h : list (nat * Action)) (tid : nat) (h' : list (nat * Action)) :
  invariant n0 calls s →
  history s = h ++ h' →
  (tid, ready_store true) ∈ h →
  (tid, cudaEventRecord (event_ n0) (handle (stream n0)) cudaSuccess) ∈ h.
Proof.
  intros Hinv Heq Hin.
  apply list_elem_of_split in Hin as (h1 & h2 & ->).
  rewrite <- app_assoc in Heq. simpl in Heq.
  pose proof (inv_history _ _ _ Hinv _ _ _ _ Heq) as (_ & _ & Hrec).
  apply elem_of_app. by left.
Qed.

(** X19.  Under any interleaving of calls on a notification: whenever a thread has
    called cudaEventSynchronize, it did so inside wait_on_host, on the
    notification's event, after it loaded the flag as true, which was after
    an Activate call stored true, which was after that call's successful
    cudaEventRecord on the owning stream.  A wait_on_host call that loads the
    flag as false pauses and loads again, without any other effect; one that
    loads it as true synchronizes on the event and returns, or throws when
    the synchronization fails; and no thread inside wait_on_host ever calls
    cudaStreamWaitEvent. *)
Theorem wait_on_host_after_ready (s0 : Stream) (created : cudaError_t * nat)
    (n0 : CudaNotification) (calls : list MemberCall)
    (schedule : list (nat * cudaError_t)) :
  CudaNotification_new s0 created = Ok n0 →
  let s := run (start n0 calls) schedule in
  (∀ h1 tid ev r h2,
     history s = h1 ++ (tid, cudaEventSynchronize ev r) :: h2 →
     calls !! tid = Some Call_wait_on_host ∧ ev = event_ n0
     ∧ ∃ h0 h0' tid',
         h1 = h0 ++ (tid, ready_load true) :: h0'
         ∧ calls !! tid' = Some Call_Activate
         ∧ (tid', ready_store true) ∈ h0
         ∧ (tid', cudaEventRecord (event_ n0) (handle s0) cudaSuccess) ∈ h0)
  ∧ (∀ tid r1 r2,
       threads s !! tid = Some (In_wait_on_host wait_on_host_load) →
       ready_ (notification s) = false →
       threads (run s [(tid, r1); (tid, r2)]) !! tid
         = Some (In_wait_on_host wait_on_host_load)
       ∧ history (run s [(tid, r1); (tid, r2)])
         = history s ++ [(tid, ready_load false); (tid, SpinPause)]
       ∧ notification (run s [(tid, r1); (tid, r2)]) = notification s)
  ∧ (∀ tid r1 r2,
       threads s !! tid = Some (In_wait_on_host wait_on_host_load) →
       ready_ (notification s) = true →
       threads (run s [(tid, r1); (tid, r2)]) !! tid
         = Some (In_wait_on_host (if decide (r2 = cudaSuccess)
                                  then wait_on_host_returned else wait_on_host_thrown))
       ∧ history (run s [(tid, r1); (tid, r2)])
         = history s ++ [(tid, ready_load true);
                         (tid, cudaEventSynchronize (event_ n0) r2)])
  ∧ (∀ tid a,
       calls !! tid = Some Call_wait_on_host →
       (tid, a) ∈ history s →
       ∀ sh ev r, a ≠ cudaStreamWaitEvent sh ev r).
Proof.
  intros Hnew s.
  pose proof (reachable_invariant s0 created n0 calls schedule Hnew) as Hinv.
  apply CudaNotification_new_Ok in Hnew as (_ & <- & _).
  fold s in Hinv. split; [| split; [| split]].
  - intros h1 tid ev r h2 Heq.
    pose proof (inv_history _ _ _ Hinv _ _ _ _ Heq) as (Hcall & -> & Hload).
    split; [done |]. split; [done |].
    apply list_elem_of_split in Hload as (h0 & h0' & ->).
    rewrite <- app_assoc in Heq. simpl in Heq.
    pose proof (inv_history _ _ _ Hinv _ _ _ _ Heq eq_refl) as (tid' & Hact & Hstore).
    exists h0, h0', tid'. repeat split; try done.
    by eapply store_after_record.
  - intros tid r1 r2 Hth Hready.
    change (run s [(tid, r1); (tid, r2)]) with (step (step s (tid, r1)) (tid, r2)).
    rewrite (step_Some s tid r1 _ Hth).
    erewrite step_Some
      by (cbn [threads]; apply list_lookup_insert_eq; by eapply lookup_lt_Some).
    simpl. rewrite Hready. simpl. rewrite list_insert_insert_eq, <- app_assoc.
    split; [| done]. apply list_lookup_insert_eq. by eapply lookup_lt_Some.
  - intros tid r1 r2 Hth Hready.
    change (run s [(tid, r1); (tid, r2)]) with (step (step s (tid, r1)) (tid, r2)).
    rewrite (step_Some s tid r1 _ Hth).
    erewrite step_Some
      by (cbn [threads]; apply list_lookup_insert_eq; by eapply lookup_lt_Some).
    simpl. rewrite Hready. simpl.
    rewrite list_insert_insert_eq, <- app_assoc, (inv_event _ _ _ Hinv).
    split; [| done]. apply list_lookup_insert_eq. by eapply lookup_lt_Some.
  - intros tid a Hcall Hin sh ev r ->.
    apply list_elem_of_split in Hin as (h1 & h2 & Heq).
    pose proof (inv_history _ _ _ Hinv _ _ _ _ Heq) as (ds & Hdev & _).
    congruence.
Qed.

Lemma wait_on_host_after_ready_witness :
  CudaNotification_new producer_stream (cudaSuccess, 7) = Ok fresh_notification
  ∧ threads (run (run (start fresh_notification [Call_Activate; Call_wait_on_host])
                      [(0, cudaSuccess); (0, cudaSuccess)])
                 [(1, cudaSuccess); (1, cudaSuccess)]) !! 1
    = Some (In_wait_on_host wait_on_host_returned).
Proof.
  split; [reflexivity |].
  destruct (wait_on_host_after_ready producer_stream (cudaSuccess, 7)
              fresh_notification [Call_Activate; Call_wait_on_host]
              [(0, cudaSuccess); (0, cudaSuccess)] eq_refl) as (_ & _ & Hdone & _).
  destruct (Hdone 1 cudaSuccess cudaSuccess) as [Hth _];
    [reflexivity | reflexivity | exact Hth].
Defined.

(** *** No wake-up without a recorded event *)

(** X20.  As long as no cudaEventRecord of the notification's event has succeeded,
    the flag is false, no thread has left its waiting loop or returned from
    Activate, and nothing has happened but failed records, loads that found
    the flag false, and pauses. *)
Theorem no_wakeup_without_record (s0 : Stream) (created : cudaError_t * nat)
    (n0 : CudaNotification) (calls : list MemberCall)
    (schedule : list (nat * cudaError_t)) :
  CudaNotification_new s0 created = Ok n0 →
  let s := run (start n0 calls) schedule in
  (∀ tid, (tid, cudaEventRecord (event_ n0) (handle s0) cudaSuccess) ∉ history s) →
  ready_ (notification s) = false
  ∧ (∀ tid a, (tid, a) ∈ history s → idle_action a)
  ∧ (∀ tid th, threads s !! tid = Some th → ¬ past_ready th).
Proof.
  intros Hnew s Hnone.
  pose proof (reachable_invariant s0 created n0 calls schedule Hnew) as Hinv.
  apply CudaNotification_new_Ok in Hnew as (_ & <- & _).
  fold s in Hinv.
  assert (∀ tid, (tid, ready_store true) ∉ history s) as Hnostore.
  { intros tid Hin. apply (Hnone tid).
    eapply (store_after_record _ _ _ (history s) tid []); [done | | done].
    by rewrite app_nil_r. }
  assert (∀ tid, (tid, ready_load true) ∉ history s) as Hnoload.
  { intros tid Hin. apply list_elem_of_split in Hin as (h1 & h2 & Heq).
    pose proof (inv_history _ _ _ Hinv _ _ _ _ Heq eq_refl) as (tid' & _ & Hstore).
    apply (Hnostore tid'). rewrite Heq. apply elem_of_app. by left. }
  assert (∀ tid a, (tid, a) ∈ history s → idle_action a) as Hidle.
  { intros tid a Hin. pose proof Hin as (h1 & h2 & Heq)%list_elem_of_split.
    pose proof (inv_history _ _ _ Hinv _ _ _ _ Heq) as Hjust.
    destruct a as [ev sh r | b | b | | sh ev r | ev r]; simpl in *.
    - destruct Hjust as (_ & -> & ->). intros ->. by apply (Hnone tid).
    - destruct Hjust as (-> & _). by apply (Hnostore tid).
    - destruct b; [| done]. by destruct (Hnoload tid).
    - done.
    - destruct Hjust as (ds & _ & _ & _ & _ & Hload).
      apply (Hnoload tid). rewrite Heq. apply elem_of_app. by left.
    - destruct Hjust as (_ & _ & Hload).
      apply (Hnoload tid). rewrite Heq. apply elem_of_app. by left. }
  split; [| split; [exact Hidle |]].
  - destruct (ready_ (notification s)) eqn:Hready; [| done].
    apply (inv_ready_stored _ _ _ Hinv) in Hready as (tid & _ & Hstore).
    by destruct (Hnostore tid).
  - intros tid th Hth Hpast.
    pose proof (inv_threads _ _ _ Hinv tid th Hth) as Hok.
    destruct th as [pc | ds pc | pc]; simpl in Hpast.
    + subst pc. by apply (Hnostore tid).
    + destruct Hpast as [-> | ->]; simpl in Hok.
      * destruct Hok as [_ Hload]. by apply (Hnoload tid).
      * by apply Hidle in Hok.
    + destruct Hpast as [-> | ->]; simpl in Hok.
      * by apply (Hnoload tid).
      * by apply Hidle in Hok.
Qed.

Lemma no_wakeup_without_record_witness :
  ready_ (notification
            (run (start fresh_notification
                    [Call_Activate; Call_wait_on_device consumer_stream; Call_wait_on_host])
                 failed_activation)) = false
  ∧ threads (run (start fresh_notification
                    [Call_Activate; Call_wait_on_device consumer_stream; Call_wait_on_host])
                 failed_activation)
    = [In_Activate Activate_thrown;
       In_wait_on_device consumer_stream wait_on_device_load;
       In_wait_on_host wait_on_host_load].
Proof.
  split; [| reflexivity].
  refine (proj1 (no_wakeup_without_record producer_stream (cudaSuccess, 7)
                   fresh_notification
                   [Call_Activate; Call_wait_on_device consumer_stream; Call_wait_on_host]
                   failed_activation eq_refl _)).
  intros tid Hin. vm_compute in Hin.
  repeat (apply elem_of_cons in Hin as [Hin | Hin]; [discriminate |]).
  by apply elem_of_nil in Hin.
Defined.

(** *** The flag is never reset *)

Lemma step_monotone (s : System) (choice : nat * cudaError_t) :
  (ready_ (notification s) = true → ready_ (notification (step s choice)) = true)
  ∧ event_ (notification (step s choice)) = event_ (notification s)
  ∧ stream (notification (step s choice)) = stream (notification s)
  ∧ member <$> threads (step s choice) = member <$> threads s
  ∧ history s `prefix_of` history (step s choice).
Proof.
  destruct choice as [tid result].
  destruct (threads s !! tid) as [th |] eqn:Hth.
  - rewrite (step_Some s tid result th Hth). cbn [notification threads history].
    assert (member (step_thread (notification s) result th).1.2 = member th) as Hmember.
    { destruct th as [[] | ds [] | []]; simpl; by repeat case_decide. }
    repeat split.
    + destruct th as [[] | ds [] | []]; simpl; done.
    + destruct th as [[] | ds [] | []]; simpl; done.
    + destruct th as [[] | ds [] | []]; simpl; done.
    + rewrite list_fmap_insert, Hmember. apply list_insert_id.
      by rewrite list_lookup_fmap, Hth.
    + by apply prefix_app_r.
  - unfold step. rewrite Hth. done.
Qed.

(** X21.  Whatever the state and the schedule: once the flag is true it stays
    true, the event and the stream of the notification never change, every
    thread stays inside the member function it called, and the history only
    grows.  A notification cannot be used a second time. *)
Theorem ready_never_reset (s : System) (schedule : list (nat * cudaError_t)) :
  (ready_ (notification s) = true → ready_ (notification (run s schedule)) = true)
  ∧ event_ (notification (run s schedule)) = event_ (notification s)
  ∧ stream (notification (run s schedule)) = stream (notification s)
  ∧ member <$> threads (run s schedule) = member <$> threads s
  ∧ history s `prefix_of` history (run s schedule).
Proof.
  induction schedule as [| choice schedule IH] using rev_ind; [done |].
  rewrite run_snoc.
  destruct IH as (Hready & Hevent & Hstream & Hmember & Hprefix).
  destruct (step_monotone (run s schedule) choice) as (Hr & He & Hs & Hm & Hp).
  repeat split.
  - auto.
  - congruence.
  - congruence.
  - congruence.
  - by etrans.
Qed.

(** *** Every call follows its own code *)

(** X22.  Under any interleaving, the actions a call has performed are exactly
    those of the statements it has executed, in order.  An Activate call
    performs one cudaEventRecord on the owning stream and then one store of
    true; one whose record failed has thrown and performed nothing else, so
    it never sets the flag.  A waiting call performs rounds of a load that
    found the flag false followed by a pause, then one load that found it
    true, then one CUDA call (cudaStreamWaitEvent on the consumer's stream,
    or cudaEventSynchronize), after which it has returned or, if that call
    failed, thrown.  A wait_on_device call that has thrown without any action
    was given a stream of another provider. *)
Theorem call_follows_its_code (s0 : Stream) (created : cudaError_t * nat)
    (n0 : CudaNotification) (calls : list MemberCall)
    (schedule : list (nat * cudaError_t)) (tid : nat) (th : Thread) :
  CudaNotification_new s0 created = Ok n0 →
  threads (run (start n0 calls) schedule) !! tid = Some th →
  trace_of n0 th (actions_of tid (history (run (start n0 calls) schedule))).
Proof.
  intros Hnew. revert tid th.
  induction schedule as [| choice schedule IH] using rev_ind.
  - intros tid th Hth. simpl in Hth.
    apply list_lookup_fmap_Some in Hth as (c & -> & _).
    destruct c; simpl; try done; by exists 0.
  - rewrite run_snoc. apply (trace_step n0 calls); [| exact IH].
    by eapply reachable_invariant.
Qed.

Lemma call_follows_its_code_witness :
  trace_of fresh_notification (In_Activate Activate_thrown)
    (actions_of 0
       (history (run (start fresh_notification
                        [Call_Activate; Call_wait_on_device consumer_stream;
                         Call_wait_on_host])
                     failed_activation))).
Proof.
  apply (call_follows_its_code producer_stream (cudaSuccess, 7) fresh_notification
           [Call_Activate; Call_wait_on_device consumer_stream; Call_wait_on_host]
           failed_activation 0 (In_Activate Activate_thrown)); reflexivity.
Defined.

(** *** Streams made by [CreateCudaStream] *)

(** X23.  CreateCudaStream refuses a provider that is not the CUDA provider,
    whatever cudaStreamCreate would return, and throws when cudaStreamCreate
    fails.  The stream it returns carries the created handle and the CUDA
    provider, so a wait_on_device call on it always passes the enforcement on
    the provider type, and a notification created on it records its event on
    that handle. *)
Theorem CreateCudaStream_accepted (provider : string) (created : cudaError_t * nat) :
  (provider ≠ kCudaExecutionProvider →
   CreateCudaStream provider created
   = Throw "provider->Type() == kCudaExecutionProvider")
  ∧ (provider = kCudaExecutionProvider → created.1 ≠ cudaSuccess →
     CreateCudaStream provider created = Throw "cudaStreamCreate")
  ∧ (∀ st, CreateCudaStream provider created = Ok st →
       st = {| handle := created.2; provider_Type := kCudaExecutionProvider |}
       ∧ (∀ s tid r,
            threads s !! tid = Some (In_wait_on_device st wait_on_device_enforce) →
            threads (step s (tid, r)) !! tid
            = Some (In_wait_on_device st wait_on_device_load))
       ∧ (∀ event n r,
            CreateNotification st event = Ok n →
            history (run (start n [Call_Activate]) [(0, r)])
            = [(0, cudaEventRecord event.2 created.2 r)])).
Proof.
  unfold CreateCudaStream. split; [| split].
  - intros Hne. by rewrite decide_False.
  - intros -> Hfail. rewrite decide_True by done. by rewrite decide_False.
  - intros st Hst. repeat case_decide; try done. injection Hst as <-. subst provider.
    split; [done |]. split.
    + intros s tid r Hth. rewrite (step_Some s tid r _ Hth). simpl.
      apply list_lookup_insert_eq. by eapply lookup_lt_Some.
    + intros event n r Hn.
      apply CudaNotification_new_Ok in Hn as (_ & Hstream & Hevent & _).
      simpl. by rewrite Hstream, Hevent.
Qed.
